(** * Evolutionary search of archai (archai/nlp/nas/evolution.py)

    A shallow embedding of the class [Evolution]: the constraint filter,
    the Pareto-frontier update, the parent re-sampling weights, the variation
    operators and the generation loop of [search].

    The object [self] is split in two: the constructor arguments, which are
    never assigned after [__init__], are the record [Args]; the attributes
    that the search mutates, together with the positions of the two random
    generators and the log of calls made to the measurement routines, are
    the record [Store].  Every method is a function from a store to an
    [outcome]: a value with the new store, a Python exception, or
    [OutOfFuel] when a [while] loop was cut by the fuel it was given.

    The modules [model_loader], [nas_utils.constraints], [nas_utils.converter]
    and [nas_utils.pareto_front] are outside the embedded file: they are
    interfaces (type classes) here, and every statement holds for all of
    their implementations. *)

From stdpp Require Import gmap list.
From Stdlib Require Import QArith Qround Lia Lqa.

Set Default Proof Using "Type".
Open Scope Z_scope.

(** ** Outcomes and the store-passing monad *)

Inductive exn : Type :=
  | AssertionError
  | IndexError
  | ValueError
  | ZeroDivisionError.

Inductive outcome (A : Type) : Type :=
  | Done (a : A)
  | Raise (e : exn)
  | OutOfFuel.

Arguments Done {A} a.
Arguments Raise {A} e.
Arguments OutOfFuel {A}.

Definition Py (S A : Type) : Type := S → outcome (A * S).

Definition ret {S A} (a : A) : Py S A := fun s => Done (a, s).

Definition bind {S A B} (c : Py S A) (k : A → Py S B) : Py S B :=
  fun s =>
    match c s with
    | Done (a, s') => k a s'
    | Raise e => Raise e
    | OutOfFuel => OutOfFuel
    end.

Definition raise {S A} (e : exn) : Py S A := fun _ => Raise e.

Definition py_assert {S} (b : bool) : Py S unit :=
  if b then ret tt else raise AssertionError.

Notation "'let*' x ':=' c 'in' k" := (bind c (fun x => k))
  (at level 10, x name, c at level 100, k at level 200, only parsing).
Notation "'do' c 'in' k" := (bind c (fun _ => k))
  (at level 10, c at level 100, k at level 200, only parsing).

(** [l[k]] for a non-negative index: IndexError out of range. *)
Definition index {S A} (l : list A) (k : nat) : Py S A :=
  match l !! k with
  | Some x => ret x
  | None => raise IndexError
  end.

(** [[f(x) for x in l]], the calls made from left to right. *)
Fixpoint for_each {S A B} (f : A → Py S B) (l : list A) : Py S (list B) :=
  match l with
  | [] => ret []
  | x :: l' => let* y := f x in let* ys := for_each f l' in ret (y :: ys)
  end.

(** ** Numbers *)

Definition Qltb (x y : Q) : bool := Qnum x * QDen y <? Qnum y * QDen x.

Definition Qsum (l : list Q) : Q := foldr Qplus (0%Q) l.

(** Python's [/]: ZeroDivisionError on a zero divisor. *)
Definition py_div {S} (x y : Q) : Py S Q :=
  if Qeq_bool y 0 then raise ZeroDivisionError else ret (x / y)%Q.

(** [max(l)] and [min(l)] of a list of integers: ValueError on the empty list. *)
Definition py_max {S} (l : list Z) : Py S Z :=
  match l with
  | [] => raise ValueError
  | x :: l' => ret (foldl Z.max x l')
  end.

Definition py_min {S} (l : list Z) : Py S Z :=
  match l with
  | [] => raise ValueError
  | x :: l' => ret (foldl Z.min x l')
  end.

(** ** Genes, configuration and the collaborators *)

Definition Gene : Type := list Z.

(** The arguments of [Evolution.__init__] that the search reads. *)
Record Args : Type := {
  population_size : nat;
  parent_size : nat;
  mutation_size : nat;
  mutation_prob : Q;
  crossover_size : nat;
  crossover_prob : Q;
  n_iter : nat;
  param_constraint_lower : Q;
  param_constraint_upper : Q;
  latency_constraint_upper : option Q
}.

(** [nas_utils.converter.Converter]: the key of a gene and, for each
    position of a gene, the list of its allowed values. *)
Class Converter : Type := {
  Key : Type;
  Key_eq_dec :: EqDecision Key;
  Key_countable :: Countable Key;
  gene_to_key : Gene → Key;
  get_allowed_genes : list (list Z)
}.

(** [model_loader] and [nas_utils.constraints], as functions of the gene
    the model is built from: the analytical count of [load_model_formula]
    and the four measurements. *)
Class Evaluator : Type := {
  formula_total : Gene → Q;
  measure_parameters_non_embedding : Gene → Z;
  measure_parameters_total : Gene → Z;
  measure_inference_latency : Gene → Q;
  measure_peak_memory : Gene → Q
}.

(** A point handed to [find_pareto_points]: one row of the array. *)
Definition Point : Type := (Q * Q * Q)%type.

(** [nas_utils.pareto_front.find_pareto_points]: the indices of the rows it
    keeps. *)
Class ParetoFront : Type := {
  find_pareto_points : list Point → bool → list nat
}.

(** The two generators the search draws from, as the sequences of the raw
    integers they deliver: numpy's global generator and the one of the
    module [random]. *)
Class Generators : Type := {
  np_raw : nat → Z;
  py_raw : nat → Z
}.

(** The calls made to the model loader and to the measurement routines,
    each with the gene whose model it is about. *)
Inductive event : Type :=
  | LoadModelFormula (g : Gene)
  | LoadModelFromConfig (g : Gene)
  | MeasureParameters (g : Gene) (total : bool)
  | MeasureInferenceLatency (g : Gene)
  | MeasurePeakMemory (g : Gene).

(** ** The store *)

(** [self.pareto]: five lists read at the same indices. *)
Record Pareto : Type := {
  pareto_population : list Gene;
  pareto_params : list Z;
  pareto_total_params : list Z;
  pareto_latencies : list Q;
  pareto_memories : list Q
}.

Definition empty_pareto : Pareto :=
  {| pareto_population := []; pareto_params := []; pareto_total_params := [];
     pareto_latencies := []; pareto_memories := [] |}.

Record Store `{Converter} : Type := {
  pareto : Pareto;
  all_population : list Gene;
  all_params : list Z;
  all_total_params : list Z;
  all_latencies : list Q;
  all_memories : list Q;
  counts : gmap Key Z;
  np_pos : nat;
  py_pos : nat;
  trace : list event
}.

(** The values that the loop of [search] carries from one generation to the
    next in local variables. *)
Record Locals : Type := {
  population : list Gene;
  parents_params : list Z;
  parents_total_params : list Z;
  parents_latencies : list Q;
  parents_memories : list Q
}.

Section Model.
Context {conv : Converter} {evaluator : Evaluator} {front : ParetoFront}
        {gen : Generators}.
Context (self : Args).

Abbreviation M := (Py Store).

Definition allowed_genes : list (list Z) := get_allowed_genes.
Definition gene_size : nat := length allowed_genes.

(** *** Assignments to the attributes *)

Definition set_pareto (p : Pareto) (s : Store) : Store :=
  {| pareto := p; all_population := all_population s; all_params := all_params s;
     all_total_params := all_total_params s; all_latencies := all_latencies s;
     all_memories := all_memories s; counts := counts s; np_pos := np_pos s;
     py_pos := py_pos s; trace := trace s |}.

Definition set_all_population (l : list Gene) (s : Store) : Store :=
  {| pareto := pareto s; all_population := l; all_params := all_params s;
     all_total_params := all_total_params s; all_latencies := all_latencies s;
     all_memories := all_memories s; counts := counts s; np_pos := np_pos s;
     py_pos := py_pos s; trace := trace s |}.

Definition set_all_measures (ps ts : list Z) (ls ms : list Q) (s : Store) : Store :=
  {| pareto := pareto s; all_population := all_population s; all_params := ps;
     all_total_params := ts; all_latencies := ls; all_memories := ms;
     counts := counts s; np_pos := np_pos s; py_pos := py_pos s; trace := trace s |}.

Definition set_counts (c : gmap Key Z) (s : Store) : Store :=
  {| pareto := pareto s; all_population := all_population s; all_params := all_params s;
     all_total_params := all_total_params s; all_latencies := all_latencies s;
     all_memories := all_memories s; counts := c; np_pos := np_pos s;
     py_pos := py_pos s; trace := trace s |}.

Definition set_np_pos (n : nat) (s : Store) : Store :=
  {| pareto := pareto s; all_population := all_population s; all_params := all_params s;
     all_total_params := all_total_params s; all_latencies := all_latencies s;
     all_memories := all_memories s; counts := counts s; np_pos := n;
     py_pos := py_pos s; trace := trace s |}.

Definition set_py_pos (n : nat) (s : Store) : Store :=
  {| pareto := pareto s; all_population := all_population s; all_params := all_params s;
     all_total_params := all_total_params s; all_latencies := all_latencies s;
     all_memories := all_memories s; counts := counts s; np_pos := np_pos s;
     py_pos := n; trace := trace s |}.

Definition set_trace (t : list event) (s : Store) : Store :=
  {| pareto := pareto s; all_population := all_population s; all_params := all_params s;
     all_total_params := all_total_params s; all_latencies := all_latencies s;
     all_memories := all_memories s; counts := counts s; np_pos := np_pos s;
     py_pos := py_pos s; trace := t |}.

Definition get {A} (f : Store → A) : M A := fun s => Done (f s, s).
Definition modify (f : Store → Store) : M unit := fun s => Done (tt, f s).

(** A call to a measurement routine is recorded at the end of the log. *)
Definition emit (e : event) : M unit :=
  modify (fun s => set_trace (trace s ++ [e]) s).

(** *** The random generators *)

(** Both generators make a float of [0, 1) from 53 random bits. *)
Definition unit_interval (raw : Z) : Q :=
  (raw mod 9007199254740992) # 9007199254740992.

(** [np.random.uniform()] *)
Definition np_random_uniform : M Q :=
  fun s => Done (unit_interval (np_raw (np_pos s)), set_np_pos (S (np_pos s)) s).

(** [random.random()] *)
Definition py_random : M Q :=
  fun s => Done (unit_interval (py_raw (py_pos s)), set_py_pos (S (py_pos s)) s).

(** [random.choices(l)[0]]: the element at [floor(random() * len(l))]. *)
Definition random_choices {A} (l : list A) : M A :=
  let* u := py_random in
  index l (Z.to_nat (Qfloor (u * inject_Z (Z.of_nat (length l))))).

(** [random._randbelow(n)] for [n > 0]. *)
Definition py_randbelow (n : nat) : M nat :=
  fun s => Done (Z.to_nat (py_raw (py_pos s) mod Z.of_nat n), set_py_pos (S (py_pos s)) s).

(** [random.sample(l, 2)]: two elements at different positions of [l],
    by selection from a pool; ValueError when [l] is shorter than the
    sample. *)
Definition random_sample2 {A} (l : list A) : M (list A) :=
  let n := length l in
  if (n <? 2)%nat then raise ValueError
  else
    let* j := py_randbelow n in
    let* x := index l j in
    let* moved := index l (n - 1) in
    let pool := <[j := moved]> l in
    let* j' := py_randbelow (n - 1) in
    let* y := index pool j' in
    ret [x; y].

(** [np.random.choice(n, size=size, p=p)]: one uniform draw per sample,
    located in the cumulative sums of [p] (the number of sums that do not
    exceed the draw).  ValueError when there is nothing to choose from,
    when [p] has not [n] entries, has a negative entry or does not sum
    to 1. *)
Definition cumsum (p : list Q) : list Q :=
  (fix go (acc : Q) (l : list Q) : list Q :=
     match l with
     | [] => []
     | x :: l' => (acc + x)%Q :: go (acc + x)%Q l'
     end) 0%Q p.

Definition searchsorted_right (cdf : list Q) (u : Q) : nat :=
  length (filter (fun c => Qle_bool c u = true) cdf).

Definition np_random_choice (n size : nat) (p : list Q) : M (list nat) :=
  if (n =? 0)%nat && negb (size =? 0)%nat then raise ValueError
  else if negb (length p =? n)%nat then raise ValueError
  else if existsb (fun x => Qltb x 0) p then raise ValueError
  else if negb (Qeq_bool (Qsum p) 1) then raise ValueError
  else
    for_each (fun _ => let* u := np_random_uniform in
                       ret (searchsorted_right (cumsum p) u))
             (seq 0 size).

(** *** Evolution._profile *)

Definition _profile_model (g : Gene) : M unit :=
  do emit (LoadModelFromConfig g) in
  do emit (MeasureParameters g false) in
  do emit (MeasureParameters g true) in
  do emit (MeasureInferenceLatency g) in
  emit (MeasurePeakMemory g).

Definition _profile : M unit :=
  let* max_gene := for_each (fun k => let* a := index allowed_genes k in
                                      match last a with
                                      | Some v => ret v
                                      | None => raise IndexError
                                      end) (seq 0 gene_size) in
  do _profile_model max_gene in
  let* min_gene := for_each (fun k => let* a := index allowed_genes k in
                                      index a 0) (seq 0 gene_size) in
  _profile_model min_gene.

(** *** Evolution._check_constraints *)

Definition _check_constraints (gene : Gene) : M bool :=
  do emit (LoadModelFormula gene) in
  let total_params_analytical := formula_total gene in
  if Qltb total_params_analytical (param_constraint_lower self) then ret false
  else if Qltb (param_constraint_upper self) total_params_analytical then ret false
  else
    do emit (LoadModelFromConfig gene) in
    match latency_constraint_upper self with
    | Some bound =>
        do emit (MeasureInferenceLatency gene) in
        let latency := measure_inference_latency gene in
        if Qltb bound latency then ret false else ret true
    | None => ret true
    end.

(** *** Evolution._calculate_constraints *)

Definition measure_gene (gene : Gene) : M (Z * Z * Q * Q) :=
  do emit (LoadModelFromConfig gene) in
  do emit (MeasureParameters gene false) in
  let d_params := measure_parameters_non_embedding gene in
  do emit (MeasureParameters gene true) in
  let t_params := measure_parameters_total gene in
  do emit (MeasureInferenceLatency gene) in
  let latency := measure_inference_latency gene in
  do emit (MeasurePeakMemory gene) in
  let memory := measure_peak_memory gene in
  ret (d_params, t_params, latency, memory).

Definition _calculate_constraints (genes : list Gene)
  : M (list Z * list Z * list Q * list Q) :=
  let* rows := for_each measure_gene genes in
  let params := map (fun r => r.1.1.1) rows in
  let total_params := map (fun r => r.1.1.2) rows in
  let latencies := map (fun r => r.1.2) rows in
  let memories := map (fun r => r.2) rows in
  do py_assert (length params =? length latencies)%nat in
  do py_assert (length params =? length memories)%nat in
  do py_assert (length params =? length total_params)%nat in
  ret (params, total_params, latencies, memories).

(** *** Evolution._update_pareto_front *)

(** [np.concatenate((xs, ys, zs), axis=1)] of three columns: ValueError
    when they have not the same number of rows. *)
Definition concatenate (xs ys zs : list Q) : M (list Point) :=
  if (length xs =? length ys)%nat && (length xs =? length zs)%nat
  then ret (zip (zip xs ys) zs)
  else raise ValueError.

Definition _update_pareto_front (is_decreasing : bool) : M unit :=
  do modify (set_pareto empty_pareto) in
  let* ps := get all_params in
  let* m := py_max ps in
  let xs := map (fun p => inject_Z (m - p)) ps in
  let* ys := get all_latencies in
  let* zs := get all_memories in
  let* points := concatenate xs ys zs in
  let p_inds := find_pareto_points points is_decreasing in
  let* pop := get all_population in
  let* tps := get all_total_params in
  do py_assert (length points =? length pop)%nat in
  do py_assert (length points =? length ps)%nat in
  do py_assert (length points =? length tps)%nat in
  do py_assert (length points =? length ys)%nat in
  do py_assert (length points =? length zs)%nat in
  let* p_pop := for_each (index pop) p_inds in
  let* p_ps := for_each (index ps) p_inds in
  let* p_tps := for_each (index tps) p_inds in
  let* p_ys := for_each (index ys) p_inds in
  let* p_zs := for_each (index zs) p_inds in
  modify (set_pareto {| pareto_population := p_pop; pareto_params := p_ps;
                        pareto_total_params := p_tps; pareto_latencies := p_ys;
                        pareto_memories := p_zs |}).

(** *** Evolution._calculate_weighted_count *)

(** [self.counts[key]]: a [Counter] answers 0 for a key it has not. *)
Definition count_of (c : gmap Key Z) (gene : Gene) : Z :=
  default 0 (c !! gene_to_key gene).

Definition _calculate_weighted_count : M (list Q) :=
  let* front := get (fun s => pareto_population (pareto s)) in
  let* c := get counts in
  let pareto_counts := map (count_of c) front in
  let* counts_max := py_max pareto_counts in
  let* counts_min := py_min pareto_counts in
  let counts_range :=
    if counts_max =? counts_min then counts_max else counts_max - counts_min in
  let* scaled_counts :=
    for_each (fun count => py_div (inject_Z (count - counts_min)) (inject_Z counts_range))
             pareto_counts in
  let* count_weights :=
    for_each (fun scaled_count => py_div 1 (scaled_count + 1)) scaled_counts in
  let* count_weights' :=
    for_each (fun w => py_div w (Qsum count_weights)) count_weights in
  do py_assert (length count_weights' =? length front)%nat in
  ret count_weights'.

(** *** Evolution._mutation and Evolution._crossover *)

Definition _mutation (gene : Gene) : M Gene :=
  for_each (fun k =>
              let* u := np_random_uniform in
              if Qltb u (mutation_prob self)
              then let* a := index allowed_genes k in random_choices a
              else index gene k)
           (seq 0 gene_size).

Definition _crossover (genes : list Gene) : M Gene :=
  for_each (fun k =>
              let* u := np_random_uniform in
              if Qltb u (crossover_prob self)
              then let* g := index genes 0 in index g k
              else let* g := index genes 1 in index g k)
           (seq 0 gene_size).

(** *** The occurrence counter *)

Definition _is_seen_before (gene : Gene) : M bool :=
  let* c := get counts in
  match c !! gene_to_key gene with
  | Some _ => ret true
  | None => ret false
  end.

Definition _update_gene_count (gene : Gene) : M unit :=
  modify (fun s => set_counts (<[gene_to_key gene := count_of (counts s) gene + 1]> (counts s)) s).

Definition _update_population_count (population : list Gene) : M unit :=
  let* _ := for_each _update_gene_count population in ret tt.

(** *** Loops *)

(** [while cond: body] over the local variables [l]; the fuel bounds the
    number of times the body is run. *)
Fixpoint while {L} (fuel : nat) (cond : L → bool) (body : L → M L) (l : L) : M L :=
  if cond l then
    match fuel with
    | O => fun _ => OutOfFuel
    | S fuel' => let* l' := body l in while fuel' cond body l'
    end
  else ret l.

(** *** Evolution.sample_random_population *)

Definition sample_gene : M Gene :=
  for_each (fun k => let* a := index allowed_genes k in random_choices a)
           (seq 0 gene_size).

Definition sample_random_population (fuel : nat) (n_samples : nat) : M (list Gene) :=
  let* r := while fuel
              (fun '(population, i) => (i <? n_samples)%nat)
              (fun '(population, i) =>
                 let* sampled_gene := sample_gene in
                 let* ok := _check_constraints sampled_gene in
                 if ok then ret (population ++ [sampled_gene], S i)
                 else ret (population, i))
              ([], O) in
  ret r.1.

(** *** Evolution.search *)

(** The two retry loops of a generation.  [a and not b] evaluates [b]
    only when [a] holds. *)
Definition accept (gene : Gene) : M bool :=
  let* ok := _check_constraints gene in
  if ok then let* seen := _is_seen_before gene in ret (negb seen)
  else ret false.

Definition mutation_loop (fuel : nat) (parents_population : list Gene) : M (list Gene) :=
  let* r := while fuel
              (fun '(mutated_population, k) => (k <? mutation_size self)%nat)
              (fun '(mutated_population, k) =>
                 let* parent := random_choices parents_population in
                 let* mutated_gene := _mutation parent in
                 let* ok := accept mutated_gene in
                 if ok then ret (mutated_population ++ [mutated_gene], S k)
                 else ret (mutated_population, k))
              ([], O) in
  ret r.1.

Definition crossover_loop (fuel : nat) (parents_population : list Gene) : M (list Gene) :=
  let* r := while fuel
              (fun '(crossovered_population, k) => (k <? crossover_size self)%nat)
              (fun '(crossovered_population, k) =>
                 let* pair := random_sample2 parents_population in
                 let* crossovered_gene := _crossover pair in
                 let* ok := accept crossovered_gene in
                 if ok then ret (crossovered_population ++ [crossovered_gene], S k)
                 else ret (crossovered_population, k))
              ([], O) in
  ret r.1.

(** Before the loop: the initial population, which becomes the history
    of visited genes and is counted once. *)
Definition search_init (fuel : nat) : M Locals :=
  let* population := sample_random_population fuel (population_size self) in
  do modify (set_all_population population) in
  do _update_population_count population in
  ret {| population := population; parents_params := []; parents_total_params := [];
         parents_latencies := []; parents_memories := [] |}.

(** Generation [i], first part: the measurement of the genes that were not
    measured yet and the update of the frontier.  The result is the four
    [population_*] lists that are written to the logs. *)
Definition search_evaluate (i : nat) (loc : Locals)
  : M (list Z * list Z * list Q * list Q) :=
  let idx := if (i =? 0)%nat then O else parent_size self in
  let* unseen := _calculate_constraints (drop idx (population loc)) in
  let '(population_params_unseen, population_total_params_unseen,
        population_latencies_unseen, population_memories_unseen) := unseen in
  let population_params := parents_params loc ++ population_params_unseen in
  let population_total_params := parents_total_params loc ++ population_total_params_unseen in
  let population_latencies := parents_latencies loc ++ population_latencies_unseen in
  let population_memories := parents_memories loc ++ population_memories_unseen in
  do py_assert (length population_params =? population_size self)%nat in
  do py_assert (length population_total_params =? population_size self)%nat in
  do py_assert (length population_latencies =? population_size self)%nat in
  do py_assert (length population_memories =? population_size self)%nat in
  do modify (fun s => set_all_measures (all_params s ++ population_params_unseen)
                        (all_total_params s ++ population_total_params_unseen)
                        (all_latencies s ++ population_latencies_unseen)
                        (all_memories s ++ population_memories_unseen) s) in
  do _update_pareto_front true in
  ret (population_params, population_total_params, population_latencies, population_memories).

(** Generation [i], second part: the parents drawn from the frontier,
    the children, and the population of the next generation. *)
Definition search_vary (fuel : nat) : M Locals :=
  let* weights := _calculate_weighted_count in
  let* front := get pareto in
  let* selected_idx := np_random_choice (length (pareto_population front))
                                        (parent_size self) weights in
  let* parents_population := for_each (index (pareto_population front)) selected_idx in
  let* parents_params := for_each (index (pareto_params front)) selected_idx in
  let* parents_total_params := for_each (index (pareto_total_params front)) selected_idx in
  let* parents_latencies := for_each (index (pareto_latencies front)) selected_idx in
  let* parents_memories := for_each (index (pareto_memories front)) selected_idx in
  let* mutated_population := mutation_loop fuel parents_population in
  let* crossovered_population := crossover_loop fuel parents_population in
  let population := parents_population ++ mutated_population ++ crossovered_population in
  do py_assert (length population =? population_size self)%nat in
  do _update_population_count population in
  do modify (fun s => set_all_population
                        (all_population s ++ mutated_population ++ crossovered_population) s) in
  ret {| population := population; parents_params := parents_params;
         parents_total_params := parents_total_params;
         parents_latencies := parents_latencies; parents_memories := parents_memories |}.

Definition search_iteration (fuel : nat) (i : nat) (loc : Locals) : M Locals :=
  do search_evaluate i loc in
  search_vary fuel.

(** [for i in range(n): ...] from generation [i]. *)
Fixpoint search_loop (fuel : nat) (i n : nat) (loc : Locals) : M Locals :=
  match n with
  | O => ret loc
  | S n' => let* loc' := search_iteration fuel i loc in search_loop fuel (S i) n' loc'
  end.

(** The run up to the start of generation [n]. *)
Definition search_upto (fuel : nat) (n : nat) : M Locals :=
  let* loc := search_init fuel in
  search_loop fuel O n loc.

Definition search (fuel : nat) : M unit :=
  let* _ := search_upto fuel (n_iter self) in ret tt.

(** *** Evolution.__init__ *)

Definition new_store : Store :=
  {| pareto := empty_pareto; all_population := []; all_params := [];
     all_total_params := []; all_latencies := []; all_memories := [];
     counts := ∅; np_pos := O; py_pos := O; trace := [] |}.

(** The assertion on the sizes and the profiling, on the fresh attributes.
    What the constructor does between the two (it loads the default and
    the search configuration, overrides them with [model_config] and
    [choices], builds the converter and writes it to converter.pkl) is
    outside the embedding: the converter is the class [Converter] above,
    and an outcome of [__init__] is the outcome of the constructor when
    these steps succeed. *)
Definition __init__ : outcome Store :=
  match (do py_assert (population_size self =?
                       parent_size self + mutation_size self + crossover_size self)%nat in
         _profile) new_store with
  | Done (_, s) => Done s
  | Raise e => Raise e
  | OutOfFuel => OutOfFuel
  end.

End Model.

(** ** Vocabulary of the statements *)

Section Vocabulary.
Context {conv : Converter} {evaluator : Evaluator}.
Context (self : Args).

(** A gene of the search space: one value per position, each among the
    values allowed at its position. *)
Definition in_space (gene : Gene) : Prop :=
  Forall2 (fun v a => v ∈ a) gene allowed_genes.

(** The two stages of the constraint filter. *)
Definition params_in_range (gene : Gene) : Prop :=
  (param_constraint_lower self <= formula_total gene)%Q ∧
  (formula_total gene <= param_constraint_upper self)%Q.

Definition latency_in_bound (gene : Gene) : Prop :=
  ∀ bound, latency_constraint_upper self = Some bound →
           (measure_inference_latency gene <= bound)%Q.

Definition valid (gene : Gene) : Prop :=
  params_in_range gene ∧ latency_in_bound gene.

(** The attributes of [self] that the search assigns, without the
    generators and the log. *)
Definition attrs (s : Store) :=
  (pareto s, all_population s, all_params s, all_total_params s,
   all_latencies s, all_memories s, counts s).

Definition same_attrs (s s' : Store) : Prop := attrs s' = attrs s.

(** A step that leaves the attributes and the log as they are, and a step
    that leaves the attributes and adds no measure of parameters to the
    log. *)
Definition quiet (s s' : Store) : Prop :=
  same_attrs s s' ∧ trace s' = trace s.

(** The calls that [_calculate_constraints] makes for one gene. *)
Definition measure_events (gene : Gene) : list event :=
  [LoadModelFromConfig gene; MeasureParameters gene false; MeasureParameters gene true;
   MeasureInferenceLatency gene; MeasurePeakMemory gene].

(** The genes whose decoder parameters a log measures, in order. *)
Definition measured (tr : list event) : list Gene :=
  omap (fun e => match e with MeasureParameters g false => Some g | _ => None end) tr.

Definition unmeasured (s s' : Store) : Prop :=
  same_attrs s s' ∧ ∃ tr, trace s' = trace s ++ tr ∧ measured tr = [].

(** The counter after the genes of a population were counted, and what
    the search keeps true of it: no entry below 1. *)
Definition counted (c : gmap Key Z) (genes : list Gene) : gmap Key Z :=
  foldl (fun c g => <[gene_to_key g := count_of c g + 1]> c) c genes.

Definition counts_positive (c : gmap Key Z) : Prop :=
  ∀ k v, c !! k = Some v → 1 <= v.

(** What every retry loop keeps true of the children it has accepted:
    there are [k] of them, at most the quota, and each satisfies [P]. *)
Definition accepted (quota : nat) (P : Gene → Prop) (l : list Gene * nat) : Prop :=
  l.2 = length l.1 ∧ (l.2 ≤ quota)%nat ∧ Forall P l.1.

(** [xs] is [[l[i] for i in inds]]. *)
Definition gathered {A} (l : list A) (inds : list nat) (xs : list A) : Prop :=
  Forall2 (fun i x => l !! i = Some x) inds xs.

(** The rows handed to [find_pareto_points] for a history of measures:
    the distance of the decoder parameters to their maximum, the latency
    and the memory. *)
Definition max_of (ps : list Z) : Z :=
  match ps with
  | [] => 0
  | p :: ps' => foldl Z.max p ps'
  end.

Definition frontier_points (ps : list Z) (ls ms : list Q) : list Point :=
  zip (zip (map (fun p => inject_Z (max_of ps - p)) ps) ls) ms.

(** The history of a store holds, for every visited gene, its measures at
    the same index. *)
Definition aligned (s : Store) : Prop :=
  all_params s = map measure_parameters_non_embedding (all_population s)
  ∧ all_total_params s = map measure_parameters_total (all_population s)
  ∧ all_latencies s = map measure_inference_latency (all_population s)
  ∧ all_memories s = map measure_peak_memory (all_population s).

(** [self.pareto] is what [find_pareto_points] selects in the whole
    history of the store. *)
Definition pareto_of_history {front : ParetoFront} (s : Store) : Prop :=
  let inds := find_pareto_points
                (frontier_points (all_params s) (all_latencies s) (all_memories s))
                true in
  gathered (all_population s) inds (pareto_population (pareto s))
  ∧ gathered (all_params s) inds (pareto_params (pareto s))
  ∧ gathered (all_total_params s) inds (pareto_total_params (pareto s))
  ∧ gathered (all_latencies s) inds (pareto_latencies (pareto s))
  ∧ gathered (all_memories s) inds (pareto_memories (pareto s)).

(** Every visited gene is a key of the counter, with a count of 1 at
    least, and lies in the search space. *)
Definition history_counted (s : Store) : Prop :=
  counts_positive (counts s)
  ∧ (∀ g, g ∈ all_population s → is_Some (counts s !! gene_to_key g))
  ∧ Forall in_space (all_population s).

(** From one store to a later one the history is extended at its end and
    the counter loses no key. *)
Definition grows (s s' : Store) : Prop :=
  all_population s `prefix_of` all_population s'
  ∧ ∀ k, is_Some (counts s !! k) → is_Some (counts s' !! k).

(** An outcome that is a result or an IndexError. *)
Definition index_error_only {A} (o : outcome A) : Prop :=
  match o with
  | Done _ => True
  | Raise e => e = IndexError
  | OutOfFuel => False
  end.

(** The position of the first gene of the population of generation [i]
    that was not measured yet. *)
Definition unseen_from (i : nat) : nat :=
  if (i =? 0)%nat then O else parent_size self.

(** What holds when generation [i] starts. *)
Record search_inv (i : nat) (loc : Locals) (s : Store) : Prop := {
  inv_sizes :
    population_size self = (parent_size self + mutation_size self + crossover_size self)%nat;
  inv_population : length (population loc) = population_size self;
  inv_shape :
    i ≠ O →
    ∃ parents mutated crossed,
      population loc = parents ++ mutated ++ crossed
      ∧ length parents = parent_size self
      ∧ length mutated = mutation_size self
      ∧ length crossed = crossover_size self;
  inv_history :
    ∃ old, all_population s = old ++ drop (unseen_from i) (population loc)
           ∧ all_params s = map measure_parameters_non_embedding old
           ∧ all_total_params s = map measure_parameters_total old
           ∧ all_latencies s = map measure_inference_latency old
           ∧ all_memories s = map measure_peak_memory old;
  inv_reuse :
    let parents := take (unseen_from i) (population loc) in
    parents_params loc = map measure_parameters_non_embedding parents
    ∧ parents_total_params loc = map measure_parameters_total parents
    ∧ parents_latencies loc = map measure_inference_latency parents
    ∧ parents_memories loc = map measure_peak_memory parents;
  inv_counted : history_counted s;
  inv_members : ∀ g, g ∈ population loc → g ∈ all_population s
}.

(** What holds in generation [i] once the frontier is updated. *)
Record evaluated_inv {front : ParetoFront} (loc : Locals) (s : Store) : Prop := {
  ev_sizes :
    population_size self = (parent_size self + mutation_size self + crossover_size self)%nat;
  ev_aligned : aligned s;
  ev_pareto : pareto_of_history s;
  ev_counted : history_counted s;
  ev_members : ∀ g, g ∈ population loc → g ∈ all_population s
}.
End Vocabulary.

(** ** A small search space to run the search on *)

(** Modelled from the spec: [nas_utils.pareto_front.find_pareto_points] is
    not among the embedded files.  Section 4.3: the output is the set of
    the indices of the non-dominated points; a point dominates another one
    iff it is at least as good on every axis and strictly better on at
    least one; with [is_decreasing] every axis is minimized, otherwise
    every axis is maximized; points with the same vector do not dominate
    each other and all stay on the frontier. *)
Definition dominates (a b : Point) : bool :=
  let '(a1, a2, a3) := a in
  let '(b1, b2, b3) := b in
  Qle_bool a1 b1 && Qle_bool a2 b2 && Qle_bool a3 b3
  && (Qltb a1 b1 || Qltb a2 b2 || Qltb a3 b3).

Definition non_dominated (points : list Point) (is_decreasing : bool) (p : Point) : bool :=
  forallb (fun q => negb (if is_decreasing then dominates q p else dominates p q)) points.

Definition on_frontier (points : list Point) (is_decreasing : bool) (i : nat) : bool :=
  match points !! i with
  | Some p => non_dominated points is_decreasing p
  | None => false
  end.

Definition spec_find_pareto_points (points : list Point) (is_decreasing : bool) : list nat :=
  filter (fun i => on_frontier points is_decreasing i = true) (seq 0 (length points)).

Definition spec_front : ParetoFront := {| find_pareto_points := spec_find_pareto_points |}.

(** Two positions with three values each; the key of a gene is the gene. *)
Definition grid_converter : Converter :=
  {| Key := list Z; gene_to_key := fun g => g;
     get_allowed_genes := [[0; 1; 2]; [0; 1; 2]] |}.

(** Parameters grow with both positions, latency with the first and memory
    with the second. *)
Definition grid_evaluator : Evaluator :=
  {| formula_total := fun g => inject_Z (nth 0 g 0 * 10 + nth 1 g 0 * 5);
     measure_parameters_non_embedding := fun g => nth 0 g 0 * 10 + nth 1 g 0 * 5;
     measure_parameters_total := fun g => nth 0 g 0 * 10 + nth 1 g 0 * 5 + 100;
     measure_inference_latency := fun g => inject_Z (1 + nth 0 g 0);
     measure_peak_memory := fun g => inject_Z (1 + nth 1 g 0) |}.

(** Draws given in eighths of the unit interval. *)
Definition eighths (l : list Z) (default : Z) (i : nat) : Z :=
  nth i l default * 2 ^ 50.

(** A run of two generations: four genes, of which two parents, one mutated
    and one crossed gene. *)
Definition run_args : Args :=
  {| population_size := 4; parent_size := 2; mutation_size := 1; mutation_prob := 3 # 10;
     crossover_size := 1; crossover_prob := 1 # 2; n_iter := 2;
     param_constraint_lower := 0; param_constraint_upper := 100;
     latency_constraint_upper := Some (10 # 1) |}.

Definition run_draws : Generators :=
  {| np_raw := eighths [0; 7; 7; 0; 0; 7; 1; 5; 0; 7; 0; 7] 7;
     py_raw := eighths [0; 0; 3; 0; 3; 3; 6; 3; 0; 6; 0; 0; 0; 6; 0; 0] 0 |}.

Definition run_store0 : @Store grid_converter :=
  Eval vm_compute in
    match @__init__ grid_converter run_args with
    | Done s => s
    | _ => @new_store grid_converter
    end.

Definition run_start : Locals * @Store grid_converter :=
  Eval vm_compute in
    match @search_upto grid_converter grid_evaluator spec_front run_draws run_args 10 0
            run_store0 with
    | Done r => r
    | _ => ({| population := []; parents_params := []; parents_total_params := [];
               parents_latencies := []; parents_memories := [] |}, run_store0)
    end.

Definition run_gen1 : Locals * @Store grid_converter :=
  Eval vm_compute in
    match @search_upto grid_converter grid_evaluator spec_front run_draws run_args 10 1
            run_store0 with
    | Done r => r
    | _ => run_start
    end.

Definition run_gen2 : Locals * @Store grid_converter :=
  Eval vm_compute in
    match @search_upto grid_converter grid_evaluator spec_front run_draws run_args 10 2
            run_store0 with
    | Done r => r
    | _ => run_start
    end.

Definition run_eval2 : (list Z * list Z * list Q * list Q) * @Store grid_converter :=
  Eval vm_compute in
    match @search_evaluate grid_converter grid_evaluator spec_front run_args 2
            run_gen2.1 run_gen2.2 with
    | Done r => r
    | _ => (([], [], [], []), run_store0)
    end.

(** Generators that always deliver 0, and a constructor call with
    mutation_prob = 1.0 and one with mutation_prob = 0.0. *)
Definition zero_draws : Generators :=
  {| np_raw := fun _ => 0; py_raw := fun _ => 0 |}.


Definition never_mutate : Args :=
  {| population_size := 4; parent_size := 2; mutation_size := 1; mutation_prob := 0;
     crossover_size := 1; crossover_prob := 1 # 2; n_iter := 2;
     param_constraint_lower := 0; param_constraint_upper := 100;
     latency_constraint_upper := None |}.

(** A generation with one parent and two mutated genes, and draws that
    repeat for the second mutation. *)
Definition twins_args : Args :=
  {| population_size := 3; parent_size := 1; mutation_size := 2; mutation_prob := 3 # 10;
     crossover_size := 0; crossover_prob := 1 # 2; n_iter := 1;
     param_constraint_lower := 0; param_constraint_upper := 100;
     latency_constraint_upper := None |}.

Definition twins_draws : Generators :=
  {| np_raw := eighths [0; 0; 7; 0; 7] 7;
     py_raw := eighths [0; 0; 0; 0; 0; 0; 0; 6; 0; 6] 0 |}.

Definition twins_start : Locals * @Store grid_converter :=
  Eval vm_compute in
    match @search_upto grid_converter grid_evaluator spec_front twins_draws twins_args 5 0
            run_store0 with
    | Done r => r
    | _ => run_start
    end.

Definition twins_gen1 : Locals * @Store grid_converter :=
  Eval vm_compute in
    match @search_iteration grid_converter grid_evaluator spec_front twins_draws twins_args
            5 0 twins_start.1 twins_start.2 with
    | Done r => r
    | _ => run_start
    end.

(** ** Evolution.semi_brute_force and run_search *)

(** [semi_brute_force] calls [self.plot_search_state(iter=idx)], and
    [plot_search_state] has the parameters [iteration] and [parents]
    only: the call raises TypeError before the body of the method is
    entered.  An outcome of [semi_brute_force] is an outcome of the
    methods above or this TypeError. *)
Inductive brute_outcome (A : Type) : Type :=
  | Outcome (o : outcome A)
  | TypeError.
Arguments Outcome {A} o.
Arguments TypeError {A}.

Section BruteForce.
Context {conv : Converter} {evaluator : Evaluator} {front : ParetoFront}
        {gen : Generators}.
Context (self : Args).

Definition Brute (A : Type) : Type := Store → brute_outcome (A * Store).

Definition lift {A} (c : Py Store A) : Brute A := fun s => Outcome (c s).

Definition brute_bind {A B} (c : Brute A) (k : A → Brute B) : Brute B :=
  fun s =>
    match c s with
    | Outcome (Done (a, s')) => k a s'
    | Outcome (Raise e) => Outcome (Raise e)
    | Outcome OutOfFuel => Outcome OutOfFuel
    | TypeError => TypeError
    end.

(** [for x in l: f(x)] *)
Fixpoint brute_for {A} (f : A → Brute unit) (l : list A) : Brute unit :=
  match l with
  | [] => lift (ret tt)
  | x :: l' => brute_bind (f x) (fun _ => brute_for f l')
  end.

(** [range(0, stop, step)] for two sizes: ValueError when the step is 0. *)
Definition py_range (stop step : nat) : Py Store (list nat) :=
  if (step =? 0)%nat then raise ValueError
  else ret (map (fun k => (k * step)%nat) (seq 0 ((stop + step - 1) / step))).

(** The call [self.plot_search_state(iter=idx)]. *)
Definition plot_search_state_iter (idx : nat) : Brute unit := fun _ => TypeError.

(** The pool of genes: the first [n_samples] genes of the list kept in
    the file init_population_bruteforce.pkl when this file exists
    ([stored] is its content), a random population otherwise.  Reading
    and writing the file are taken to succeed. *)
Definition initial_pool (fuel : nat) (stored : option (list Gene)) (n_samples : nat)
  : Brute (list Gene) :=
  match stored with
  | Some population => lift (ret (take n_samples population))
  | None => lift (sample_random_population self fuel n_samples)
  end.

(** One batch: [population[idx:idx+batch]] is measured and appended to the
    history, the frontier is updated and the state is plotted. *)
Definition brute_batch (population : list Gene) (batch idx : nat) : Brute unit :=
  let curr_population := take batch (drop idx population) in
  brute_bind (lift (_calculate_constraints curr_population)) (fun measures =>
  let '(curr_population_params, curr_population_total_params,
        curr_population_latencies, curr_population_memories) := measures in
  brute_bind (lift (modify (fun s =>
                set_all_measures (all_params s ++ curr_population_params)
                  (all_total_params s ++ curr_population_total_params)
                  (all_latencies s ++ curr_population_latencies)
                  (all_memories s ++ curr_population_memories)
                  (set_all_population (all_population s ++ curr_population) s))))
    (fun _ =>
  brute_bind (lift (_update_pareto_front true)) (fun _ =>
  plot_search_state_iter idx))).

Definition semi_brute_force (fuel : nat) (stored : option (list Gene))
    (n_samples batch : nat) : Brute unit :=
  brute_bind (initial_pool fuel stored n_samples) (fun population =>
  brute_bind (lift (py_range n_samples batch)) (fun idxs =>
  brute_for (brute_batch population batch) idxs)).

(** [run_search(args, do_brute_force)], for [args] that hold the keys
    n_samples and batch. *)
Definition run_search (fuel : nat) (stored : option (list Gene)) (do_brute_force : bool)
    (n_samples batch : nat) : brute_outcome (unit * Store) :=
  match __init__ self with
  | Done alg =>
      if do_brute_force then semi_brute_force fuel stored n_samples batch alg
      else Outcome (search self fuel alg)
  | Raise e => Outcome (Raise e)
  | OutOfFuel => Outcome OutOfFuel
  end.
End BruteForce.

(** ** Vocabulary of the further properties *)

Section FurtherVocabulary.
Context {conv : Converter}.

Definition min_of (cs : list Z) : Z :=
  match cs with
  | [] => 0
  | c :: cs' => foldl Z.min c cs'
  end.

(** The divisor by which [_calculate_weighted_count] scales the counts of
    the frontier, the weights before they are normalised, and the
    weights. *)
Definition counts_range (cs : list Z) : Z :=
  if max_of cs =? min_of cs then max_of cs else max_of cs - min_of cs.

Definition raw_weights (cs : list Z) : list Q :=
  map (fun c => (1 / (inject_Z (c - min_of cs) / inject_Z (counts_range cs) + 1))%Q) cs.

Definition weights_of (cs : list Z) : list Q :=
  map (fun w => (w / Qsum (raw_weights cs))%Q) (raw_weights cs).

(** The sum of the entries of a counter. *)
Definition total_count (c : gmap Key Z) : Z :=
  map_fold (fun _ v acc => acc + v) 0 c.

(** An outcome that is not an exception: a result, or a loop that was
    still running when it was cut. *)
Definition no_raise {A} (o : outcome A) : Prop :=
  match o with
  | Raise _ => False
  | _ => True
  end.

(** An outcome that is not a failed assertion. *)
Definition never_asserts {A} (o : outcome A) : Prop := o ≠ Raise AssertionError.

(** The number of genes of a list that have the key [k]. *)
Definition occurrences (k : Key) (genes : list Gene) : Z :=
  Z.of_nat (length (filter (fun g => gene_to_key g = k) genes)).
End FurtherVocabulary.

(** ** The assembly of a population *)

Section AssemblyVocabulary.
Context {conv : Converter} {evaluator : Evaluator} {gen : Generators}.
Context (self : Args).

(** In the state [s1] that the update of the frontier leaves, [parents]
    are the genes of the frontier at the indices that numpy draws with
    the weights of [_calculate_weighted_count], [mutated] is what the
    loop of the mutations returns for these parents, and [crossed] is
    what the loop of the crossovers returns for them afterwards. *)
Definition assembled (fuel : nat) (s1 : Store) (parents mutated crossed : list Gene)
  : Prop :=
  ∃ weights sw selected_idx s2 sp s3 s4,
    _calculate_weighted_count s1 = Done (weights, sw)
    ∧ np_random_choice (length (pareto_population (pareto sw))) (parent_size self)
        weights sw = Done (selected_idx, s2)
    ∧ for_each (index (pareto_population (pareto sw))) selected_idx s2 = Done (parents, sp)
    ∧ mutation_loop self fuel parents sp = Done (mutated, s3)
    ∧ crossover_loop self fuel parents s3 = Done (crossed, s4).
End AssemblyVocabulary.

(** ** Further runs on the small search space *)

(** Constructor calls with crossover_prob = 1.0 and with crossover_prob =
    0.0, and one that asks for an empty population. *)
Definition first_parent_only : Args :=
  {| population_size := 4; parent_size := 2; mutation_size := 1; mutation_prob := 3 # 10;
     crossover_size := 1; crossover_prob := 1; n_iter := 2;
     param_constraint_lower := 0; param_constraint_upper := 100;
     latency_constraint_upper := None |}.

Definition second_parent_only : Args :=
  {| population_size := 4; parent_size := 2; mutation_size := 1; mutation_prob := 3 # 10;
     crossover_size := 1; crossover_prob := 0; n_iter := 2;
     param_constraint_lower := 0; param_constraint_upper := 100;
     latency_constraint_upper := None |}.

Definition empty_args : Args :=
  {| population_size := 0; parent_size := 0; mutation_size := 0; mutation_prob := 3 # 10;
     crossover_size := 0; crossover_prob := 1 # 2; n_iter := 1;
     param_constraint_lower := 0; param_constraint_upper := 100;
     latency_constraint_upper := None |}.

(** A constructor call with sizes that do not add up. *)
Definition bad_sizes : Args :=
  {| population_size := 5; parent_size := 2; mutation_size := 1; mutation_prob := 3 # 10;
     crossover_size := 1; crossover_prob := 1 # 2; n_iter := 2;
     param_constraint_lower := 0; param_constraint_upper := 100;
     latency_constraint_upper := None |}.

(** The score that a point of the frontier minimizes. *)
Definition score (p : Point) : Q := (p.1.1 + p.1.2 + p.2)%Q.

(** The weights of the parents in the third generation of the run. *)
Definition run_weights : list Q :=
  Eval vm_compute in
    match @_calculate_weighted_count grid_converter run_eval2.2 with
    | Done (ws, _) => ws
    | _ => []
    end.

(** A run without mutation on draws that are all 0: the initial
    population is four times the gene [0; 0], and so is the frontier. *)
Definition stuck_start : Locals * @Store grid_converter :=
  Eval vm_compute in
    match @search_upto grid_converter grid_evaluator spec_front zero_draws never_mutate 5 0
            run_store0 with
    | Done r => r
    | _ => run_start
    end.

Definition stuck_eval : (list Z * list Z * list Q * list Q) * @Store grid_converter :=
  Eval vm_compute in
    match @search_evaluate grid_converter grid_evaluator spec_front never_mutate 0
            stuck_start.1 stuck_start.2 with
    | Done r => r
    | _ => (([], [], [], []), run_store0)
    end.

(** ** Properties *)

(** *** The monad *)

Section Monad.
Context {S : Type}.

Lemma bind_Done {A B} (c : Py S A) (k : A → Py S B) s b s' :
  bind c k s = Done (b, s') ↔ ∃ a s1, c s = Done (a, s1) ∧ k a s1 = Done (b, s').
Proof.
  unfold bind. split.
  - destruct (c s) as [[a s1]| |]; try discriminate. eauto.
  - intros (a & s1 & -> & Hk). exact Hk.
Qed.

Lemma bind_assoc {A B C} (c : Py S A) (k : A → Py S B) (k' : B → Py S C) s :
  bind (bind c k) k' s = bind c (fun a => bind (k a) k') s.
Proof. unfold bind. by destruct (c s) as [[a s1]| |]. Qed.

Lemma bind_ext {A B} (c : Py S A) (k k' : A → Py S B) s :
  (∀ a s1, k a s1 = k' a s1) → bind c k s = bind c k' s.
Proof. intros Hk. unfold bind. destruct (c s) as [[a s1]| |]; auto. Qed.

Lemma ret_Done {A} (a b : A) (s s' : S) : ret a s = Done (b, s') ↔ a = b ∧ s = s'.
Proof. unfold ret. split; [intros [= -> ->]; auto | intros [-> ->]; reflexivity]. Qed.

Lemma py_assert_Done (b : bool) (s s' : S) u :
  py_assert b s = Done (u, s') ↔ b = true ∧ s = s'.
Proof.
  unfold py_assert. destruct b; cbn.
  - split; [intros [= _ ->]; auto | intros [_ ->]; by destruct u].
  - split; [discriminate | intros [? _]; discriminate].
Qed.

Lemma index_Done {A} (l : list A) k x (s s' : S) :
  index l k s = Done (x, s') ↔ l !! k = Some x ∧ s = s'.
Proof.
  unfold index. destruct (l !! k) as [y|]; cbn.
  - split; [intros [= -> ->]; auto | intros [[= ->] ->]; reflexivity].
  - split; [discriminate | intros [? _]; discriminate].
Qed.

(** A loop over a list: every call moves the store along a preorder [R]
    and relates its argument to its result. *)
Lemma for_each_Done {A B} (f : A → Py S B) (R : relation S) `{!PreOrder R}
    (Q : A → B → Prop) (l : list A) :
  (∀ x s y s', x ∈ l → f x s = Done (y, s') → R s s' ∧ Q x y) →
  ∀ s ys s', for_each f l s = Done (ys, s') → R s s' ∧ Forall2 Q l ys.
Proof.
  induction l as [|x l IH]; intros Hf s ys s' Hrun; cbn in Hrun.
  - apply ret_Done in Hrun as [<- <-]. split; [reflexivity | constructor].
  - apply bind_Done in Hrun as (y & s1 & Hy & Hrun).
    apply bind_Done in Hrun as (ys' & s2 & Hys & Hrun).
    apply ret_Done in Hrun as [<- <-].
    destruct (Hf x s y s1) as [HR HQ]; [by left | done |].
    destruct (IH (fun x0 s0 y0 s0' Hin => Hf x0 s0 y0 s0' (list_elem_of_further _ _ _ Hin))
                s1 ys' s2 Hys) as [HR' HQ'].
    split; [by etrans | by constructor].
Qed.

(** A loop whose calls neither fail nor touch the store. *)
Lemma for_each_pure {A B} (f : A → Py S B) (g : A → B) (l : list A) (s : S) :
  (∀ x, x ∈ l → f x s = Done (g x, s)) → for_each f l s = Done (map g l, s).
Proof.
  induction l as [|x l IH]; intros Hf; cbn; [reflexivity |].
  unfold bind. rewrite Hf by (by left).
  rewrite IH; [reflexivity |]. intros y Hy. apply Hf. by right.
Qed.

Lemma for_each_length {A B} (f : A → Py S B) l s ys s' :
  for_each f l s = Done (ys, s') → length ys = length l.
Proof.
  revert s ys s'. induction l as [|x l IH]; intros s ys s' Hrun; cbn in Hrun.
  - by apply ret_Done in Hrun as [<- _].
  - apply bind_Done in Hrun as (y & s1 & _ & Hrun).
    apply bind_Done in Hrun as (ys' & s2 & Hys & Hrun).
    apply ret_Done in Hrun as [<- _]. cbn. f_equal. by eapply IH.
Qed.
End Monad.

(** *** Numbers *)

Lemma Qltb_lt (x y : Q) : Qltb x y = true ↔ (x < y)%Q.
Proof. unfold Qltb, Qlt. apply Z.ltb_lt. Qed.

Lemma Qltb_ge (x y : Q) : Qltb x y = false ↔ (y <= x)%Q.
Proof. unfold Qltb, Qle. apply Z.ltb_ge. Qed.

Section Properties.
Context {conv : Converter} {evaluator : Evaluator} {front : ParetoFront}
        {gen : Generators}.
Context (self : Args).

Lemma unit_interval_range (raw : Z) :
  (0 <= unit_interval raw)%Q ∧ (unit_interval raw < 1)%Q.
Proof.
  unfold unit_interval, Qle, Qlt. cbn.
  pose proof (Z.mod_pos_bound raw 9007199254740992 eq_refl). lia.
Qed.

#[local] Instance same_attrs_preorder : PreOrder same_attrs.
Proof.
  split; [intros s; reflexivity |].
  intros s1 s2 s3 H12 H23. unfold same_attrs in *. congruence.
Qed.

(** *** The generators *)

Lemma np_random_uniform_Done s u s' :
  np_random_uniform s = Done (u, s') →
  same_attrs s s' ∧ trace s' = trace s ∧ (0 <= u)%Q ∧ (u < 1)%Q.
Proof.
  unfold np_random_uniform. intros [= <- <-].
  pose proof (unit_interval_range (np_raw (np_pos s))) as [? ?]. done.
Qed.

Lemma random_choices_Done {A} (l : list A) s x s' :
  random_choices l s = Done (x, s') → same_attrs s s' ∧ trace s' = trace s ∧ x ∈ l.
Proof.
  unfold random_choices. intros Hrun.
  apply bind_Done in Hrun as (u & s1 & Hu & Hrun).
  unfold py_random in Hu. injection Hu as <- <-.
  apply index_Done in Hrun as [Hx <-].
  split; [done |]. split; [done |]. by eapply list_elem_of_lookup_2.
Qed.

Lemma random_sample2_Done {A} (l : list A) s xs s' :
  random_sample2 l s = Done (xs, s') →
  same_attrs s s' ∧ trace s' = trace s ∧ ∃ x y, xs = [x; y] ∧ x ∈ l ∧ y ∈ l.
Proof.
  unfold random_sample2. destruct (length l <? 2)%nat; [discriminate |].
  intros Hrun.
  apply bind_Done in Hrun as (j & s1 & Hj & Hrun). injection Hj as <- <-.
  apply bind_Done in Hrun as (x & s2 & Hx & Hrun). apply index_Done in Hx as [Hx <-].
  apply bind_Done in Hrun as (m & s3 & Hm & Hrun). apply index_Done in Hm as [Hm <-].
  apply bind_Done in Hrun as (j' & s4 & Hj' & Hrun). injection Hj' as <- <-.
  apply bind_Done in Hrun as (y & s5 & Hy & Hrun). apply index_Done in Hy as [Hy <-].
  apply ret_Done in Hrun as [<- <-].
  split; [done |]. split; [done |]. exists x, y. split; [done |].
  split; [by eapply list_elem_of_lookup_2 |].
  apply list_lookup_insert_Some in Hy as [(_ & <- & _) | (_ & Hy)];
    by eapply list_elem_of_lookup_2.
Qed.

(** *** The constraint filter *)

Lemma check_constraints_run (gene : Gene) (s : Store) :
  ∃ b tr, _check_constraints self gene s = Done (b, set_trace (trace s ++ tr) s)
          ∧ (b = true ↔ valid self gene)
          ∧ (MeasureInferenceLatency gene ∈ tr → params_in_range self gene)
          ∧ measured tr = [].
Proof.
  unfold _check_constraints, valid, params_in_range, latency_in_bound.
  unfold bind at 1. cbn [emit modify].
  destruct (Qltb (formula_total gene) (param_constraint_lower self)) eqn:Hlo.
  { apply Qltb_lt in Hlo.
    exists false, [LoadModelFormula gene]. split; [reflexivity |].
    split; [| split; [| reflexivity]].
    - split; [discriminate |]. intros [[Hle _] _].
      exfalso. eapply Qlt_not_le; eassumption.
    - intros Hin. apply list_elem_of_singleton in Hin. discriminate. }
  apply Qltb_ge in Hlo.
  destruct (Qltb (param_constraint_upper self) (formula_total gene)) eqn:Hup.
  { apply Qltb_lt in Hup.
    exists false, [LoadModelFormula gene]. split; [reflexivity |].
    split; [| split; [| reflexivity]].
    - split; [discriminate |]. intros [[_ Hle] _].
      exfalso. eapply Qlt_not_le; eassumption.
    - intros Hin. apply list_elem_of_singleton in Hin. discriminate. }
  apply Qltb_ge in Hup.
  unfold bind, emit, modify. cbn.
  destruct (latency_constraint_upper self) as [bound|] eqn:Hbound; cbn.
  - destruct (Qltb bound (measure_inference_latency gene)) eqn:Hlat.
    + apply Qltb_lt in Hlat.
      exists false,
        [LoadModelFormula gene; LoadModelFromConfig gene; MeasureInferenceLatency gene].
      split; [unfold ret, set_trace; cbn; by rewrite <- !app_assoc |].
      split; [| split; [done | reflexivity]].
      split; [discriminate |]. intros [_ Hle].
      exfalso. eapply Qlt_not_le; [exact Hlat | by apply Hle].
    + apply Qltb_ge in Hlat.
      exists true,
        [LoadModelFormula gene; LoadModelFromConfig gene; MeasureInferenceLatency gene].
      split; [unfold ret, set_trace; cbn; by rewrite <- !app_assoc |].
      split; [| split; [done | reflexivity]].
      split; [| done]. intros _. split; [done |]. by intros ? [= <-].
  - exists true, [LoadModelFormula gene; LoadModelFromConfig gene].
    split; [unfold ret, set_trace; cbn; by rewrite <- !app_assoc |].
    split; [| split; [done | reflexivity]].
    split; [| done]. intros _. split; [done |]. intros ?; discriminate.
Qed.

Lemma check_constraints_Done gene s b s' :
  _check_constraints self gene s = Done (b, s') →
  same_attrs s s' ∧ (b = true ↔ valid self gene)
  ∧ ∃ tr, trace s' = trace s ++ tr ∧ measured tr = [].
Proof.
  destruct (check_constraints_run gene s) as (b0 & tr & Hrun & Hb & _ & Hm).
  rewrite Hrun. intros [= <- <-]. split; [done |]. split; [done |]. by exists tr.
Qed.

(** *** Steps that leave the attributes alone *)

#[local] Instance quiet_preorder : PreOrder quiet.
Proof.
  split; [intros s; by split |].
  intros s1 s2 s3 [Ha Ht] [Ha' Ht']. split; [by etrans | congruence].
Qed.

Lemma measured_app (tr tr' : list event) : measured (tr ++ tr') = measured tr ++ measured tr'.
Proof. unfold measured. apply omap_app. Qed.

#[local] Instance unmeasured_preorder : PreOrder unmeasured.
Proof.
  split.
  - intros s. split; [reflexivity |]. exists []. by rewrite app_nil_r.
  - intros s1 s2 s3 [Ha (tr & Ht & Hm)] [Ha' (tr' & Ht' & Hm')].
    split; [by etrans |]. exists (tr ++ tr').
    split; [by rewrite Ht', Ht, app_assoc |]. by rewrite measured_app, Hm, Hm'.
Qed.

Lemma quiet_unmeasured s s' : quiet s s' → unmeasured s s'.
Proof. intros [Ha Ht]. split; [done |]. exists []. by rewrite app_nil_r. Qed.

(** *** Mutation and crossover *)

Lemma seq_in_space (c : Gene) :
  Forall2 (fun k v => ∃ a, allowed_genes !! k = Some a ∧ v ∈ a) (seq 0 gene_size) c →
  in_space c.
Proof.
  intros HF. apply Forall2_same_length_lookup. split.
  - apply Forall2_length in HF. by rewrite length_seq in HF.
  - intros i v a Hv Ha.
    assert (seq 0 gene_size !! i = Some i) as Hi.
    { apply lookup_seq. split; [done |]. apply lookup_lt_Some in Ha. exact Ha. }
    destruct (Forall2_lookup_lr _ _ _ _ _ _ HF Hi Hv) as (a' & Ha' & Hin).
    congruence.
Qed.

Lemma mutation_Done (gene : Gene) s c s' :
  _mutation self gene s = Done (c, s') →
  quiet s s' ∧
  Forall2 (fun k v => (∃ a, allowed_genes !! k = Some a ∧ v ∈ a) ∨ gene !! k = Some v)
          (seq 0 gene_size) c.
Proof.
  apply for_each_Done; [apply _ |].
  intros k s1 v s2 _ Hrun.
  apply bind_Done in Hrun as (u & s3 & Hu & Hrun).
  apply np_random_uniform_Done in Hu as (Ha & Ht & _).
  destruct (Qltb u (mutation_prob self)).
  - apply bind_Done in Hrun as (a & s4 & Hidx & Hrun).
    apply index_Done in Hidx as [Hidx <-].
    apply random_choices_Done in Hrun as (Ha' & Ht' & Hin).
    split; [split; [by etrans | congruence] |]. left. eauto.
  - apply index_Done in Hrun as [Hidx <-]. split; [by split |]. by right.
Qed.

Lemma mutation_in_space (gene : Gene) s c s' :
  in_space gene → _mutation self gene s = Done (c, s') → in_space c.
Proof.
  intros Hg Hrun. apply mutation_Done in Hrun as [_ HF].
  apply seq_in_space. eapply Forall2_impl; [exact HF |].
  intros k v [Hnew | Hold]; [done |]. cbn in Hold.
  destruct (allowed_genes !! k) as [a|] eqn:Ha.
  - exists a. split; [done |]. exact (Forall2_lookup_lr _ _ _ _ _ _ Hg Hold Ha).
  - apply Forall2_length in Hg. apply lookup_lt_Some in Hold.
    apply lookup_ge_None in Ha. lia.
Qed.

Lemma crossover_Done (genes : list Gene) s c s' :
  _crossover self genes s = Done (c, s') →
  quiet s s' ∧
  Forall2 (fun k v => ∃ g, g ∈ genes ∧ g !! k = Some v) (seq 0 gene_size) c.
Proof.
  apply for_each_Done; [apply _ |].
  intros k s1 v s2 _ Hrun.
  apply bind_Done in Hrun as (u & s3 & Hu & Hrun).
  apply np_random_uniform_Done in Hu as (Ha & Ht & _).
  destruct (Qltb u (crossover_prob self));
    apply bind_Done in Hrun as (g & s4 & Hg & Hrun);
    apply index_Done in Hg as [Hg <-];
    apply index_Done in Hrun as [Hv <-];
    (split; [by split |]); exists g; (split; [by eapply list_elem_of_lookup_2 | done]).
Qed.

Lemma crossover_in_space (genes : list Gene) s c s' :
  Forall in_space genes → _crossover self genes s = Done (c, s') → in_space c.
Proof.
  intros Hgs Hrun. apply crossover_Done in Hrun as [_ HF].
  apply seq_in_space. eapply Forall2_impl; [exact HF |].
  intros k v (g & Hin & Hv). cbn in Hv.
  rewrite Forall_forall in Hgs. specialize (Hgs g Hin).
  destruct (allowed_genes !! k) as [a|] eqn:Ha.
  - exists a. split; [done |]. exact (Forall2_lookup_lr _ _ _ _ _ _ Hgs Hv Ha).
  - apply Forall2_length in Hgs. apply lookup_lt_Some in Hv.
    apply lookup_ge_None in Ha. lia.
Qed.

Lemma sample_gene_Done s c s' :
  sample_gene s = Done (c, s') → quiet s s' ∧ in_space c.
Proof.
  intros Hrun. unfold sample_gene in Hrun.
  eapply (for_each_Done _ quiet
            (fun k v => ∃ a, allowed_genes !! k = Some a ∧ v ∈ a)) in Hrun as [Hq HF];
    [split; [done | by apply seq_in_space] |].
  intros k s1 v s2 _ Hk.
  apply bind_Done in Hk as (a & s3 & Hidx & Hk).
  apply index_Done in Hidx as [Hidx <-].
  apply random_choices_Done in Hk as (Ha' & Ht' & Hin).
  split; [by split |]. eauto.
Qed.

Lemma set_np_pos_0 (s : Store) : set_np_pos (np_pos s + 0) s = s.
Proof. destruct s. unfold set_np_pos. cbn. by rewrite Nat.add_0_r. Qed.

Lemma set_np_pos_S (s : Store) (n : nat) :
  set_np_pos (np_pos (set_np_pos (S (np_pos s)) s) + n) (set_np_pos (S (np_pos s)) s)
  = set_np_pos (np_pos s + S n) s.
Proof. destruct s. unfold set_np_pos. cbn. by rewrite Nat.add_succ_r. Qed.

(** A loop over the positions that copies one value per position and makes
    one uniform draw for each. *)
Lemma for_each_copy (f : nat → Py Store Z) (gene : Gene) :
  (∀ k v s, gene !! k = Some v → f k s = Done (v, set_np_pos (S (np_pos s)) s)) →
  ∀ n a s, (a + n ≤ length gene)%nat →
           for_each f (seq a n) s
           = Done (take n (drop a gene), set_np_pos (np_pos s + n) s).
Proof.
  intros Hf. induction n as [|n IH]; intros a s Hlen; cbn [seq for_each].
  - unfold ret. by rewrite take_0, set_np_pos_0.
  - destruct (lookup_lt_is_Some_2 gene a) as [v Hv]; [lia |].
    unfold bind at 1. rewrite (Hf a v s Hv).
    unfold bind at 1. rewrite IH by (cbn; lia).
    unfold ret. rewrite (drop_S gene v a Hv). cbn [take].
    by rewrite set_np_pos_S.
Qed.


(** *** The while loop *)

Lemma while_Done {L} (R : relation Store) `{!PreOrder R} (I : L → Prop)
    (cond : L → bool) (body : L → Py Store L) (s0 : Store) :
  (∀ l s l' s', R s0 s → I l → cond l = true → body l s = Done (l', s') →
                R s s' ∧ I l') →
  ∀ fuel l s l' s',
    R s0 s → I l → while fuel cond body l s = Done (l', s') →
    R s0 s' ∧ I l' ∧ cond l' = false.
Proof.
  intros Hbody. induction fuel as [|fuel IH]; intros l s l' s' HR HI Hrun; cbn in Hrun.
  - destruct (cond l) eqn:Hc; [discriminate |].
    apply ret_Done in Hrun as [<- <-]. done.
  - destruct (cond l) eqn:Hc.
    + apply bind_Done in Hrun as (l1 & s1 & Hb & Hrun).
      destruct (Hbody l s l1 s1 HR HI Hc Hb) as [HR1 HI1].
      apply (IH l1 s1 l' s'); [by etrans | done | done].
    + apply ret_Done in Hrun as [<- <-]. done.
Qed.

(** *** Reads and assignments *)

Lemma get_Done {A} (f : Store → A) s a s' : get f s = Done (a, s') ↔ a = f s ∧ s' = s.
Proof. unfold get. split; [intros [= <- <-]; auto | intros [-> ->]; reflexivity]. Qed.

Lemma modify_Done (f : Store → Store) s u s' : modify f s = Done (u, s') ↔ s' = f s.
Proof.
  unfold modify. split; [intros [= _ <-]; auto | intros ->; by destruct u].
Qed.

(** *** The occurrence counter *)

Lemma update_population_count_run (genes : list Gene) (s : Store) :
  _update_population_count genes s
  = Done (tt, set_counts (counted (counts s) genes) s).
Proof.
  unfold _update_population_count.
  assert (∀ s, for_each _update_gene_count genes s
               = Done (map (fun _ => tt) genes, set_counts (counted (counts s) genes) s))
    as Hloop.
  { clear s. induction genes as [|g genes IH]; intros s.
    - cbn. unfold ret. by destruct s.
    - cbn [for_each]. unfold bind at 1. unfold _update_gene_count at 1, modify.
      unfold bind at 1. rewrite IH. reflexivity. }
  unfold bind. by rewrite Hloop.
Qed.

Lemma counted_app c genes genes' : counted c (genes ++ genes') = counted (counted c genes) genes'.
Proof. unfold counted. apply foldl_app. Qed.

Lemma counted_positive c genes : counts_positive c → counts_positive (counted c genes).
Proof.
  revert c. induction genes as [|g genes IH]; intros c Hc; cbn; [done |].
  apply IH. intros k v Hk.
  apply lookup_insert_Some in Hk as [[_ <-] | [_ Hk]]; [| by eapply Hc].
  unfold count_of. destruct (c !! gene_to_key g) as [v|] eqn:Hg; cbn; [| lia].
  specialize (Hc _ _ Hg). lia.
Qed.

Lemma counted_keeps c genes k : is_Some (c !! k) → is_Some (counted c genes !! k).
Proof.
  revert c. induction genes as [|g genes IH]; intros c Hk; cbn; [done |].
  apply IH. rewrite lookup_insert_is_Some. destruct (decide (gene_to_key g = k)); auto.
Qed.

Lemma counted_covers c genes g : g ∈ genes → is_Some (counted c genes !! gene_to_key g).
Proof.
  revert c. induction genes as [|g' genes IH]; intros c Hin; [by apply elem_of_nil in Hin |].
  apply elem_of_cons in Hin as [-> | Hin]; cbn.
  - apply counted_keeps. rewrite lookup_insert_is_Some. auto.
  - by apply IH.
Qed.

Lemma counts_positive_count_of c g :
  counts_positive c → is_Some (c !! gene_to_key g) → 1 <= count_of c g.
Proof. intros Hc [v Hv]. unfold count_of. rewrite Hv. cbn. by eapply Hc. Qed.

(** *** The measurements of a list of genes *)

Lemma set_trace_set_trace (t t' : list event) (s : Store) :
  set_trace t' (set_trace t s) = set_trace t' s.
Proof. reflexivity. Qed.

Lemma measure_gene_run (gene : Gene) (s : Store) :
  measure_gene gene s
  = Done ((measure_parameters_non_embedding gene, measure_parameters_total gene,
           measure_inference_latency gene, measure_peak_memory gene),
          set_trace (trace s ++ measure_events gene) s).
Proof.
  unfold measure_gene, bind, emit, modify, ret, set_trace, measure_events. cbn.
  by rewrite <- !app_assoc.
Qed.

Lemma calculate_constraints_run (genes : list Gene) (s : Store) :
  _calculate_constraints genes s
  = Done ((map measure_parameters_non_embedding genes, map measure_parameters_total genes,
           map measure_inference_latency genes, map measure_peak_memory genes),
          set_trace (trace s ++ concat (map measure_events genes)) s).
Proof.
  assert (∀ s, for_each measure_gene genes s
               = Done (map (fun g => (measure_parameters_non_embedding g,
                                       measure_parameters_total g,
                                       measure_inference_latency g,
                                       measure_peak_memory g)) genes,
                       set_trace (trace s ++ concat (map measure_events genes)) s))
    as Hloop.
  { clear s. induction genes as [|g genes IH]; intros s.
    - cbn. unfold ret. rewrite app_nil_r. by destruct s.
    - cbn [for_each]. unfold bind at 1. rewrite measure_gene_run.
      unfold bind at 1. rewrite IH. unfold ret. cbn [map concat trace set_trace].
      by rewrite set_trace_set_trace, <- app_assoc. }
  unfold _calculate_constraints. unfold bind at 1. rewrite Hloop.
  rewrite !map_map. cbn.
  unfold bind, py_assert. rewrite !length_map, Nat.eqb_refl. cbn. reflexivity.
Qed.

Lemma measured_measure_events (genes : list Gene) :
  measured (concat (map measure_events genes)) = genes.
Proof.
  induction genes as [|g genes IH]; [reflexivity |].
  cbn [map concat]. rewrite measured_app, IH. reflexivity.
Qed.

(** *** The update of the frontier *)

Lemma gather_Done {A} (l : list A) (inds : list nat) (s : Store) xs (s' : Store) :
  for_each (index l) inds s = Done (xs, s') → s' = s ∧ gathered l inds xs.
Proof.
  intros Hrun.
  eapply (for_each_Done _ eq (fun i x => l !! i = Some x)) in Hrun as [-> HF]; [done |].
  intros i s1 x s2 _ Hi. apply index_Done in Hi as [Hi ->]. done.
Qed.

Lemma py_max_Done (l : list Z) (s : Store) m s' :
  py_max l s = Done (m, s') → m = max_of l ∧ s' = s ∧ l ≠ [].
Proof. destruct l; [discriminate |]. cbn. by intros [= <- <-]. Qed.

Lemma update_pareto_front_Done (is_decreasing : bool) s u s' :
  _update_pareto_front is_decreasing s = Done (u, s') →
  let inds := find_pareto_points
                (frontier_points (all_params s) (all_latencies s) (all_memories s))
                is_decreasing in
  s' = set_pareto (pareto s') s
  ∧ all_params s ≠ []
  ∧ length (all_population s) = length (all_params s)
  ∧ length (all_total_params s) = length (all_params s)
  ∧ length (all_latencies s) = length (all_params s)
  ∧ length (all_memories s) = length (all_params s)
  ∧ gathered (all_population s) inds (pareto_population (pareto s'))
  ∧ gathered (all_params s) inds (pareto_params (pareto s'))
  ∧ gathered (all_total_params s) inds (pareto_total_params (pareto s'))
  ∧ gathered (all_latencies s) inds (pareto_latencies (pareto s'))
  ∧ gathered (all_memories s) inds (pareto_memories (pareto s')).
Proof.
  unfold _update_pareto_front. intros Hrun.
  apply bind_Done in Hrun as (? & s1 & H1 & Hrun). apply modify_Done in H1 as ->.
  apply bind_Done in Hrun as (ps & ? & H1 & Hrun). apply get_Done in H1 as [-> ->].
  apply bind_Done in Hrun as (m & ? & H1 & Hrun). apply py_max_Done in H1 as (-> & -> & Hne).
  apply bind_Done in Hrun as (ys & ? & H1 & Hrun). apply get_Done in H1 as [-> ->].
  apply bind_Done in Hrun as (zs & ? & H1 & Hrun). apply get_Done in H1 as [-> ->].
  apply bind_Done in Hrun as (points & ? & H1 & Hrun).
  unfold concatenate in H1.
  destruct ((_ =? _)%nat && (_ =? _)%nat) eqn:Hlen in H1; [| discriminate].
  apply ret_Done in H1 as [<- <-].
  apply andb_true_iff in Hlen as [Hl1 Hl2].
  apply Nat.eqb_eq in Hl1, Hl2. rewrite length_map in Hl1, Hl2.
  apply bind_Done in Hrun as (pop & ? & H1 & Hrun). apply get_Done in H1 as [-> ->].
  apply bind_Done in Hrun as (tps & ? & H1 & Hrun). apply get_Done in H1 as [-> ->].
  apply bind_Done in Hrun as (? & ? & H1 & Hrun). apply py_assert_Done in H1 as [Ha1 <-].
  apply bind_Done in Hrun as (? & ? & H1 & Hrun). apply py_assert_Done in H1 as [Ha2 <-].
  apply bind_Done in Hrun as (? & ? & H1 & Hrun). apply py_assert_Done in H1 as [Ha3 <-].
  apply bind_Done in Hrun as (? & ? & H1 & Hrun). apply py_assert_Done in H1 as [Ha4 <-].
  apply bind_Done in Hrun as (? & ? & H1 & Hrun). apply py_assert_Done in H1 as [Ha5 <-].
  apply Nat.eqb_eq in Ha1, Ha2, Ha3.
  rewrite !length_zip_with, !length_map in Ha1, Ha2, Ha3.
  apply bind_Done in Hrun as (p_pop & ? & H1 & Hrun). apply gather_Done in H1 as [-> G1].
  apply bind_Done in Hrun as (p_ps & ? & H1 & Hrun). apply gather_Done in H1 as [-> G2].
  apply bind_Done in Hrun as (p_tps & ? & H1 & Hrun). apply gather_Done in H1 as [-> G3].
  apply bind_Done in Hrun as (p_ys & ? & H1 & Hrun). apply gather_Done in H1 as [-> G4].
  apply bind_Done in Hrun as (p_zs & ? & H1 & Hrun). apply gather_Done in H1 as [-> G5].
  apply modify_Done in Hrun as ->. cbn in *.
  repeat split; try done; try lia.
Qed.

(** *** The weights of the parents *)

Lemma foldl_max_spec (x : Z) (l : list Z) :
  x <= foldl Z.max x l ∧ ∀ y, y ∈ l → y <= foldl Z.max x l.
Proof.
  revert x. induction l as [|z l IH]; intros x; cbn.
  - split; [lia |]. intros y Hy. by apply elem_of_nil in Hy.
  - destruct (IH (Z.max x z)) as [H1 H2]. split; [lia |].
    intros y Hy. apply elem_of_cons in Hy as [-> | Hy]; [lia | by apply H2].
Qed.

Lemma foldl_min_spec (x : Z) (l : list Z) :
  (foldl Z.min x l <= x ∧ ∀ y, y ∈ l → foldl Z.min x l <= y)
  ∧ ∀ b, b <= x → (∀ y, y ∈ l → b <= y) → b <= foldl Z.min x l.
Proof.
  revert x. induction l as [|z l IH]; intros x; cbn.
  - split; [split; [lia |] |]; [intros y Hy; by apply elem_of_nil in Hy | auto].
  - destruct (IH (Z.min x z)) as [[H1 H2] H3]. split; [split; [lia |] |].
    + intros y Hy. apply elem_of_cons in Hy as [-> | Hy]; [lia | by apply H2].
    + intros b Hb Hl. apply H3.
      * assert (b <= z) by (apply Hl; by left). lia.
      * intros y Hy. apply Hl. by right.
Qed.

Lemma py_div_run (x y : Q) (s : Store) :
  ¬ (y == 0)%Q → py_div x y s = Done ((x / y)%Q, s).
Proof.
  intros Hy. unfold py_div. destruct (Qeq_bool y 0) eqn:Hb; [| reflexivity].
  apply Qeq_bool_eq in Hb. contradiction.
Qed.

Lemma Qsum_pos (l : list Q) :
  l ≠ [] → Forall (fun w => (0 < w)%Q) l → (0 < Qsum l)%Q.
Proof.
  intros Hne HF. destruct HF as [|w l Hw HF]; [done |]. clear Hne. cbn.
  assert (0 <= Qsum l)%Q as Hl.
  { induction HF as [|w' l' Hw' _ IH]; cbn; [apply Qle_refl |].
    change (0 <= w' + Qsum l')%Q. lra. }
  change (0 < w + Qsum l)%Q. lra.
Qed.

Lemma Qsum_div (l : list Q) (t : Q) :
  (Qsum (map (fun w => w / t) l) == Qsum l / t)%Q.
Proof.
  induction l as [|w l IH]; cbn.
  - unfold Qdiv. ring.
  - change (w / t + Qsum (map (fun w0 => w0 / t) l) == (w + Qsum l) / t)%Q.
    rewrite IH. unfold Qdiv. ring.
Qed.

Lemma weighted_count_run (s : Store) :
  pareto_population (pareto s) ≠ [] →
  (∀ g, g ∈ pareto_population (pareto s) → 1 <= count_of (counts s) g) →
  ∃ ws, _calculate_weighted_count s = Done (ws, s)
        ∧ length ws = length (pareto_population (pareto s))
        ∧ Forall (fun w => (0 < w)%Q) ws
        ∧ (Qsum ws == 1)%Q.
Proof.
  intros Hne Hpos. unfold _calculate_weighted_count.
  unfold bind at 1. unfold get at 1. unfold bind at 1. unfold get at 1.
  set (front_genes := pareto_population (pareto s)) in *.
  set (cs := map (count_of (counts s)) front_genes).
  assert (∀ c, c ∈ cs → 1 <= c) as Hcs.
  { intros c Hc. apply list_elem_of_fmap in Hc as (g & -> & Hg). by apply Hpos. }
  destruct cs as [|c0 cs'] eqn:Ecs.
  { subst cs. apply fmap_nil_inv in Ecs. contradiction. }
  unfold bind at 1. cbn [py_max]. unfold ret at 1.
  unfold bind at 1. cbn [py_min]. unfold ret at 1.
  set (mx := foldl Z.max c0 cs'). set (mn := foldl Z.min c0 cs').
  destruct (foldl_max_spec c0 cs') as [Hmx0 Hmx].
  destruct (foldl_min_spec c0 cs') as [[Hmn0 Hmn] Hlow].
  fold mx in Hmx0, Hmx. fold mn in Hmn0, Hmn, Hlow.
  assert (1 <= mn) as Hmn1.
  { apply Hlow; [apply Hcs; by left | intros y Hy; apply Hcs; by right]. }
  set (range := if mx =? mn then mx else mx - mn).
  assert (1 <= range) as Hrange.
  { unfold range. destruct (mx =? mn) eqn:E; [lia |]. apply Z.eqb_neq in E. lia. }
  assert (0 < inject_Z range)%Q as Hrange'.
  { change 0%Q with (inject_Z 0). rewrite <- Zlt_Qlt. lia. }
  assert (∀ c, c ∈ c0 :: cs' → mn <= c) as Hge.
  { intros c Hc. apply elem_of_cons in Hc as [-> | Hc]; [done | by apply Hmn]. }
  set (scale := fun c : Z => (inject_Z (c - mn) / inject_Z range)%Q).
  unfold bind at 1.
  rewrite (for_each_pure _ scale (c0 :: cs') s).
  2:{ intros c _. apply py_div_run. lra. }
  assert (∀ x, x ∈ map scale (c0 :: cs') → (0 <= x)%Q) as Hscaled.
  { intros x Hx. apply list_elem_of_fmap in Hx as (c & -> & Hc). unfold scale.
    apply Qle_shift_div_l; [done |]. rewrite Qmult_0_l.
    change 0%Q with (inject_Z 0). rewrite <- Zle_Qle. specialize (Hge c Hc). lia. }
  set (weigh := fun x : Q => (1 / (x + 1))%Q).
  unfold bind at 1.
  rewrite (for_each_pure _ weigh (map scale (c0 :: cs')) s).
  2:{ intros x Hx. apply py_div_run. intros E. specialize (Hscaled x Hx).
      lra. }
  set (weights := map weigh (map scale (c0 :: cs'))).
  assert (Forall (fun w => (0 < w)%Q) weights) as Hweights.
  { apply Forall_forall. intros w Hw.
    apply list_elem_of_fmap in Hw as (x & -> & Hx). unfold weigh.
    specialize (Hscaled x Hx). unfold Qdiv. rewrite Qmult_1_l.
    apply Qinv_lt_0_compat. lra. }
  assert (0 < Qsum weights)%Q as Htotal by (by apply Qsum_pos).
  assert (¬ (Qsum weights == 0)%Q) as Htotal' by lra.
  unfold bind at 1.
  rewrite (for_each_pure _ (fun w => (w / Qsum weights)%Q) weights s).
  2:{ intros w _. by apply py_div_run. }
  assert (length (map (fun w => (w / Qsum weights)%Q) weights) = length front_genes) as Hlen.
  { unfold weights. rewrite !length_map. rewrite <- Ecs. subst cs. by rewrite length_map. }
  unfold bind, py_assert. rewrite Hlen, Nat.eqb_refl. cbv beta iota delta [ret].
  eexists. split; [reflexivity |]. split; [done |]. split.
  - apply Forall_forall. intros w Hw.
    apply list_elem_of_fmap in Hw as (x & -> & Hx).
    rewrite Forall_forall in Hweights. specialize (Hweights x Hx).
    apply Qlt_shift_div_l; [done |]. by rewrite Qmult_0_l.
  - rewrite Qsum_div. unfold Qdiv. by apply Qmult_inv_r.
Qed.

(** *** The draw of the parents *)

Lemma np_random_choice_Done (n size : nat) (p : list Q) s idx s' :
  np_random_choice n size p s = Done (idx, s') → quiet s s' ∧ length idx = size.
Proof.
  unfold np_random_choice.
  destruct (_ && _); [discriminate |].
  destruct (negb _); [discriminate |].
  destruct (existsb _ _); [discriminate |].
  destruct (negb _); [discriminate |].
  intros Hrun. split.
  - eapply (for_each_Done _ quiet (fun _ _ => True)) in Hrun as [Hq _]; [done |].
    intros k s1 i s2 _ Hk.
    apply bind_Done in Hk as (u & s3 & Hu & Hk).
    apply np_random_uniform_Done in Hu as (Ha & Ht & _).
    apply ret_Done in Hk as [_ <-]. by split.
  - apply for_each_length in Hrun. by rewrite length_seq in Hrun.
Qed.

(** *** The retry loops *)

Lemma accept_Done (gene : Gene) s b s' :
  accept self gene s = Done (b, s') →
  unmeasured s s' ∧ (b = true ↔ valid self gene ∧ counts s !! gene_to_key gene = None).
Proof.
  unfold accept. intros Hrun.
  apply bind_Done in Hrun as (ok & s1 & Hok & Hrun).
  apply check_constraints_Done in Hok as (Ha & Hvalid & Htr).
  assert (counts s1 = counts s) as Hc by (unfold same_attrs, attrs in Ha; congruence).
  destruct ok.
  - apply bind_Done in Hrun as (seen & s2 & Hseen & Hrun).
    unfold _is_seen_before in Hseen.
    apply bind_Done in Hseen as (c & s3 & Hget & Hseen).
    apply get_Done in Hget as [-> ->]. rewrite Hc in Hseen.
    destruct (counts s !! gene_to_key gene) eqn:Hk;
      apply ret_Done in Hseen as [<- <-]; apply ret_Done in Hrun as [<- <-];
      (split; [by split |]); cbn.
    + split; [discriminate | intros [_ ?]; discriminate].
    + split; [intros _; split; [by apply Hvalid | done] | done].
  - apply ret_Done in Hrun as [<- <-]. split; [by split |].
    split; [discriminate |]. intros [Hv _]. by apply Hvalid in Hv.
Qed.

Lemma accepted_exit quota P l :
  accepted quota P l → (l.2 <? quota)%nat = false →
  length l.1 = quota ∧ Forall P l.1.
Proof.
  intros (Hk & Hle & HP) Hc. apply Nat.ltb_ge in Hc. split; [lia | done].
Qed.

Lemma accepted_snoc quota P genes k g :
  accepted quota P (genes, k) → (k <? quota)%nat = true → P g →
  accepted quota P (genes ++ [g], S k).
Proof.
  unfold accepted. cbn. intros (Hk & Hle & HP) Hc Hg. apply Nat.ltb_lt in Hc.
  split; [rewrite length_app; cbn; lia |]. split; [lia |].
  apply Forall_app. split; [done | by constructor].
Qed.

Lemma sample_random_population_Done (fuel n_samples : nat) s pop s' :
  sample_random_population self fuel n_samples s = Done (pop, s') →
  unmeasured s s' ∧ length pop = n_samples
  ∧ Forall (fun g => valid self g ∧ in_space g) pop.
Proof.
  unfold sample_random_population. intros Hrun.
  apply bind_Done in Hrun as ([genes k] & s1 & Hloop & Hrun).
  apply ret_Done in Hrun as [<- <-].
  eapply (while_Done unmeasured
            (accepted n_samples (fun g => valid self g ∧ in_space g))) in Hloop
    as (Hu & Hacc & Hexit); [| | reflexivity | ].
  - split; [done |]. by apply (accepted_exit _ _ _ Hacc Hexit).
  - intros [genes0 k0] s2 [genes1 k1] s3 _ Hacc Hc Hbody.
    apply bind_Done in Hbody as (g & s4 & Hg & Hbody).
    apply sample_gene_Done in Hg as [Hq Hspace].
    apply bind_Done in Hbody as (ok & s5 & Hok & Hbody).
    apply check_constraints_Done in Hok as (Ha & Hvalid & Htr).
    assert (unmeasured s2 s5) as Hu.
    { etrans; [by apply quiet_unmeasured |]. by split. }
    destruct ok; apply ret_Done in Hbody as [[= <- <-] <-]; (split; [done |]).
    + apply accepted_snoc; [done | done |]. split; [by apply Hvalid | done].
    + done.
  - split; [done |]. split; [cbn; lia | constructor].
Qed.

Lemma mutation_loop_Done (fuel : nat) (parents : list Gene) s mutated s' :
  mutation_loop self fuel parents s = Done (mutated, s') →
  unmeasured s s' ∧ length mutated = mutation_size self
  ∧ Forall (fun c => valid self c ∧ counts s !! gene_to_key c = None
                     ∧ (Forall in_space parents → in_space c)) mutated.
Proof.
  unfold mutation_loop. intros Hrun.
  apply bind_Done in Hrun as ([genes k] & s1 & Hloop & Hrun).
  apply ret_Done in Hrun as [<- <-].
  eapply (while_Done unmeasured
            (accepted (mutation_size self)
               (fun c => valid self c ∧ counts s !! gene_to_key c = None
                         ∧ (Forall in_space parents → in_space c)))) in Hloop
    as (Hu & Hacc & Hexit); [| | reflexivity | ].
  - split; [done |]. by apply (accepted_exit _ _ _ Hacc Hexit).
  - intros [genes0 k0] s2 [genes1 k1] s3 [Hs2 _] Hacc Hc Hbody.
    apply bind_Done in Hbody as (parent & s4 & Hp & Hbody).
    apply random_choices_Done in Hp as (Ha4 & Ht4 & Hin).
    apply bind_Done in Hbody as (c & s5 & Hm & Hbody).
    pose proof Hm as Hm'. apply mutation_Done in Hm' as [Hq5 _].
    apply bind_Done in Hbody as (ok & s6 & Hok & Hbody).
    apply accept_Done in Hok as [Hu6 Hok].
    assert (unmeasured s2 s6) as Hu.
    { etrans; [apply quiet_unmeasured; by split |].
      etrans; [by apply quiet_unmeasured | done]. }
    assert (counts s5 = counts s) as Hcounts.
    { destruct Hq5 as [Hq5 _]. unfold same_attrs, attrs in *. congruence. }
    rewrite Hcounts in Hok.
    destruct ok; apply ret_Done in Hbody as [[= <- <-] <-]; (split; [done |]).
    + destruct Hok as [Hok _]. destruct (Hok eq_refl) as [Hv Hnew].
      apply accepted_snoc; [done | done |]. split; [done |]. split; [done |].
      intros Hparents. eapply mutation_in_space; [| exact Hm].
      rewrite Forall_forall in Hparents. by apply Hparents.
    + done.
  - split; [done |]. split; [cbn; lia | constructor].
Qed.

Lemma crossover_loop_Done (fuel : nat) (parents : list Gene) s crossed s' :
  crossover_loop self fuel parents s = Done (crossed, s') →
  unmeasured s s' ∧ length crossed = crossover_size self
  ∧ Forall (fun c => valid self c ∧ counts s !! gene_to_key c = None
                     ∧ (Forall in_space parents → in_space c)) crossed.
Proof.
  unfold crossover_loop. intros Hrun.
  apply bind_Done in Hrun as ([genes k] & s1 & Hloop & Hrun).
  apply ret_Done in Hrun as [<- <-].
  eapply (while_Done unmeasured
            (accepted (crossover_size self)
               (fun c => valid self c ∧ counts s !! gene_to_key c = None
                         ∧ (Forall in_space parents → in_space c)))) in Hloop
    as (Hu & Hacc & Hexit); [| | reflexivity | ].
  - split; [done |]. by apply (accepted_exit _ _ _ Hacc Hexit).
  - intros [genes0 k0] s2 [genes1 k1] s3 [Hs2 _] Hacc Hc Hbody.
    apply bind_Done in Hbody as (pair & s4 & Hp & Hbody).
    apply random_sample2_Done in Hp as (Ha4 & Ht4 & x & y & -> & Hx & Hy).
    apply bind_Done in Hbody as (c & s5 & Hm & Hbody).
    pose proof Hm as Hm'. apply crossover_Done in Hm' as [Hq5 _].
    apply bind_Done in Hbody as (ok & s6 & Hok & Hbody).
    apply accept_Done in Hok as [Hu6 Hok].
    assert (unmeasured s2 s6) as Hu.
    { etrans; [apply quiet_unmeasured; by split |].
      etrans; [by apply quiet_unmeasured | done]. }
    assert (counts s5 = counts s) as Hcounts.
    { destruct Hq5 as [Hq5 _]. unfold same_attrs, attrs in *. congruence. }
    rewrite Hcounts in Hok.
    destruct ok; apply ret_Done in Hbody as [[= <- <-] <-]; (split; [done |]).
    + destruct Hok as [Hok _]. destruct (Hok eq_refl) as [Hv Hnew].
      apply accepted_snoc; [done | done |]. split; [done |]. split; [done |].
      intros Hparents. eapply crossover_in_space; [| exact Hm].
      rewrite Forall_forall in Hparents.
      repeat constructor; by apply Hparents.
    + done.
  - split; [done |]. split; [cbn; lia | constructor].
Qed.

(** *** Lists read at the same indices *)

Lemma gathered_map {A B} (f : A → B) (l : list A) inds xs ys :
  gathered l inds xs → gathered (map f l) inds ys → ys = map f xs.
Proof.
  unfold gathered. intros Hx. revert ys.
  induction Hx as [|i x inds xs Hi _ IH]; intros ys Hy.
  - by apply Forall2_nil_inv_l in Hy as ->.
  - apply Forall2_cons_inv_l in Hy as (y & ys' & Hy & Hys & ->).
    rewrite list_lookup_fmap, Hi in Hy. injection Hy as <-.
    cbn. f_equal. by apply IH.
Qed.

Lemma gathered_map_eq {A B} (f : A → B) (l : list A) (l' : list B) inds xs ys :
  l' = map f l → gathered l inds xs → gathered l' inds ys → ys = map f xs.
Proof. intros ->. apply gathered_map. Qed.

Lemma gathered_elem {A} (l : list A) inds xs x :
  gathered l inds xs → x ∈ xs → x ∈ l.
Proof.
  unfold gathered. intros HF Hx.
  apply list_elem_of_lookup in Hx as [k Hk].
  destruct (Forall2_lookup_r _ _ _ _ _ HF Hk) as (i & _ & Hi).
  by eapply list_elem_of_lookup_2.
Qed.

Lemma gathered_length {A} (l : list A) inds xs :
  gathered l inds xs → length xs = length inds.
Proof. intros HF. symmetry. by eapply Forall2_length. Qed.

(** *** The first part of a generation *)

Lemma search_evaluate_Done (i : nat) (loc : Locals) s r s' :
  search_inv self i loc s →
  search_evaluate self i loc s = Done (r, s') →
  let unseen := drop (unseen_from self i) (population loc) in
  evaluated_inv self loc s'
  ∧ all_population s' = all_population s
  ∧ counts s' = counts s
  ∧ trace s' = trace s ++ concat (map measure_events unseen)
  ∧ all_params s' = all_params s ++ map measure_parameters_non_embedding unseen
  ∧ all_total_params s' = all_total_params s ++ map measure_parameters_total unseen
  ∧ all_latencies s' = all_latencies s ++ map measure_inference_latency unseen
  ∧ all_memories s' = all_memories s ++ map measure_peak_memory unseen
  ∧ r = (parents_params loc ++ map measure_parameters_non_embedding unseen,
         parents_total_params loc ++ map measure_parameters_total unseen,
         parents_latencies loc ++ map measure_inference_latency unseen,
         parents_memories loc ++ map measure_peak_memory unseen).
Proof.
  intros Hinv Hrun unseen. unfold search_evaluate in Hrun.
  change (if (i =? 0)%nat then O else parent_size self) with (unseen_from self i) in Hrun.
  fold unseen in Hrun.
  apply bind_Done in Hrun as (m & s1 & Hm & Hrun).
  rewrite calculate_constraints_run in Hm. injection Hm as <- <-.
  cbv beta iota in Hrun.
  apply bind_Done in Hrun as (? & ? & H1 & Hrun). apply py_assert_Done in H1 as [_ <-].
  apply bind_Done in Hrun as (? & ? & H1 & Hrun). apply py_assert_Done in H1 as [_ <-].
  apply bind_Done in Hrun as (? & ? & H1 & Hrun). apply py_assert_Done in H1 as [_ <-].
  apply bind_Done in Hrun as (? & ? & H1 & Hrun). apply py_assert_Done in H1 as [_ <-].
  apply bind_Done in Hrun as (? & s2 & Hs2 & Hrun). apply modify_Done in Hs2.
  apply bind_Done in Hrun as (? & s3 & H1 & Hrun). apply ret_Done in Hrun as [<- <-].
  apply update_pareto_front_Done in H1
    as (Hs3 & _ & _ & _ & _ & _ & G1 & G2 & G3 & G4 & G5).
  assert (all_population s3 = all_population s2) as E0 by (rewrite Hs3; reflexivity).
  assert (all_params s3 = all_params s2) as E1 by (rewrite Hs3; reflexivity).
  assert (all_total_params s3 = all_total_params s2) as E2 by (rewrite Hs3; reflexivity).
  assert (all_latencies s3 = all_latencies s2) as E3 by (rewrite Hs3; reflexivity).
  assert (all_memories s3 = all_memories s2) as E4 by (rewrite Hs3; reflexivity).
  assert (counts s3 = counts s2) as E5 by (rewrite Hs3; reflexivity).
  assert (trace s3 = trace s2) as E6 by (rewrite Hs3; reflexivity).
  subst s2. cbn in E0, E1, E2, E3, E4, E5, E6, G1, G2, G3, G4, G5.
  rewrite <- ?E1, <- ?E3, <- ?E4 in G1, G2, G3, G4, G5.
  rewrite <- E0 in G1. rewrite <- E2 in G3.
  destruct Hinv as [Hsizes _ _ (old & Hpop & Hp & Ht & Hl & Hmem) _ Hcounted Hmembers].
  fold unseen in Hpop.
  split; [| done].
  split; [done | | done | | ].
  - unfold aligned. rewrite E0, E1, E2, E3, E4.
    rewrite Hpop, Hp, Ht, Hl, Hmem, !map_app. done.
  - destruct Hcounted as (Hc1 & Hc2 & Hc3). unfold history_counted.
    rewrite E0, E5. done.
  - intros g Hg. rewrite E0. by apply Hmembers.
Qed.

(** *** The second part of a generation *)

Lemma py_div_Done (x y : Q) (s : Store) q s' : py_div x y s = Done (q, s') → s' = s.
Proof. unfold py_div. destruct (Qeq_bool y 0); [discriminate |]. by intros [= _ <-]. Qed.

Lemma for_each_py_div (f : Q → Q * Q) (l : list Q) (s : Store) ys s' :
  for_each (fun x => py_div (f x).1 (f x).2) l s = Done (ys, s') → s' = s.
Proof.
  intros Hrun.
  eapply (for_each_Done _ eq (fun _ _ => True)) in Hrun as [-> _]; [done |].
  intros x s1 y s2 _ Hdiv. apply py_div_Done in Hdiv as ->. done.
Qed.

Lemma calculate_weighted_count_Done (s : Store) ws s' :
  _calculate_weighted_count s = Done (ws, s') → s' = s.
Proof.
  unfold _calculate_weighted_count. intros Hrun.
  apply bind_Done in Hrun as (fr & ? & H1 & Hrun). apply get_Done in H1 as [-> ->].
  apply bind_Done in Hrun as (c & ? & H1 & Hrun). apply get_Done in H1 as [-> ->].
  apply bind_Done in Hrun as (mx & s1 & H1 & Hrun). apply py_max_Done in H1 as (_ & -> & _).
  apply bind_Done in Hrun as (mn & s1 & H1 & Hrun).
  assert (s1 = s) as ->.
  { destruct (map _ _); [discriminate |]. cbn in H1. by injection H1 as _ <-. }
  clear H1.
  apply bind_Done in Hrun as (scaled & s1 & H1 & Hrun).
  eapply (for_each_Done _ eq (fun _ _ => True)) in H1 as [<- _];
    [| by intros x s2 y s3 _ ->%py_div_Done].
  apply bind_Done in Hrun as (w & s1 & H1 & Hrun).
  eapply (for_each_Done _ eq (fun _ _ => True)) in H1 as [<- _];
    [| by intros x s2 y s3 _ ->%py_div_Done].
  apply bind_Done in Hrun as (w' & s1 & H1 & Hrun).
  eapply (for_each_Done _ eq (fun _ _ => True)) in H1 as [<- _];
    [| by intros x s2 y s3 _ ->%py_div_Done].
  apply bind_Done in Hrun as (? & s1 & H1 & Hrun). apply py_assert_Done in H1 as [_ <-].
  by apply ret_Done in Hrun as [_ <-].
Qed.

Lemma search_vary_Done (fuel i : nat) (loc : Locals) s loc' s' :
  evaluated_inv self loc s →
  search_vary self fuel s = Done (loc', s') →
  search_inv self (S i) loc' s'
  ∧ ∃ parents mutated crossed tr,
      population loc' = parents ++ mutated ++ crossed
      ∧ length parents = parent_size self
      ∧ length mutated = mutation_size self
      ∧ length crossed = crossover_size self
      ∧ (∀ g, g ∈ parents → g ∈ pareto_population (pareto s))
      ∧ Forall (fun c => valid self c ∧ counts s !! gene_to_key c = None)
               (mutated ++ crossed)
      ∧ all_population s' = all_population s ++ mutated ++ crossed
      ∧ counts s' = counted (counts s) (population loc')
      ∧ pareto s' = pareto s
      ∧ all_params s' = all_params s
      ∧ trace s' = trace s ++ tr ∧ measured tr = [].
Proof.
  intros [Hsizes Hal Hpar (Hcpos & Hckey & Hspace) Hmem] Hrun.
  unfold search_vary in Hrun.
  apply bind_Done in Hrun as (ws & s1 & H1 & Hrun).
  apply calculate_weighted_count_Done in H1 as ->.
  apply bind_Done in Hrun as (fr & ? & H1 & Hrun). apply get_Done in H1 as [-> ->].
  apply bind_Done in Hrun as (sel & s1 & H1 & Hrun).
  apply np_random_choice_Done in H1 as [[Ha1 Ht1] Hsel].
  apply bind_Done in Hrun as (parents & ? & H1 & Hrun). apply gather_Done in H1 as [-> P1].
  apply bind_Done in Hrun as (pps & ? & H1 & Hrun). apply gather_Done in H1 as [-> P2].
  apply bind_Done in Hrun as (ptps & ? & H1 & Hrun). apply gather_Done in H1 as [-> P3].
  apply bind_Done in Hrun as (pls & ? & H1 & Hrun). apply gather_Done in H1 as [-> P4].
  apply bind_Done in Hrun as (pms & ? & H1 & Hrun). apply gather_Done in H1 as [-> P5].
  apply bind_Done in Hrun as (mutated & s2 & H1 & Hrun).
  apply mutation_loop_Done in H1 as ([Ha2 (tr2 & Ht2 & Hm2)] & Hlm & Hmut).
  apply bind_Done in Hrun as (crossed & s3 & H1 & Hrun).
  apply crossover_loop_Done in H1 as ([Ha3 (tr3 & Ht3 & Hm3)] & Hlc & Hcro).
  apply bind_Done in Hrun as (? & ? & H1 & Hrun). apply py_assert_Done in H1 as [_ <-].
  apply bind_Done in Hrun as (? & s4 & H1 & Hrun).
  rewrite update_population_count_run in H1. injection H1 as _ <-.
  apply bind_Done in Hrun as (? & s5 & H1 & Hrun). apply modify_Done in H1 as ->.
  apply ret_Done in Hrun as [<- <-]. cbn.
  assert (attrs s3 = attrs s) as Hattrs.
  { unfold same_attrs in *. congruence. }
  unfold attrs in Hattrs. injection Hattrs as E1 E2 E3 E4 E5 E6 E7.
  assert (counts s2 = counts s) as E7'.
  { unfold same_attrs, attrs in *. congruence. }
  assert (counts s1 = counts s) as E7''.
  { unfold same_attrs, attrs in *. congruence. }
  rewrite E7' in Hcro. rewrite E7'' in Hmut. rewrite ?E1, ?E2, ?E3, ?E4, ?E5, ?E6, ?E7.
  assert (length parents = parent_size self) as Hlp.
  { apply gathered_length in P1. congruence. }
  assert (∀ g, g ∈ parents → g ∈ pareto_population (pareto s)) as Hpin.
  { intros g Hg. by eapply gathered_elem. }
  destruct Hpar as (Q1 & Q2 & Q3 & Q4 & Q5).
  destruct Hal as (A1 & A2 & A3 & A4).
  assert (∀ g, g ∈ parents → g ∈ all_population s) as Hpall.
  { intros g Hg. eapply gathered_elem; [exact Q1 | by apply Hpin]. }
  assert (Forall in_space parents) as Hpspace.
  { apply Forall_forall. intros g Hg. rewrite Forall_forall in Hspace.
    by apply Hspace, Hpall. }
  split.
  - split; cbn; rewrite ?E1, ?E2, ?E3, ?E4, ?E5, ?E6, ?E7.
    + done.
    + rewrite !length_app. lia.
    + intros _. by exists parents, mutated, crossed.
    + exists (all_population s). rewrite <- Hlp, drop_app_length. done.
    + rewrite <- Hlp, take_app_length.
      rewrite (gathered_map_eq _ _ _ _ _ _ A1 Q1 Q2) in P2.
      rewrite (gathered_map_eq _ _ _ _ _ _ A2 Q1 Q3) in P3.
      rewrite (gathered_map_eq _ _ _ _ _ _ A3 Q1 Q4) in P4.
      rewrite (gathered_map_eq _ _ _ _ _ _ A4 Q1 Q5) in P5.
      rewrite (gathered_map _ _ _ _ _ P1 P2), (gathered_map _ _ _ _ _ P1 P3),
        (gathered_map _ _ _ _ _ P1 P4), (gathered_map _ _ _ _ _ P1 P5). done.
    + split; [by apply counted_positive |]. split.
      * intros g Hg. apply elem_of_app in Hg as [Hg | Hg].
        -- apply counted_keeps. by apply Hckey.
        -- apply counted_covers. apply elem_of_app. by right.
      * apply Forall_app. split; [done |]. apply Forall_app. split.
        -- eapply Forall_impl; [exact Hmut |]. intros c (_ & _ & Hc). by apply Hc.
        -- eapply Forall_impl; [exact Hcro |]. intros c (_ & _ & Hc). by apply Hc.
    + intros g Hg. apply elem_of_app in Hg as [Hg | Hg].
      * apply elem_of_app. left. by apply Hpall.
      * apply elem_of_app. by right.
  - exists parents, mutated, crossed, (tr2 ++ tr3).
    split; [done |]. split; [done |]. split; [done |]. split; [done |].
    split; [done |]. split.
    { apply Forall_app. split.
      - eapply Forall_impl; [exact Hmut |]. by intros c (? & ? & _).
      - eapply Forall_impl; [exact Hcro |]. by intros c (? & ? & _). }
    split; [done |]. split; [done |]. split; [done |]. split; [done |].
    split; [rewrite Ht3, Ht2, Ht1, app_assoc; done |].
    by rewrite measured_app, Hm2, Hm3.
Qed.

(** *** The constructor *)

Lemma bind_index_error_only {A B} (c : Py Store A) (k : A → Py Store B) s :
  index_error_only (c s) → (∀ a s1, index_error_only (k a s1)) →
  index_error_only (bind c k s).
Proof. unfold bind. destruct (c s) as [[a s1]| |]; auto. Qed.

Lemma for_each_index_error_only {A B} (f : A → Py Store B) (l : list A) s :
  (∀ x s1, index_error_only (f x s1)) → index_error_only (for_each f l s).
Proof.
  intros Hf. revert s. induction l as [|x l IH]; intros s; cbn; [done |].
  apply bind_index_error_only; [done |]. intros y s1.
  apply bind_index_error_only; [done |]. by intros ys s2.
Qed.

Lemma index_index_error_only {A} (l : list A) k (s : Store) :
  index_error_only (index l k s).
Proof. unfold index. by destruct (l !! k). Qed.

Lemma profile_model_run (g : Gene) (s : Store) :
  _profile_model g s = Done (tt, set_trace (trace s ++ measure_events g) s).
Proof.
  unfold _profile_model, bind, emit, modify, set_trace, measure_events. cbn.
  by rewrite <- !app_assoc.
Qed.

Lemma profile_index_error_only (s : Store) : index_error_only (_profile s).
Proof.
  unfold _profile.
  apply bind_index_error_only.
  { apply for_each_index_error_only. intros k s1.
    apply bind_index_error_only; [apply index_index_error_only |].
    intros a s2. by destruct (last a). }
  intros max_gene s1. apply bind_index_error_only; [by rewrite profile_model_run |].
  intros _ s2. apply bind_index_error_only.
  { apply for_each_index_error_only. intros k s3.
    apply bind_index_error_only; [apply index_index_error_only |].
    intros a s4. apply index_index_error_only. }
  intros min_gene s3. by rewrite profile_model_run.
Qed.

Lemma profile_Done (s : Store) u s' : _profile s = Done (u, s') → same_attrs s s'.
Proof.
  unfold _profile. intros Hrun.
  apply bind_Done in Hrun as (max_gene & s1 & H1 & Hrun).
  eapply (for_each_Done _ eq (fun _ _ => True)) in H1 as [<- _].
  2:{ intros k s2 v s3 _ Hk. apply bind_Done in Hk as (a & s4 & Ha & Hk).
      apply index_Done in Ha as [_ <-]. destruct (last a); [| discriminate].
      by apply ret_Done in Hk as [_ <-]. }
  apply bind_Done in Hrun as (? & s2 & H1 & Hrun).
  rewrite profile_model_run in H1. injection H1 as _ <-.
  apply bind_Done in Hrun as (min_gene & s3 & H1 & Hrun).
  eapply (for_each_Done _ eq (fun _ _ => True)) in H1 as [<- _].
  2:{ intros k s4 v s5 _ Hk. apply bind_Done in Hk as (a & s6 & Ha & Hk).
      apply index_Done in Ha as [_ <-]. by apply index_Done in Hk as [_ <-]. }
  rewrite profile_model_run in Hrun. by injection Hrun as _ <-.
Qed.

Lemma init_Done (s0 : Store) :
  __init__ self = Done s0 →
  population_size self = (parent_size self + mutation_size self + crossover_size self)%nat
  ∧ attrs s0 = attrs new_store.
Proof.
  unfold __init__, bind, py_assert.
  destruct (_ =? _)%nat eqn:Hsizes; cbn; [| discriminate].
  apply Nat.eqb_eq in Hsizes.
  destruct (_profile new_store) as [[u s]| |] eqn:Hp; [| discriminate | discriminate].
  intros [= <-]. split; [done |]. by apply profile_Done in Hp.
Qed.

Lemma init_AssertionError :
  __init__ self = Raise AssertionError ↔
  population_size self ≠ (parent_size self + mutation_size self + crossover_size self)%nat.
Proof.
  unfold __init__, bind, py_assert.
  destruct (_ =? _)%nat eqn:Hsizes; cbn.
  - apply Nat.eqb_eq in Hsizes. split; [| done].
    pose proof (profile_index_error_only new_store) as Hp.
    destruct (_profile new_store) as [[u s]| |]; cbn in Hp; [discriminate | | done].
    subst. discriminate.
  - apply Nat.eqb_neq in Hsizes. done.
Qed.

(** *** The invariant of the search *)

#[local] Instance grows_preorder : PreOrder grows.
Proof.
  split.
  - intros s. split; [reflexivity | auto].
  - intros s1 s2 s3 [Hp Hk] [Hp' Hk']. split; [by etrans | auto].
Qed.

Lemma search_init_Done (fuel : nat) (s0 : Store) loc s :
  population_size self = (parent_size self + mutation_size self + crossover_size self)%nat →
  attrs s0 = attrs new_store →
  search_init self fuel s0 = Done (loc, s) →
  search_inv self O loc s.
Proof.
  intros Hsizes Hfresh Hrun. unfold search_init in Hrun.
  apply bind_Done in Hrun as (pop & s1 & H1 & Hrun).
  apply sample_random_population_Done in H1 as ([Ha1 _] & Hlen & Hpop).
  apply bind_Done in Hrun as (? & s2 & H1 & Hrun). apply modify_Done in H1 as ->.
  apply bind_Done in Hrun as (? & s3 & H1 & Hrun).
  rewrite update_population_count_run in H1. injection H1 as _ <-.
  apply ret_Done in Hrun as [<- <-].
  assert (attrs s1 = attrs new_store) as Hattrs.
  { unfold same_attrs in Ha1. congruence. }
  unfold attrs, new_store in Hattrs. cbn in Hattrs.
  injection Hattrs as E1 E2 E3 E4 E5 E6 E7.
  split; cbn; rewrite ?E1, ?E2, ?E3, ?E4, ?E5, ?E6, ?E7.
  - done.
  - done.
  - done.
  - by exists [].
  - done.
  - split; [| split].
    + apply counted_positive. intros k v Hk. by rewrite lookup_empty in Hk.
    + intros g Hg. by apply counted_covers.
    + eapply Forall_impl; [exact Hpop |]. by intros g [_ ?].
  - done.
Qed.

Lemma search_iteration_Done (fuel i : nat) (loc : Locals) s loc' s' :
  search_inv self i loc s →
  search_iteration self fuel i loc s = Done (loc', s') →
  search_inv self (S i) loc' s' ∧ grows s s'.
Proof.
  intros Hinv Hrun. unfold search_iteration in Hrun.
  apply bind_Done in Hrun as (r & s1 & H1 & Hrun).
  apply (search_evaluate_Done _ _ _ _ _ Hinv) in H1
    as (Hev & Ep & Ec & _).
  apply (search_vary_Done fuel i _ _ _ _ Hev) in Hrun
    as (Hinv' & parents & mutated & crossed & tr & Hpop & _ & _ & _ & _ & _
        & Hall & Hcounts & _).
  split; [done |]. split.
  - rewrite Hall, Ep. by apply prefix_app_r.
  - intros k Hk. rewrite Hcounts, Ec. by apply counted_keeps.
Qed.

Lemma search_loop_Done (fuel n i : nat) (loc : Locals) s loc' s' :
  search_inv self i loc s →
  search_loop self fuel i n loc s = Done (loc', s') →
  search_inv self (i + n) loc' s' ∧ grows s s'.
Proof.
  revert i loc s. induction n as [|n IH]; intros i loc s Hinv Hrun; cbn in Hrun.
  - apply ret_Done in Hrun as [<- <-]. rewrite Nat.add_0_r. split; [done | reflexivity].
  - apply bind_Done in Hrun as (loc1 & s1 & H1 & Hrun).
    apply (search_iteration_Done _ _ _ _ _ _ Hinv) in H1 as [Hinv1 Hg1].
    apply (IH _ _ _ Hinv1) in Hrun as [Hinv' Hg'].
    rewrite Nat.add_succ_r. split; [done | by etrans].
Qed.

Lemma search_loop_snoc (fuel n i : nat) (loc : Locals) (s : Store) :
  search_loop self fuel i (S n) loc s
  = bind (search_loop self fuel i n loc) (search_iteration self fuel (i + n)) s.
Proof.
  revert i loc s. induction n as [|n IH]; intros i loc s.
  - cbn. unfold bind, ret. rewrite Nat.add_0_r.
    by destruct (search_iteration self fuel i loc s) as [[? ?]| |].
  - change (search_loop self fuel i (S (S n)) loc s)
      with (bind (search_iteration self fuel i loc)
                 (search_loop self fuel (S i) (S n)) s).
    change (search_loop self fuel i (S n) loc)
      with (bind (search_iteration self fuel i loc) (search_loop self fuel (S i) n)).
    rewrite bind_assoc. apply bind_ext. intros loc1 s1.
    rewrite IH. by rewrite Nat.add_succ_r.
Qed.

Lemma search_upto_S (fuel n : nat) (s0 : Store) :
  search_upto self fuel (S n) s0
  = bind (search_upto self fuel n) (search_iteration self fuel n) s0.
Proof.
  unfold search_upto, bind.
  destruct (search_init self fuel s0) as [[loc s]| |]; [| done | done].
  rewrite search_loop_snoc. reflexivity.
Qed.

Lemma search_upto_inv (fuel n : nat) (s0 : Store) loc s :
  __init__ self = Done s0 →
  search_upto self fuel n s0 = Done (loc, s) →
  search_inv self n loc s.
Proof.
  intros Hinit Hrun. apply init_Done in Hinit as [Hsizes Hfresh].
  unfold search_upto in Hrun.
  apply bind_Done in Hrun as (loc0 & s1 & H1 & Hrun).
  apply (search_init_Done _ _ _ _ Hsizes Hfresh) in H1.
  by apply (search_loop_Done _ _ _ _ _ _ _ H1) in Hrun as [Hinv _].
Qed.

(** The run up to generation [i] goes through every earlier generation,
    and the store has grown since. *)
Lemma search_upto_earlier (fuel i j : nat) (s0 : Store) loc s :
  __init__ self = Done s0 →
  (j ≤ i)%nat →
  search_upto self fuel i s0 = Done (loc, s) →
  ∃ locj sj, search_upto self fuel j s0 = Done (locj, sj)
             ∧ search_inv self j locj sj ∧ grows sj s.
Proof.
  intros Hinit. revert loc s. induction i as [|i IH]; intros loc s Hle Hrun.
  - assert (j = O) as -> by lia. exists loc, s.
    split; [done |]. split; [by eapply search_upto_inv | reflexivity].
  - destruct (decide (j = S i)) as [-> | Hne].
    { exists loc, s. split; [done |]. split; [by eapply search_upto_inv | reflexivity]. }
    rewrite search_upto_S in Hrun.
    apply bind_Done in Hrun as (loc1 & s1 & H1 & Hrun).
    destruct (IH loc1 s1) as (locj & sj & Hj & Hinvj & Hg); [lia | done |].
    exists locj, sj. split; [done |]. split; [done |]. etrans; [exact Hg |].
    eapply search_iteration_Done; [| exact Hrun]. by eapply search_upto_inv.
Qed.

(** ** The claims *)

(** C1. In every generation of a run, the frontier is computed anew from the
    whole history: when the first part of generation [i] is done, the
    history holds every gene of every population so far, each with its
    own measures at the same index, and [self.pareto] is what
    [find_pareto_points], asked for a decreasing frontier, selects among
    the rows (max(all_params) - params, latency, memory) of the whole
    history. *)
Theorem pareto_front_from_whole_history (fuel i : nat) (s0 : Store) loc s r s' :
  __init__ self = Done s0 →
  search_upto self fuel i s0 = Done (loc, s) →
  search_evaluate self i loc s = Done (r, s') →
  aligned s'
  ∧ pareto_of_history s'
  ∧ (∀ j locj sj, (j ≤ i)%nat → search_upto self fuel j s0 = Done (locj, sj) →
                  ∀ g, g ∈ population locj → g ∈ all_population s').
Proof.
  intros Hinit Hupto Hev.
  pose proof (search_upto_inv _ _ _ _ _ Hinit Hupto) as Hinv.
  apply (search_evaluate_Done _ _ _ _ _ Hinv) in Hev as ([_ Hal Hpar _ _] & Ep & _).
  split; [done |]. split; [done |].
  intros j locj sj Hj Hrunj g Hg.
  destruct (search_upto_earlier _ _ _ _ _ _ Hinit Hj Hupto)
    as (locj' & sj' & Hrunj' & Hinvj & [Hpre _]).
  rewrite Hrunj in Hrunj'. injection Hrunj' as <- <-.
  rewrite Ep. eapply elem_of_prefix; [| exact Hpre]. by apply (inv_members _ _ _ _ Hinvj).
Qed.

(** C3. Generation 0 measures the whole population; a later generation
    measures only [population[parent_size:]], the mutation_size +
    crossover_size children.  The calls made to the measurement routines
    are exactly the five calls of each of these genes, in their order:
    no other gene is loaded, and no parameters, latency or memory of a
    parent are measured again.  The measures of the first parent_size
    genes are the ones carried over in [parents_*] from the previous
    generation (and they are the measures of these genes), and only the
    new measures are appended to the history. *)
Theorem only_new_children_are_measured (fuel i : nat) (s0 : Store) loc s r s' :
  __init__ self = Done s0 →
  search_upto self fuel i s0 = Done (loc, s) →
  search_evaluate self i loc s = Done (r, s') →
  let unseen := drop (unseen_from self i) (population loc) in
  (i = O → unseen = population loc ∧ length unseen = population_size self)
  ∧ (i ≠ O → unseen = drop (parent_size self) (population loc)
             ∧ length unseen = (mutation_size self + crossover_size self)%nat)
  ∧ (∃ tr, trace s' = trace s ++ tr
           ∧ tr = concat (map measure_events unseen)
           ∧ measured tr = unseen)
  ∧ r = (parents_params loc ++ map measure_parameters_non_embedding unseen,
         parents_total_params loc ++ map measure_parameters_total unseen,
         parents_latencies loc ++ map measure_inference_latency unseen,
         parents_memories loc ++ map measure_peak_memory unseen)
  ∧ r = (map measure_parameters_non_embedding (population loc),
         map measure_parameters_total (population loc),
         map measure_inference_latency (population loc),
         map measure_peak_memory (population loc))
  ∧ all_params s' = all_params s ++ map measure_parameters_non_embedding unseen
  ∧ all_total_params s' = all_total_params s ++ map measure_parameters_total unseen
  ∧ all_latencies s' = all_latencies s ++ map measure_inference_latency unseen
  ∧ all_memories s' = all_memories s ++ map measure_peak_memory unseen.
Proof.
  intros Hinit Hupto Hev unseen.
  pose proof (search_upto_inv _ _ _ _ _ Hinit Hupto) as Hinv.
  apply (search_evaluate_Done _ _ _ _ _ Hinv) in Hev
    as (_ & _ & _ & Htr & E1 & E2 & E3 & E4 & Hr).
  fold unseen in Htr, E1, E2, E3, E4, Hr.
  destruct Hinv as [Hsizes Hlen Hshape _ (R1 & R2 & R3 & R4) _ _].
  split; [| split; [| split; [| split; [| split]]]].
  - intros ->. subst unseen. cbn. by rewrite drop_0.
  - intros Hi. subst unseen. unfold unseen_from.
    destruct (Nat.eqb_spec i 0) as [? | _]; [done |]. split; [done |].
    rewrite length_drop. lia.
  - exists (concat (map measure_events unseen)).
    split; [done |]. split; [done |]. apply measured_measure_events.
  - done.
  - rewrite Hr, R1, R2, R3, R4, <- !map_app. subst unseen.
    by rewrite take_drop.
  - done.
Qed.

(** C4, as amended.  In every generation the retry loops give exactly
    mutation_size mutated and crossover_size crossed genes; each of them
    passes the constraint filter and has a key that the counter did not
    hold when the generation started, so that it differs from the key of
    every gene of the populations of this and of all earlier generations.
    (Two children of the same generation are not compared with each
    other.) *)
Theorem children_are_valid_and_unseen (fuel i : nat) (s0 : Store) loc s loc' s' :
  __init__ self = Done s0 →
  search_upto self fuel i s0 = Done (loc, s) →
  search_iteration self fuel i loc s = Done (loc', s') →
  ∃ parents mutated crossed,
    population loc' = parents ++ mutated ++ crossed
    ∧ length parents = parent_size self
    ∧ length mutated = mutation_size self
    ∧ length crossed = crossover_size self
    ∧ ∀ c, c ∈ mutated ++ crossed →
           valid self c
           ∧ counts s !! gene_to_key c = None
           ∧ ∀ j locj sj, (j ≤ i)%nat → search_upto self fuel j s0 = Done (locj, sj) →
                          ∀ g, g ∈ population locj → gene_to_key c ≠ gene_to_key g.
Proof.
  intros Hinit Hupto Hrun.
  pose proof (search_upto_inv _ _ _ _ _ Hinit Hupto) as Hinv.
  unfold search_iteration in Hrun.
  apply bind_Done in Hrun as (r & s1 & Hev & Hrun).
  apply (search_evaluate_Done _ _ _ _ _ Hinv) in Hev as (Hev & _ & Ec & _).
  apply (search_vary_Done fuel i _ _ _ _ Hev) in Hrun
    as (_ & parents & mutated & crossed & tr & Hpop & Hlp & Hlm & Hlc & _ & Hnew & _).
  exists parents, mutated, crossed.
  split; [done |]. split; [done |]. split; [done |]. split; [done |].
  intros c Hc. rewrite Forall_forall in Hnew. destruct (Hnew c Hc) as [Hv Hk].
  rewrite Ec in Hk. split; [done |]. split; [done |].
  intros j locj sj Hj Hrunj g Hg Heq.
  destruct (search_upto_earlier _ _ _ _ _ _ Hinit Hj Hupto)
    as (locj' & sj' & Hrunj' & Hinvj & [_ Hkeys]).
  rewrite Hrunj in Hrunj'. injection Hrunj' as <- <-.
  destruct Hinvj as [_ _ _ _ _ (_ & Hcounted & _) Hmembers].
  specialize (Hkeys _ (Hcounted g (Hmembers g Hg))).
  rewrite <- Heq, Hk in Hkeys. by destruct Hkeys.
Qed.

(** C5, as amended.  When [sample_random_population(n)] returns, it
    returns exactly [n] genes, and each of them passes
    [_check_constraints] (and lies in the search space).  The genes are
    not compared with each other. *)
Theorem sample_random_population_valid (fuel n_samples : nat) s pop s' :
  sample_random_population self fuel n_samples s = Done (pop, s') →
  length pop = n_samples
  ∧ ∀ g, g ∈ pop →
         in_space g
         ∧ ∀ s1, ∃ s2, _check_constraints self g s1 = Done (true, s2).
Proof.
  intros Hrun. apply sample_random_population_Done in Hrun as (_ & Hlen & Hpop).
  split; [done |]. intros g Hg. rewrite Forall_forall in Hpop.
  destruct (Hpop g Hg) as [Hv Hspace]. split; [done |]. intros s1.
  destruct (check_constraints_run g s1) as (b & tr & Hrun & Hb & _).
  apply Hb in Hv as ->. eauto.
Qed.

(** C6. [_check_constraints] always returns, never raises; it returns True
    exactly when the analytical count of parameters lies between the two
    bounds and, if a bound on the latency is set, the measured latency
    does not exceed it; and the latency is measured only when the count
    of parameters lies between its bounds. *)
Theorem check_constraints_spec (gene : Gene) (s : Store) :
  ∃ b tr,
    _check_constraints self gene s = Done (b, set_trace (trace s ++ tr) s)
    ∧ (b = true ↔
       ((param_constraint_lower self <= formula_total gene)%Q
        ∧ (formula_total gene <= param_constraint_upper self)%Q)
       ∧ ∀ bound, latency_constraint_upper self = Some bound →
                  (measure_inference_latency gene <= bound)%Q)
    ∧ (MeasureInferenceLatency gene ∈ tr →
       (param_constraint_lower self <= formula_total gene)%Q
       ∧ (formula_total gene <= param_constraint_upper self)%Q).
Proof.
  destruct (check_constraints_run gene s) as (b & tr & Hrun & Hb & Hlat & _).
  by exists b, tr.
Qed.

(** C7. In every generation of a run with a frontier that is not empty,
    [_calculate_weighted_count] returns (no division by zero, no other
    exception) one weight for each point of the frontier; the weights are
    all positive and sum to 1. *)
Theorem weights_are_a_distribution (fuel i : nat) (s0 : Store) loc s r s' :
  __init__ self = Done s0 →
  search_upto self fuel i s0 = Done (loc, s) →
  search_evaluate self i loc s = Done (r, s') →
  pareto_population (pareto s') ≠ [] →
  ∃ ws, _calculate_weighted_count s' = Done (ws, s')
        ∧ length ws = length (pareto_population (pareto s'))
        ∧ Forall (fun w => (0 < w)%Q) ws
        ∧ (Qsum ws == 1)%Q.
Proof.
  intros Hinit Hupto Hev Hne.
  pose proof (search_upto_inv _ _ _ _ _ Hinit Hupto) as Hinv.
  apply (search_evaluate_Done _ _ _ _ _ Hinv) in Hev
    as ([_ _ (Hg & _) (Hpos & Hkeys & _) _] & _).
  apply weighted_count_run; [done |].
  intros g Hin. apply counts_positive_count_of; [done |].
  apply Hkeys. by eapply gathered_elem.
Qed.


(** C9. Every gene of the population of every generation, and every gene
    of the history, has at each position a value allowed at that
    position; for a random sample draws each position among its allowed
    values, a mutation keeps the value of the parent or draws an allowed
    one, and a crossover takes the value of one of the two parents. *)
Theorem genes_stay_in_search_space (fuel i : nat) (s0 : Store) loc s :
  __init__ self = Done s0 →
  search_upto self fuel i s0 = Done (loc, s) →
  Forall in_space (population loc)
  ∧ Forall in_space (all_population s)
  ∧ (∀ s1 c s2, sample_gene s1 = Done (c, s2) → in_space c)
  ∧ (∀ parent s1 c s2,
        in_space parent → _mutation self parent s1 = Done (c, s2) → in_space c)
  ∧ (∀ p q s1 c s2,
        in_space p → in_space q → _crossover self [p; q] s1 = Done (c, s2) → in_space c).
Proof.
  intros Hinit Hupto.
  destruct (search_upto_inv _ _ _ _ _ Hinit Hupto) as [_ _ _ _ _ (_ & _ & Hsp) Hmem].
  split; [| split; [done |]].
  - apply Forall_forall. intros g Hg. rewrite Forall_forall in Hsp. by apply Hsp, Hmem.
  - split; [| split].
    + intros s1 c s2 Hrun. by apply sample_gene_Done in Hrun as [_ ?].
    + intros parent s1 c s2 Hp Hrun. by eapply mutation_in_space.
    + intros p q s1 c s2 Hp Hq Hrun. eapply crossover_in_space; [| exact Hrun].
      by repeat constructor.
Qed.

(** C10. The crossover of a gene with itself is this gene, whatever
    crossover_prob and the draws are. *)
Theorem crossover_with_itself (gene : Gene) (s : Store) :
  length gene = gene_size →
  _crossover self [gene; gene] s = Done (gene, set_np_pos (np_pos s + gene_size) s).
Proof.
  intros Hlen. unfold _crossover.
  rewrite (for_each_copy _ gene); [by rewrite drop_0, <- Hlen, firstn_all | | lia].
  intros k v s1 Hv. unfold bind at 1. unfold np_random_uniform.
  destruct (Qltb _ _); apply bind_Done; eexists gene, _;
    (split; [by apply index_Done | by apply index_Done]).
Qed.

End Properties.

(** ** The claims on the small search space *)

Section Runs.
#[local] Existing Instance grid_converter.
#[local] Existing Instance grid_evaluator.
#[local] Existing Instance spec_front.

Lemma pareto_front_from_whole_history_witness :
  aligned run_eval2.2
  ∧ pareto_of_history run_eval2.2
  ∧ (∀ j locj sj,
        (j ≤ 2)%nat →
        search_upto (gen := run_draws) run_args 10 j run_store0 = Done (locj, sj) →
        ∀ g, g ∈ population locj → g ∈ all_population run_eval2.2).
Proof.
  apply (pareto_front_from_whole_history (gen := run_draws) run_args 10 2 run_store0
           run_gen2.1 run_gen2.2 run_eval2.1 run_eval2.2);
    vm_compute; reflexivity.
Defined.

Lemma only_new_children_are_measured_witness :
  let unseen := drop 2 (population run_gen2.1) in
  unseen = [[2; 0]; [1; 2]]
  ∧ (∃ tr, trace run_eval2.2 = trace run_gen2.2 ++ tr
           ∧ tr = concat (map measure_events unseen)
           ∧ measured tr = unseen)
  ∧ run_eval2.1 = (parents_params run_gen2.1 ++ [20; 20],
                   parents_total_params run_gen2.1 ++ [120; 120],
                   parents_latencies run_gen2.1 ++ [inject_Z 3; inject_Z 2],
                   parents_memories run_gen2.1 ++ [inject_Z 1; inject_Z 3])
  ∧ all_params run_eval2.2 = all_params run_gen2.2 ++ [20; 20].
Proof.
  assert (__init__ run_args = Done run_store0) as Hinit by (vm_compute; reflexivity).
  assert (search_upto (gen := run_draws) run_args 10 2 run_store0
          = Done (run_gen2.1, run_gen2.2)) as Hrun by (vm_compute; reflexivity).
  assert (search_evaluate run_args 2 run_gen2.1 run_gen2.2
          = Done (run_eval2.1, run_eval2.2)) as Hev by (vm_compute; reflexivity).
  destruct (only_new_children_are_measured (gen := run_draws) run_args 10 2 run_store0
              run_gen2.1 run_gen2.2 run_eval2.1 run_eval2.2 Hinit Hrun Hev)
    as (_ & _ & Htr & Hr & _ & Hall & _).
  split; [reflexivity |]. split; [exact Htr |]. split; [exact Hr | exact Hall].
Defined.

Lemma children_are_valid_and_unseen_witness :
  ∃ parents mutated crossed,
    population run_gen2.1 = parents ++ mutated ++ crossed
    ∧ length parents = 2%nat ∧ length mutated = 1%nat ∧ length crossed = 1%nat
    ∧ ∀ c, c ∈ mutated ++ crossed →
           valid run_args c
           ∧ counts run_gen1.2 !! gene_to_key c = None
           ∧ ∀ j locj sj,
               (j ≤ 1)%nat →
               search_upto (gen := run_draws) run_args 10 j run_store0 = Done (locj, sj) →
               ∀ g, g ∈ population locj → gene_to_key c ≠ gene_to_key g.
Proof.
  apply (children_are_valid_and_unseen (gen := run_draws) run_args 10 1 run_store0
           run_gen1.1 run_gen1.2 run_gen2.1 run_gen2.2);
    vm_compute; reflexivity.
Defined.

Lemma sample_random_population_valid_witness :
  length [[0; 0]; [0; 0]] = 2%nat
  ∧ ∀ g, g ∈ [[0; 0]; [0; 0]] →
         in_space g
         ∧ ∀ s1, ∃ s2, _check_constraints run_args g s1 = Done (true, s2).
Proof.
  eapply (sample_random_population_valid (gen := zero_draws) run_args 5 2 new_store).
  vm_compute. reflexivity.
Defined.

Lemma weights_are_a_distribution_witness :
  ∃ ws, _calculate_weighted_count run_eval2.2 = Done (ws, run_eval2.2)
        ∧ length ws = length (pareto_population (pareto run_eval2.2))
        ∧ Forall (fun w => (0 < w)%Q) ws
        ∧ (Qsum ws == 1)%Q.
Proof.
  apply (weights_are_a_distribution (gen := run_draws) run_args 10 2 run_store0
           run_gen2.1 run_gen2.2 run_eval2.1 run_eval2.2);
    vm_compute; (reflexivity || discriminate).
Defined.


Lemma genes_stay_in_search_space_witness :
  Forall in_space (population run_gen2.1) ∧ Forall in_space (all_population run_gen2.2).
Proof.
  assert (__init__ run_args = Done run_store0) as Hinit by (vm_compute; reflexivity).
  assert (search_upto (gen := run_draws) run_args 10 2 run_store0
          = Done (run_gen2.1, run_gen2.2)) as Hrun by (vm_compute; reflexivity).
  destruct (genes_stay_in_search_space (gen := run_draws) run_args 10 2 run_store0
              run_gen2.1 run_gen2.2 Hinit Hrun) as (Hpop & Hall & _).
  split; [exact Hpop | exact Hall].
Defined.

Lemma crossover_with_itself_witness :
  _crossover (gen := run_draws) run_args [[1; 2]; [1; 2]] new_store
  = Done ([1; 2], set_np_pos 2 new_store).
Proof.
  refine (crossover_with_itself (gen := run_draws) run_args [1; 2] new_store _).
  reflexivity.
Defined.

(** C4 as stated fails: with one parent and a quota of two mutated genes,
    the same draws give the same child twice; the key of the first child
    is not yet in the counter when the second one is checked, and both
    are accepted into the population. *)
Lemma two_children_share_a_key :
  __init__ twins_args = Done run_store0
  ∧ search_upto (gen := twins_draws) twins_args 5 0 run_store0
    = Done (twins_start.1, twins_start.2)
  ∧ search_iteration (gen := twins_draws) twins_args 5 0 twins_start.1 twins_start.2
    = Done (twins_gen1.1, twins_gen1.2)
  ∧ ∃ first second,
      drop (parent_size twins_args) (population twins_gen1.1) = [first; second]
      ∧ gene_to_key second = gene_to_key first.
Proof.
  split; [vm_compute; reflexivity |]. split; [vm_compute; reflexivity |].
  split; [vm_compute; reflexivity |]. by exists [2; 0], [2; 0].
Qed.

(** C5 as stated fails: [sample_random_population(2)] returns the same gene
    twice when the draws repeat. *)
Lemma sample_random_population_repeats_a_gene :
  ∃ s', sample_random_population (gen := zero_draws) run_args 5 2 new_store
        = Done ([[0; 0]; [0; 0]], s')
        ∧ ¬ NoDup [[0; 0]; [0; 0]].
Proof.
  eexists. split; [vm_compute; reflexivity |].
  intros Hnodup. apply NoDup_cons in Hnodup as [Hnotin _].
  apply Hnotin. by left.
Qed.

End Runs.


(** ** Further properties of the code *)

Section Further.
Context {conv : Converter} {evaluator : Evaluator} {front : ParetoFront}
        {gen : Generators}.
Context (self : Args).

#[local] Existing Instance same_attrs_preorder.
#[local] Existing Instance quiet_preorder.
#[local] Existing Instance unmeasured_preorder.
#[local] Existing Instance grows_preorder.

(** *** Loops over the positions of a gene *)

Lemma bind_step {S A B} (c : Py S A) (k : A → Py S B) (s : S) :
  bind c k s
  = match c s with
    | Done (a, s') => k a s'
    | Raise e => Raise e
    | OutOfFuel => OutOfFuel
    end.
Proof. reflexivity. Qed.

(** [[f(l[k]) for k in range(len(l))]] is [[f(a) for a in l]]. *)
Lemma for_each_range {A B} (l : list A) (f : A → Py Store B) (s : Store) :
  for_each (fun k => let* a := index l k in f a) (seq 0 (length l)) s = for_each f l s.
Proof.
  assert (∀ pre s,
             for_each (fun k => let* a := index (pre ++ l) k in f a)
                      (seq (length pre) (length l)) s
             = for_each f l s) as Hgen.
  { clear s. induction l as [|a l IH]; intros pre s; [reflexivity |].
    cbn [length seq for_each]. rewrite (bind_step (f a)), bind_step, bind_step.
    unfold index at 1.
    rewrite lookup_app_r by lia. rewrite Nat.sub_diag. cbn [lookup list_lookup].
    unfold ret at 1.
    destruct (f a s) as [[b s1]| |]; [| done | done].
    specialize (IH (pre ++ [a]) s1).
    rewrite length_app, <- app_assoc in IH. cbn [length app] in IH.
    rewrite Nat.add_1_r in IH. rewrite !bind_step. by rewrite IH. }
  apply (Hgen [] s).
Qed.

(** A loop whose calls only read: the result is the one of [mapM]. *)
Lemma for_each_mapM {A B} (g : A → option B) (e : exn) (f : A → Py Store B) (l : list A) s :
  (∀ a s1, f a s1 = match g a with Some v => Done (v, s1) | None => Raise e end) →
  for_each f l s = match mapM g l with Some vs => Done (vs, s) | None => Raise e end.
Proof.
  intros Hf. induction l as [|a l IH]; [reflexivity |].
  cbn [for_each]. unfold bind at 1. rewrite Hf. cbn [mapM].
  destruct (g a) as [v|]; cbn; [| reflexivity].
  unfold bind. rewrite IH. by destruct (mapM g l).
Qed.

(** *** Evolution._profile and Evolution.__init__ *)

Lemma profile_run (s : Store) :
  _profile s
  = match mapM last allowed_genes, mapM head allowed_genes with
    | Some max_gene, Some min_gene =>
        Done (tt, set_trace (trace s ++ measure_events max_gene ++ measure_events min_gene) s)
    | _, _ => Raise IndexError
    end.
Proof.
  unfold _profile, gene_size. unfold bind at 1.
  rewrite (for_each_range allowed_genes
             (fun a => match last a with Some v => ret v | None => raise IndexError end)).
  rewrite (for_each_mapM last IndexError) by (intros a s1; by destruct (last a)).
  destruct (mapM last allowed_genes) as [max_gene|] eqn:Hmax; [| reflexivity].
  unfold bind at 1. rewrite profile_model_run. unfold bind at 1.
  rewrite (for_each_range allowed_genes (fun a => index a 0)).
  rewrite (for_each_mapM head IndexError).
  2:{ intros a s1. unfold index. rewrite <- head_lookup. by destruct (head a). }
  destruct (mapM head allowed_genes) as [min_gene|] eqn:Hmin; [| reflexivity].
  rewrite profile_model_run. cbn. by rewrite <- app_assoc.
Qed.

Lemma mapM_last_head_nonempty (l : list (list Z)) :
  (Forall (fun a => a ≠ []) l ↔ is_Some (mapM last l))
  ∧ (Forall (fun a => a ≠ []) l ↔ is_Some (mapM head l)).
Proof.
  split; split.
  - intros HF. destruct (mapM last l) eqn:E; [done |].
    apply mapM_None in E. apply Exists_exists in E as (a & Ha & Hlast).
    rewrite Forall_forall in HF. apply last_None in Hlast. by apply HF in Ha.
  - intros [k Hk]. apply mapM_Some in Hk. apply Forall_forall. intros a Ha ->.
    apply list_elem_of_lookup in Ha as [i Hi].
    destruct (Forall2_lookup_l _ _ _ _ _ Hk Hi) as (v & _ & Hv). discriminate.
  - intros HF. destruct (mapM head l) eqn:E; [done |].
    apply mapM_None in E. apply Exists_exists in E as (a & Ha & Hhead).
    rewrite Forall_forall in HF. apply head_None in Hhead. by apply HF in Ha.
  - intros [k Hk]. apply mapM_Some in Hk. apply Forall_forall. intros a Ha ->.
    apply list_elem_of_lookup in Ha as [i Hi].
    destruct (Forall2_lookup_l _ _ _ _ _ Hk Hi) as (v & _ & Hv). discriminate.
Qed.

(** X1. [_profile] always ends; it returns exactly when every position
    of the search space has an allowed value, and raises IndexError, and
    nothing else, exactly when some position has none.  The constructor,
    which asserts the sizes first and profiles last, can therefore return
    only when the sizes add up and every position has an allowed
    value. *)
Theorem profile_outcome (s : Store) :
  ((∃ s', _profile s = Done (tt, s')) ↔ Forall (fun a => a ≠ []) allowed_genes)
  ∧ (_profile s = Raise IndexError ↔ Exists (fun a => a = []) allowed_genes)
  ∧ index_error_only (_profile s)
  ∧ (∀ s0, __init__ self = Done s0 →
           population_size self
           = (parent_size self + mutation_size self + crossover_size self)%nat
           ∧ Forall (fun a => a ≠ []) allowed_genes).
Proof.
  destruct (mapM_last_head_nonempty allowed_genes) as [Hlast Hhead].
  assert (∀ s1 : Store,
             match _profile s1 with
             | Done _ => Forall (fun a => a ≠ []) allowed_genes
             | Raise e => e = IndexError ∧ Exists (fun a => a = []) allowed_genes
             | OutOfFuel => False
             end) as Hcases.
  { intros s1. rewrite profile_run.
    destruct (mapM last allowed_genes) as [mx|] eqn:Emax.
    - assert (Forall (fun a => a ≠ []) allowed_genes) as Hne by (by apply Hlast).
      destruct (proj1 Hhead Hne) as [mn ->]. done.
    - split; [done |]. apply mapM_None in Emax.
      eapply Exists_impl; [exact Emax |]. intros a Ha. by apply last_None. }
  assert (Forall (fun a => a ≠ []) allowed_genes →
          ¬ Exists (fun a => a = []) allowed_genes) as Hexcl.
  { intros HF Hex. apply Exists_exists in Hex as (a & Ha & ->).
    rewrite Forall_forall in HF. by apply HF in Ha. }
  split; [| split; [| split]].
  - split.
    + intros [s' Hrun]. specialize (Hcases s). by rewrite Hrun in Hcases.
    + intros Hne. specialize (Hcases s).
      destruct (_profile s) as [[[] s']|e|]; [eauto | | done].
      destruct Hcases as [_ Hex]. by apply Hexcl in Hex.
  - split.
    + intros Hrun. specialize (Hcases s). rewrite Hrun in Hcases. by destruct Hcases.
    + intros Hex. specialize (Hcases s).
      destruct (_profile s) as [[[] s']|e|]; [| by destruct Hcases as [-> _] | done].
      by apply Hexcl in Hcases.
  - specialize (Hcases s). destruct (_profile s) as [r|e|]; [done | by destruct Hcases | done].
  - intros s0 Hinit. split; [by apply init_Done in Hinit as [? _] |].
    unfold __init__ in Hinit. rewrite bind_step in Hinit. unfold py_assert in Hinit.
    destruct (_ =? _)%nat; unfold ret, raise in Hinit; [| discriminate].
    specialize (Hcases new_store).
    destruct (_profile new_store) as [r|e|]; [done | discriminate | discriminate].
Qed.

(** X2. A constructed object has empty histories, an empty frontier and an
    empty counter, and its log holds the measurements of exactly two
    models: the gene of the last allowed value of every position, then the
    gene of the first allowed value of every position; both genes lie in
    the search space. *)
Theorem init_profiles_the_two_extreme_genes (s : Store) :
  __init__ self = Done s →
  ∃ max_gene min_gene,
    Forall2 (fun a v => last a = Some v) allowed_genes max_gene
    ∧ Forall2 (fun a v => head a = Some v) allowed_genes min_gene
    ∧ in_space max_gene ∧ in_space min_gene
    ∧ trace s = measure_events max_gene ++ measure_events min_gene
    ∧ measured (trace s) = [max_gene; min_gene]
    ∧ attrs s = attrs new_store.
Proof.
  unfold __init__. rewrite bind_step. unfold py_assert.
  destruct (_ =? _)%nat; unfold ret, raise; [rewrite profile_run | discriminate].
  destruct (mapM last allowed_genes) as [mx|] eqn:Emax; [| discriminate].
  destruct (mapM head allowed_genes) as [mn|] eqn:Emin; [| discriminate].
  intros [= <-]. apply mapM_Some in Emax, Emin. exists mx, mn.
  split; [done |]. split; [done |]. split; [| split; [| split; [done | split; [| done]]]].
  - apply Forall2_flip. eapply Forall2_impl; [exact Emax |].
    intros a v Hv. cbn. apply last_Some in Hv as [l' ->]. set_solver.
  - apply Forall2_flip. eapply Forall2_impl; [exact Emin |].
    intros a v Hv. cbn. destruct a; [discriminate |]. injection Hv as <-. by left.
  - apply (measured_measure_events [mx; mn]).
Qed.

(** *** Evolution._calculate_constraints *)


(** *** Evolution._update_pareto_front *)

Lemma gather_run {A} (l : list A) (inds : list nat) (s : Store) :
  for_each (index l) inds s
  = match mapM (fun i => l !! i) inds with
    | Some xs => Done (xs, s)
    | None => Raise IndexError
    end.
Proof.
  apply for_each_mapM. intros i s1. unfold index. by destruct (l !! i).
Qed.

Lemma gather_in_range {A} (l : list A) (inds : list nat) :
  Forall (fun i => (i < length l)%nat) inds ↔ is_Some (mapM (fun i => l !! i) inds).
Proof.
  split.
  - intros HF. destruct (mapM _ inds) eqn:E; [done |].
    apply mapM_None in E. apply Exists_exists in E as (i & Hi & Hnone).
    rewrite Forall_forall in HF. apply HF in Hi. apply lookup_ge_None in Hnone. lia.
  - intros [xs Hxs]. apply mapM_Some in Hxs. apply Forall_forall. intros i Hi.
    apply list_elem_of_lookup in Hi as [k Hk].
    destruct (Forall2_lookup_l _ _ _ _ _ Hxs Hk) as (x & _ & Hx).
    by apply lookup_lt_Some in Hx.
Qed.

(** X4. The frontier is computed anew by every call: what
    [_update_pareto_front] does, the exception it may raise included, does
    not depend on the frontier held before the call, and a second call
    right after the first changes nothing. *)
Theorem update_pareto_front_from_scratch (is_decreasing : bool) (p : Pareto) (s : Store) :
  _update_pareto_front is_decreasing (set_pareto p s) = _update_pareto_front is_decreasing s
  ∧ (do _update_pareto_front is_decreasing in _update_pareto_front is_decreasing) s
    = _update_pareto_front is_decreasing s.
Proof.
  split; [reflexivity |].
  rewrite bind_step.
  destruct (_update_pareto_front is_decreasing s) as [[[] s']| |] eqn:Hrun; [| done | done].
  pose proof Hrun as Hs'. apply update_pareto_front_Done in Hs' as (Hs' & _).
  replace (_update_pareto_front is_decreasing s')
    with (_update_pareto_front is_decreasing (set_pareto (pareto s') s))
    by (by rewrite <- Hs').
  exact Hrun.
Qed.

Lemma update_pareto_front_run (is_decreasing : bool) (s : Store) :
  let inds := find_pareto_points
                (frontier_points (all_params s) (all_latencies s) (all_memories s))
                is_decreasing in
  all_params s ≠ [] →
  length (all_population s) = length (all_params s) →
  length (all_total_params s) = length (all_params s) →
  length (all_latencies s) = length (all_params s) →
  length (all_memories s) = length (all_params s) →
  Forall (fun i => (i < length (all_params s))%nat) inds →
  ∃ s', _update_pareto_front is_decreasing s = Done (tt, s').
Proof.
  intros inds Hne L1 L2 L3 L4 HF.
  unfold _update_pareto_front.
  rewrite bind_step. unfold modify at 1. cbv beta iota.
  rewrite bind_step. unfold get at 1. cbv beta iota.
  cbn [all_params all_latencies all_memories all_population all_total_params set_pareto].
  rewrite bind_step.
  destruct (all_params s) as [|p0 ps] eqn:Eps; [done |].
  unfold py_max at 1, ret at 1. cbv beta iota.
  rewrite bind_step. unfold get at 1. cbv beta iota.
  rewrite bind_step. unfold get at 1. cbv beta iota.
  cbn [all_params all_latencies all_memories all_population all_total_params set_pareto].
  rewrite bind_step. unfold concatenate at 1.
  rewrite length_map, L3, L4, Nat.eqb_refl. cbn [andb]. unfold ret at 1. cbv beta iota.
  rewrite bind_step. unfold get at 1. cbv beta iota.
  rewrite bind_step. unfold get at 1. cbv beta iota.
  cbn [all_params all_latencies all_memories all_population all_total_params set_pareto].
  rewrite !length_zip_with, !length_map, L1, L2, L3, L4, !Nat.min_id.
  rewrite Nat.eqb_refl.
  do 5 (rewrite bind_step; unfold py_assert at 1, ret at 1; cbv beta iota).
  change (zip_with pair (zip_with pair (map (fun p => inject_Z (foldl Z.max p0 ps - p)) (p0 :: ps))
                           (all_latencies s)) (all_memories s))
    with (frontier_points (p0 :: ps) (all_latencies s) (all_memories s)).
  fold inds.
  assert (∀ {A} (l : list A), length l = length (p0 :: ps) →
                              is_Some (mapM (fun i => l !! i) inds)) as Hall.
  { intros A l Hl. apply gather_in_range. by rewrite Hl. }
  destruct (Hall _ (all_population s) L1) as [x1 E1].
  destruct (Hall _ (p0 :: ps) eq_refl) as [x2 E2].
  destruct (Hall _ (all_total_params s) L2) as [x3 E3].
  destruct (Hall _ (all_latencies s) L3) as [x4 E4].
  destruct (Hall _ (all_memories s) L4) as [x5 E5].
  rewrite bind_step, gather_run, E1. cbv beta iota.
  rewrite bind_step, gather_run, E2. cbv beta iota.
  rewrite bind_step, gather_run, E3. cbv beta iota.
  rewrite bind_step, gather_run, E4. cbv beta iota.
  rewrite bind_step, gather_run, E5. cbv beta iota.
  unfold modify. eauto.
Qed.

(** X5. [_update_pareto_front] succeeds exactly when the history of
    measures is not empty, the five histories have the same length and
    every index returned by [find_pareto_points] lies in the history; the
    five lists of the new frontier then have one entry per returned
    index.  On an empty history of decoder parameters it raises
    ValueError (the maximum of an empty list), whatever the rest of the
    state is. *)
Theorem update_pareto_front_outcome (is_decreasing : bool) (s : Store) :
  let inds := find_pareto_points
                (frontier_points (all_params s) (all_latencies s) (all_memories s))
                is_decreasing in
  ((∃ s', _update_pareto_front is_decreasing s = Done (tt, s')) ↔
   all_params s ≠ []
   ∧ length (all_population s) = length (all_params s)
   ∧ length (all_total_params s) = length (all_params s)
   ∧ length (all_latencies s) = length (all_params s)
   ∧ length (all_memories s) = length (all_params s)
   ∧ Forall (fun i => (i < length (all_params s))%nat) inds)
  ∧ (∀ s', _update_pareto_front is_decreasing s = Done (tt, s') →
           length (pareto_population (pareto s')) = length inds
           ∧ length (pareto_params (pareto s')) = length inds
           ∧ length (pareto_total_params (pareto s')) = length inds
           ∧ length (pareto_latencies (pareto s')) = length inds
           ∧ length (pareto_memories (pareto s')) = length inds)
  ∧ (all_params s = [] → _update_pareto_front is_decreasing s = Raise ValueError).
Proof.
  intros inds. split; [split |split].
  - intros [s' Hrun]. apply update_pareto_front_Done in Hrun
      as (_ & Hne & L1 & L2 & L3 & L4 & _ & G & _).
    do 5 (split; [done |]). fold inds in G.
    apply Forall_forall. intros i Hi. apply list_elem_of_lookup in Hi as [k Hk].
    destruct (Forall2_lookup_l _ _ _ _ _ G Hk) as (x & _ & Hx).
    by apply lookup_lt_Some in Hx.
  - intros (Hne & L1 & L2 & L3 & L4 & HF). by apply update_pareto_front_run.
  - intros s' Hrun. apply update_pareto_front_Done in Hrun
      as (_ & _ & _ & _ & _ & _ & G1 & G2 & G3 & G4 & G5).
    fold inds in G1, G2, G3, G4, G5.
    apply gathered_length in G1, G2, G3, G4, G5. done.
  - intros Hnil. unfold _update_pareto_front.
    rewrite bind_step. unfold modify at 1. cbv beta iota.
    rewrite bind_step. unfold get at 1. cbv beta iota.
    cbn [all_params set_pareto]. rewrite Hnil. reflexivity.
Qed.

(** *** Evolution._calculate_weighted_count *)

Lemma counts_range_zero (cs : list Z) :
  cs ≠ [] → (counts_range cs = 0 ↔ ∀ c, c ∈ cs → c = 0).
Proof.
  intros Hne. destruct cs as [|c0 cs']; [done |]. unfold counts_range. cbn [max_of min_of].
  destruct (foldl_max_spec c0 cs') as [Hmx0 Hmx].
  destruct (foldl_min_spec c0 cs') as [[Hmn0 Hmn] _].
  destruct (Z.eqb_spec (foldl Z.max c0 cs') (foldl Z.min c0 cs')) as [E | E].
  - split.
    + intros Hz c Hc. apply elem_of_cons in Hc as [-> | Hc]; [lia |].
      specialize (Hmx c Hc). specialize (Hmn c Hc). lia.
    + intros Hall. specialize (Hall c0 (list_elem_of_here _ _)). lia.
  - split; [lia |]. intros Hall. exfalso. apply E.
    assert (∀ x, Forall (fun c => c = 0) cs' → x = 0 →
                 foldl Z.max x cs' = 0 ∧ foldl Z.min x cs' = 0) as Hfold.
    { clear. induction cs' as [|c cs' IH]; intros x HF Hx; [done |].
      apply Forall_cons in HF as [-> HF]. cbn. subst x. by apply IH. }
    destruct (Hfold c0) as [-> ->]; [| apply Hall; by left | done].
    apply Forall_forall. intros c Hc. apply Hall. by right.
Qed.

(** The scaled counts lie between 0 and 1 and follow the order of the
    counts. *)
Lemma scaled_counts_range (cs : list Z) (c : Z) :
  counts_range cs ≠ 0 → c ∈ cs →
  (0 <= inject_Z (c - min_of cs) / inject_Z (counts_range cs))%Q
  ∧ (inject_Z (c - min_of cs) / inject_Z (counts_range cs) <= 1)%Q.
Proof.
  intros Hr Hc. destruct cs as [|c0 cs']; [by apply elem_of_nil in Hc |].
  unfold counts_range in *. cbn [max_of min_of] in *.
  destruct (foldl_max_spec c0 cs') as [Hmx0 Hmx].
  destruct (foldl_min_spec c0 cs') as [[Hmn0 Hmn] _].
  set (mx := foldl Z.max c0 cs') in *. set (mn := foldl Z.min c0 cs') in *.
  assert (mn <= c <= mx) as Hb.
  { apply elem_of_cons in Hc as [-> | Hc]; [lia |].
    specialize (Hmx c Hc). specialize (Hmn c Hc). lia. }
  destruct (Z.eqb_spec mx mn) as [E | E].
  - replace (c - mn) with 0 by lia. unfold Qdiv. rewrite Qmult_0_l. split; lra.
  - assert (0 < inject_Z (mx - mn))%Q as Hpos.
    { change 0%Q with (inject_Z 0). rewrite <- Zlt_Qlt. lia. }
    split.
    + apply Qle_shift_div_l; [done |]. rewrite Qmult_0_l.
      change 0%Q with (inject_Z 0). rewrite <- Zle_Qle. lia.
    + apply Qle_shift_div_r; [done |]. rewrite Qmult_1_l. rewrite <- Zle_Qle. lia.
Qed.

Lemma scaled_counts_mono (cs : list Z) (c c' : Z) :
  counts_range cs ≠ 0 → c ∈ cs → c' ∈ cs → c <= c' →
  (inject_Z (c - min_of cs) / inject_Z (counts_range cs)
   <= inject_Z (c' - min_of cs) / inject_Z (counts_range cs))%Q.
Proof.
  intros Hr Hc Hc' Hle. destruct cs as [|c0 cs']; [by apply elem_of_nil in Hc |].
  unfold counts_range in *. cbn [max_of min_of] in *.
  destruct (foldl_max_spec c0 cs') as [Hmx0 Hmx].
  destruct (foldl_min_spec c0 cs') as [[Hmn0 Hmn] _].
  set (mx := foldl Z.max c0 cs') in *. set (mn := foldl Z.min c0 cs') in *.
  assert (∀ x, x ∈ c0 :: cs' → mn <= x <= mx) as Hb.
  { intros x Hx. apply elem_of_cons in Hx as [-> | Hx]; [lia |].
    specialize (Hmx x Hx). specialize (Hmn x Hx). lia. }
  destruct (Z.eqb_spec mx mn) as [E | E].
  - specialize (Hb c Hc) as Hb1. specialize (Hb c' Hc') as Hb2.
    replace (c - mn) with 0 by lia. replace (c' - mn) with 0 by lia. apply Qle_refl.
  - assert (0 < inject_Z (mx - mn))%Q as Hpos.
    { change 0%Q with (inject_Z 0). rewrite <- Zlt_Qlt. lia. }
    unfold Qdiv. apply Qmult_le_compat_r.
    + rewrite <- Zle_Qle. lia.
    + apply Qlt_le_weak. by apply Qinv_lt_0_compat.
Qed.

Lemma raw_weights_positive (cs : list Z) :
  counts_range cs ≠ 0 → Forall (fun w => (0 < w)%Q) (raw_weights cs).
Proof.
  intros Hr. apply Forall_forall. intros w Hw. unfold raw_weights in Hw.
  apply list_elem_of_fmap in Hw as (c & -> & Hc).
  destruct (scaled_counts_range cs c Hr Hc) as [H0 _].
  unfold Qdiv at 1. rewrite Qmult_1_l. apply Qinv_lt_0_compat. lra.
Qed.

(** What [_calculate_weighted_count] does, in every state. *)
Lemma weighted_count_outcome (s : Store) :
  let cs := map (count_of (counts s)) (pareto_population (pareto s)) in
  _calculate_weighted_count s
  = match cs with
    | [] => Raise ValueError
    | _ :: _ => if counts_range cs =? 0 then Raise ZeroDivisionError
                else Done (weights_of cs, s)
    end.
Proof.
  intros cs. unfold _calculate_weighted_count.
  rewrite bind_step. unfold get at 1. cbv beta iota.
  rewrite bind_step. unfold get at 1. cbv beta iota.
  fold cs. destruct cs as [|c0 cs'] eqn:Ecs; [reflexivity |].
  rewrite bind_step. unfold py_max at 1, ret at 1. cbv beta iota.
  rewrite bind_step. unfold py_min at 1, ret at 1. cbv beta iota.
  change (foldl Z.max c0 cs') with (max_of (c0 :: cs')).
  change (foldl Z.min c0 cs') with (min_of (c0 :: cs')).
  change (if max_of (c0 :: cs') =? min_of (c0 :: cs') then max_of (c0 :: cs')
          else max_of (c0 :: cs') - min_of (c0 :: cs'))
    with (counts_range (c0 :: cs')).
  set (l := c0 :: cs') in *.
  destruct (Z.eqb_spec (counts_range l) 0) as [Hr | Hr].
  - rewrite bind_step. unfold l at 3. cbn [for_each]. rewrite bind_step.
    rewrite Hr. unfold py_div. cbn. reflexivity.
  - assert (¬ (inject_Z (counts_range l) == 0)%Q) as Hr'.
    { intros E. apply Hr. apply inject_Z_injective. exact E. }
    rewrite bind_step.
    rewrite (for_each_pure _ (fun c => (inject_Z (c - min_of l) / inject_Z (counts_range l))%Q) l s).
    2:{ intros c _. by apply py_div_run. }
    cbv beta iota. rewrite bind_step.
    rewrite (for_each_pure _ (fun x : Q => (1 / (x + 1))%Q) _ s).
    2:{ intros x Hx. apply py_div_run. apply list_elem_of_fmap in Hx as (c & -> & Hc).
        destruct (scaled_counts_range l c Hr Hc) as [H0 _]. lra. }
    cbv beta iota. rewrite map_map. fold (raw_weights l).
    pose proof (raw_weights_positive l Hr) as Hpos.
    assert (0 < Qsum (raw_weights l))%Q as Htotal.
    { apply Qsum_pos; [| done]. unfold raw_weights, l. done. }
    rewrite bind_step.
    rewrite (for_each_pure _ (fun w => (w / Qsum (raw_weights l))%Q) _ s).
    2:{ intros w _. apply py_div_run. lra. }
    cbv beta iota. fold (weights_of l).
    rewrite bind_step. unfold py_assert.
    assert (length (weights_of l) = length (pareto_population (pareto s))) as ->.
    { unfold weights_of, raw_weights. rewrite !length_map, <- Ecs. unfold cs.
      by rewrite length_map. }
    rewrite Nat.eqb_refl. reflexivity.
Qed.

Lemma weights_of_distribution (cs : list Z) :
  cs ≠ [] → counts_range cs ≠ 0 →
  length (weights_of cs) = length cs
  ∧ Forall (fun w => (0 < w)%Q) (weights_of cs)
  ∧ (Qsum (weights_of cs) == 1)%Q.
Proof.
  intros Hne Hr. pose proof (raw_weights_positive cs Hr) as Hpos.
  assert (0 < Qsum (raw_weights cs))%Q as Htotal.
  { apply Qsum_pos; [| done]. unfold raw_weights. by destruct cs. }
  split; [| split].
  - unfold weights_of, raw_weights. by rewrite !length_map.
  - apply Forall_forall. intros w Hw. unfold weights_of in Hw.
    apply list_elem_of_fmap in Hw as (x & -> & Hx).
    rewrite Forall_forall in Hpos. specialize (Hpos x Hx).
    apply Qlt_shift_div_l; [done |]. by rewrite Qmult_0_l.
  - unfold weights_of. rewrite Qsum_div. unfold Qdiv. apply Qmult_inv_r. lra.
Qed.

(** X6. What [_calculate_weighted_count] does in every state: on an empty
    frontier it raises ValueError (the maximum of an empty list); on a
    frontier whose genes all have the count 0 it raises
    ZeroDivisionError; in every other state it returns, without changing
    the state, one weight per gene of the frontier, all positive and of
    sum 1. *)
Theorem weighted_count_outcome_cases (s : Store) :
  let front_genes := pareto_population (pareto s) in
  (front_genes = [] → _calculate_weighted_count s = Raise ValueError)
  ∧ (front_genes ≠ [] → (∀ g, g ∈ front_genes → count_of (counts s) g = 0) →
     _calculate_weighted_count s = Raise ZeroDivisionError)
  ∧ (∀ g, g ∈ front_genes → count_of (counts s) g ≠ 0 →
          ∃ ws, _calculate_weighted_count s = Done (ws, s)
                ∧ length ws = length front_genes
                ∧ Forall (fun w => (0 < w)%Q) ws
                ∧ (Qsum ws == 1)%Q).
Proof.
  intros front_genes. rewrite weighted_count_outcome. fold front_genes.
  set (cs := map (count_of (counts s)) front_genes).
  split; [| split].
  - intros E. unfold cs. by rewrite E.
  - intros Hne Hall.
    assert (cs ≠ []) as Hcs by (unfold cs; by destruct front_genes).
    destruct cs as [|c0 cs'] eqn:Ecs; [done |].
    assert (counts_range (c0 :: cs') = 0) as ->; [| reflexivity].
    apply counts_range_zero; [done |]. intros c Hc. rewrite <- Ecs in Hc.
    apply list_elem_of_fmap in Hc as (g & -> & Hg). by apply Hall.
  - intros g Hg Hcount.
    assert (count_of (counts s) g ∈ cs) as Hin by (by apply list_elem_of_fmap_2).
    assert (cs ≠ []) as Hcs by (intros E; rewrite E in Hin; by apply elem_of_nil in Hin).
    assert (counts_range cs ≠ 0) as Hr.
    { intros E. apply Hcount. by apply (proj1 (counts_range_zero cs Hcs) E). }
    destruct (weights_of_distribution cs Hcs Hr) as (Hlen & Hpos & Hsum).
    exists (weights_of cs). destruct cs as [|c0 cs'] eqn:Ecs; [done |].
    apply Z.eqb_neq in Hr. rewrite Hr.
    split; [reflexivity |]. split; [| done].
    rewrite Hlen, <- Ecs. unfold cs. by rewrite length_map.
Qed.

Lemma Qinv_le_antitone (x y : Q) : (0 < x)%Q → (x <= y)%Q → (/ y <= / x)%Q.
Proof.
  intros Hx Hxy. assert (0 < y)%Q as Hy by lra.
  apply Qle_shift_inv_l; [done |].
  apply Qle_trans with (/ y * y)%Q.
  - apply Qmult_le_l; [by apply Qinv_lt_0_compat | done].
  - rewrite Qmult_comm, Qmult_inv_r; [apply Qle_refl | lra].
Qed.

Lemma Qdiv_le_compat (a b t : Q) : (0 < t)%Q → (a <= b)%Q → (a / t <= b / t)%Q.
Proof.
  intros Ht Hab. unfold Qdiv. apply Qmult_le_compat_r; [done |].
  apply Qlt_le_weak. by apply Qinv_lt_0_compat.
Qed.

Lemma weights_of_order (cs : list Z) (i j : nat) (ci cj : Z) (wi wj : Q) :
  counts_range cs ≠ 0 →
  cs !! i = Some ci → cs !! j = Some cj →
  weights_of cs !! i = Some wi → weights_of cs !! j = Some wj →
  ci <= cj → (wj <= wi)%Q ∧ (wi <= 2 * wj)%Q.
Proof.
  intros Hr Hi Hj Hwi Hwj Hle.
  assert (ci ∈ cs) as Hci by (by eapply list_elem_of_lookup_2).
  assert (cj ∈ cs) as Hcj by (by eapply list_elem_of_lookup_2).
  assert (0 < Qsum (raw_weights cs))%Q as Htotal.
  { apply Qsum_pos; [| by apply raw_weights_positive].
    unfold raw_weights. destruct cs; [by apply elem_of_nil in Hci | done]. }
  unfold weights_of in Hwi, Hwj. set (T := Qsum (raw_weights cs)) in *.
  unfold raw_weights in Hwi, Hwj.
  rewrite !list_lookup_fmap, Hi in Hwi. rewrite !list_lookup_fmap, Hj in Hwj.
  cbn [fmap option_fmap option_map] in Hwi, Hwj.
  injection Hwi as <-. injection Hwj as <-.
  destruct (scaled_counts_range cs ci Hr Hci) as [Hi0 Hi1].
  destruct (scaled_counts_range cs cj Hr Hcj) as [Hj0 Hj1].
  pose proof (scaled_counts_mono cs ci cj Hr Hci Hcj Hle) as Hmono.
  set (xi := (inject_Z (ci - min_of cs) / inject_Z (counts_range cs))%Q) in *.
  set (xj := (inject_Z (cj - min_of cs) / inject_Z (counts_range cs))%Q) in *.
  assert (1 / (xi + 1) <= 1)%Q as Hri by (apply Qle_shift_div_r; lra).
  assert ((1 # 2) <= 1 / (xj + 1))%Q as Hrj by (apply Qle_shift_div_l; lra).
  assert (1 / (xj + 1) <= 1 / (xi + 1))%Q as Hrr.
  { unfold Qdiv. rewrite !Qmult_1_l. apply Qinv_le_antitone; lra. }
  split; [by apply Qdiv_le_compat |].
  apply Qle_trans with (1 / T)%Q; [by apply Qdiv_le_compat |].
  assert (2 * (1 / (xj + 1) / T) == (2 * (1 / (xj + 1))) / T)%Q as ->
    by (unfold Qdiv; ring).
  apply Qdiv_le_compat; [done | lra].
Qed.

(** X7. The weights follow the counts: of two genes of the frontier, the
    one that was in fewer populations gets the larger weight, genes with
    the same count get the same weight, and no gene gets more than twice
    the weight of another. *)
Theorem weights_follow_counts (s s' : Store) (ws : list Q) (i j : nat)
    (gi gj : Gene) (wi wj : Q) :
  _calculate_weighted_count s = Done (ws, s') →
  pareto_population (pareto s) !! i = Some gi →
  pareto_population (pareto s) !! j = Some gj →
  ws !! i = Some wi → ws !! j = Some wj →
  (count_of (counts s) gi <= count_of (counts s) gj → (wj <= wi)%Q)
  ∧ (count_of (counts s) gi = count_of (counts s) gj → (wi == wj)%Q)
  ∧ (wi <= 2 * wj)%Q.
Proof.
  intros Hrun Hgi Hgj Hwi Hwj. rewrite weighted_count_outcome in Hrun.
  set (cs := map (count_of (counts s)) (pareto_population (pareto s))) in *.
  assert (cs !! i = Some (count_of (counts s) gi)) as Hi.
  { unfold cs. by rewrite list_lookup_fmap, Hgi. }
  assert (cs !! j = Some (count_of (counts s) gj)) as Hj.
  { unfold cs. by rewrite list_lookup_fmap, Hgj. }
  assert (counts_range cs ≠ 0 ∧ ws = weights_of cs) as [Hr ->].
  { destruct cs as [|c0 cs']; [discriminate |].
    destruct (Z.eqb_spec (counts_range (c0 :: cs')) 0); [discriminate |].
    by injection Hrun as <- _. }
  split; [| split].
  - intros Hle. by destruct (weights_of_order cs i j _ _ wi wj Hr Hi Hj Hwi Hwj Hle).
  - intros Heq. apply Qle_antisym.
    + destruct (weights_of_order cs j i _ _ wj wi Hr Hj Hi Hwj Hwi) as [H _]; [lia | done].
    + destruct (weights_of_order cs i j _ _ wi wj Hr Hi Hj Hwi Hwj) as [H _]; [lia | done].
  - destruct (Z.le_ge_cases (count_of (counts s) gi) (count_of (counts s) gj)) as [Hle | Hge].
    + by destruct (weights_of_order cs i j _ _ wi wj Hr Hi Hj Hwi Hwj Hle).
    + destruct (weights_of_order cs j i _ _ wj wi Hr Hj Hi Hwj Hwi Hge) as [H1 _].
      destruct (weights_of_order cs j j _ _ wj wj Hr Hj Hj Hwj Hwj (Z.le_refl _)) as [_ H2].
      lra.
Qed.

(** *** Evolution._mutation and Evolution._crossover *)

(** X8. With crossover_prob at 1.0 or above, the child of a crossover is
    the first parent, cut to gene_size positions, whoever the second
    parent is (it may be missing or too short); with crossover_prob at 0.0
    or below it is the second parent, cut to gene_size positions.  This
    holds for every sequence of draws, of which gene_size are consumed. *)
Theorem crossover_at_the_extremes (p q : Gene) (rest : list Gene) (s : Store) :
  ((1 <= crossover_prob self)%Q → (gene_size ≤ length p)%nat →
   _crossover self (p :: rest) s
   = Done (take gene_size p, set_np_pos (np_pos s + gene_size) s))
  ∧ ((crossover_prob self <= 0)%Q → (gene_size ≤ length q)%nat →
     _crossover self (p :: q :: rest) s
     = Done (take gene_size q, set_np_pos (np_pos s + gene_size) s)).
Proof.
  split; intros Hprob Hlen; unfold _crossover.
  - rewrite (for_each_copy _ p); [by rewrite drop_0 | | lia].
    intros k v s1 Hv. rewrite bind_step. unfold np_random_uniform.
    destruct (unit_interval_range (np_raw (np_pos s1))) as [_ Hlt].
    assert (Qltb (unit_interval (np_raw (np_pos s1))) (crossover_prob self) = true) as ->.
    { apply Qltb_lt. lra. }
    apply bind_Done. eexists p, _. split; [reflexivity | by apply index_Done].
  - rewrite (for_each_copy _ q); [by rewrite drop_0 | | lia].
    intros k v s1 Hv. rewrite bind_step. unfold np_random_uniform.
    destruct (unit_interval_range (np_raw (np_pos s1))) as [Hge _].
    assert (Qltb (unit_interval (np_raw (np_pos s1))) (crossover_prob self) = false) as ->.
    { apply Qltb_ge. lra. }
    apply bind_Done. eexists q, _. split; [reflexivity | by apply index_Done].
Qed.

(** Every position of a child costs one draw of numpy's generator. *)
Lemma for_each_draws {A B} (f : A → Py Store B) (l : list A) :
  (∀ x s y s', f x s = Done (y, s') → np_pos s' = S (np_pos s)) →
  ∀ s ys s', for_each f l s = Done (ys, s') → np_pos s' = (np_pos s + length l)%nat.
Proof.
  intros Hf. induction l as [|x l IH]; intros s ys s' Hrun; cbn in Hrun.
  - apply ret_Done in Hrun as [_ <-]. cbn. lia.
  - apply bind_Done in Hrun as (y & s1 & Hy & Hrun).
    apply bind_Done in Hrun as (ys' & s2 & Hys & Hrun).
    apply ret_Done in Hrun as [_ <-].
    apply Hf in Hy. apply IH in Hys. cbn. lia.
Qed.

Lemma random_choices_index_error_only {A} (l : list A) (s : Store) :
  index_error_only (random_choices l s).
Proof.
  unfold random_choices. apply bind_index_error_only; [done |].
  intros u s1. apply index_index_error_only.
Qed.

(** X9. [_mutation] and [_crossover] never loop and raise nothing but
    IndexError (a parent shorter than gene_size, a missing parent, a
    position without allowed values).  When they return, the child has
    exactly gene_size positions, whatever the length of the parents,
    exactly gene_size numbers were drawn from numpy's generator, and
    neither the attributes nor the log of measurements have changed. *)
Theorem variation_shapes (gene : Gene) (genes : list Gene) (s : Store) :
  index_error_only (_mutation self gene s)
  ∧ index_error_only (_crossover self genes s)
  ∧ (∀ c s', _mutation self gene s = Done (c, s') →
             length c = gene_size ∧ np_pos s' = (np_pos s + gene_size)%nat ∧ quiet s s')
  ∧ (∀ c s', _crossover self genes s = Done (c, s') →
             length c = gene_size ∧ np_pos s' = (np_pos s + gene_size)%nat
             ∧ py_pos s' = py_pos s ∧ quiet s s').
Proof.
  split; [| split; [| split]].
  - unfold _mutation. apply for_each_index_error_only. intros k s1.
    apply bind_index_error_only; [done |]. intros u s2.
    destruct (Qltb u (mutation_prob self)).
    + apply bind_index_error_only; [apply index_index_error_only |].
      intros a s3. apply random_choices_index_error_only.
    + apply index_index_error_only.
  - unfold _crossover. apply for_each_index_error_only. intros k s1.
    apply bind_index_error_only; [done |]. intros u s2.
    destruct (Qltb u (crossover_prob self));
      (apply bind_index_error_only; [apply index_index_error_only |]);
      intros g s3; apply index_index_error_only.
  - intros c s' Hrun. split; [| split].
    + apply for_each_length in Hrun. by rewrite length_seq in Hrun.
    + unfold _mutation in Hrun. apply for_each_draws in Hrun.
      * by rewrite length_seq in Hrun.
      * intros k s1 v s2 Hk. apply bind_Done in Hk as (u & s3 & Hu & Hk).
        injection Hu as <- <-. destruct (Qltb _ _).
        -- apply bind_Done in Hk as (a & s4 & Ha & Hk). apply index_Done in Ha as [_ <-].
           apply bind_Done in Hk as (u' & s5 & Hu' & Hk). injection Hu' as <- <-.
           apply index_Done in Hk as [_ <-]. reflexivity.
        -- apply index_Done in Hk as [_ <-]. reflexivity.
    + by apply mutation_Done in Hrun as [Hq _].
  - intros c s' Hrun. split; [| split; [| split]].
    + apply for_each_length in Hrun. by rewrite length_seq in Hrun.
    + unfold _crossover in Hrun. apply for_each_draws in Hrun.
      * by rewrite length_seq in Hrun.
      * intros k s1 v s2 Hk. apply bind_Done in Hk as (u & s3 & Hu & Hk).
        injection Hu as <- <-.
        destruct (Qltb _ _); apply bind_Done in Hk as (g & s4 & Hg & Hk);
          apply index_Done in Hg as [_ <-]; apply index_Done in Hk as [_ <-]; reflexivity.
    + unfold _crossover in Hrun.
      assert (PreOrder (fun s1 s2 : Store => py_pos s2 = py_pos s1)) as Hpre.
      { split; [intros ?; reflexivity | intros ? ? ? ? ?; congruence]. }
      eapply (for_each_Done _ (fun s1 s2 => py_pos s2 = py_pos s1)) in Hrun as [Hp _];
        [exact Hp |].
      intros k s1 v s2 _ Hk. apply bind_Done in Hk as (u & s3 & Hu & Hk).
      injection Hu as <- <-.
      split; [| exact I].
      destruct (Qltb _ _); apply bind_Done in Hk as (g & s4 & Hg & Hk);
        apply index_Done in Hg as [_ <-]; apply index_Done in Hk as [_ <-]; reflexivity.
    + by apply crossover_Done in Hrun as [Hq _].
Qed.

(** *** The occurrence counter *)

Lemma occurrences_cons (k : Key) (g : Gene) (genes : list Gene) :
  occurrences k (g :: genes)
  = (if decide (gene_to_key g = k) then 1 else 0) + occurrences k genes.
Proof.
  unfold occurrences. rewrite filter_cons.
  destruct (decide (gene_to_key g = k)); cbn [length]; lia.
Qed.

Lemma counted_lookup (c : gmap Key Z) (genes : list Gene) (k : Key) :
  default 0 (counted c genes !! k) = default 0 (c !! k) + occurrences k genes
  ∧ (is_Some (counted c genes !! k) ↔
     is_Some (c !! k) ∨ ∃ g, g ∈ genes ∧ gene_to_key g = k).
Proof.
  revert c. induction genes as [|g genes IH]; intros c.
  - cbn. unfold occurrences. cbn. split; [lia |].
    split; [by left | intros [? | (g & Hg & _)]; [done | by apply elem_of_nil in Hg]].
  - change (counted c (g :: genes))
      with (counted (<[gene_to_key g := count_of c g + 1]> c) genes).
    destruct (IH (<[gene_to_key g := count_of c g + 1]> c)) as [IH1 IH2].
    rewrite IH1, IH2, occurrences_cons. unfold count_of.
    destruct (decide (gene_to_key g = k)) as [<- | Hne].
    + rewrite lookup_insert_eq. cbn. split; [lia |]. split.
      * intros _. right. exists g. split; [by left | done].
      * intros _. by left.
    + rewrite lookup_insert_ne by done. split; [lia |]. split.
      * intros [? | (g' & Hg' & Hk)]; [by left |]. right. exists g'. split; [by right | done].
      * intros [? | (g' & Hg' & Hk)]; [by left |].
        apply elem_of_cons in Hg' as [-> | Hg']; [done |]. right. by exists g'.
Qed.

(** X10. [_update_population_count] always returns and changes nothing but
    the counter.  Afterwards the count of every key is its count before
    plus the number of genes of the population that have this key (a key
    that the counter did not hold counts from 0); the keys of the counter
    are the keys it held and the keys of the genes of the population; and
    every gene of the population is reported as seen by
    [_is_seen_before], which does not change the state. *)
Theorem update_population_count_counts (population : list Gene) (s : Store) :
  ∃ s', _update_population_count population s = Done (tt, s')
        ∧ s' = set_counts (counts s') s
        ∧ (∀ k, default 0 (counts s' !! k)
                = default 0 (counts s !! k) + occurrences k population)
        ∧ (∀ k, is_Some (counts s' !! k) ↔
                is_Some (counts s !! k) ∨ ∃ g, g ∈ population ∧ gene_to_key g = k)
        ∧ (∀ g, g ∈ population → _is_seen_before g s' = Done (true, s')).
Proof.
  rewrite update_population_count_run. eexists. split; [reflexivity |].
  cbn [counts set_counts]. split; [reflexivity |].
  split; [| split].
  - intros k. apply counted_lookup.
  - intros k. apply counted_lookup.
  - intros g Hg. unfold _is_seen_before. rewrite bind_step. unfold get.
    cbn [counts set_counts].
    destruct (proj2 (proj2 (counted_lookup (counts s) population (gene_to_key g))))
      as [v ->]; [| reflexivity].
    right. by exists g.
Qed.

(** *** Totals of a run *)

Lemma total_count_insert (c : gmap Key Z) (k : Key) :
  total_count (<[k := default 0 (c !! k) + 1]> c) = total_count c + 1.
Proof.
  unfold total_count.
  assert (∀ z1 z2 y : Z, y + z2 + z1 = y + z1 + z2) as Hcomm by (intros; lia).
  destruct (c !! k) as [v|] eqn:Hk; cbn [default].
  - rewrite <- insert_delete_eq.
    rewrite map_fold_insert_L; [| intros; apply Hcomm | apply lookup_delete_eq].
    rewrite (map_fold_delete_L _ _ k v c); [unfold id; lia | intros; apply Hcomm | done].
  - rewrite map_fold_insert_L; [unfold id; lia | intros; apply Hcomm | done].
Qed.

Lemma total_count_counted (c : gmap Key Z) (genes : list Gene) :
  total_count (counted c genes) = total_count c + Z.of_nat (length genes).
Proof.
  revert c. induction genes as [|g genes IH]; intros c; [cbn; lia |].
  change (counted c (g :: genes))
    with (counted (<[gene_to_key g := count_of c g + 1]> c) genes).
  rewrite IH. unfold count_of. rewrite total_count_insert. cbn [length]. lia.
Qed.

Lemma search_upto_totals (fuel n : nat) (s0 : Store) loc s :
  __init__ self = Done s0 →
  search_upto self fuel n s0 = Done (loc, s) →
  total_count (counts s) = Z.of_nat (S n * population_size self)
  ∧ measured (trace s)
    = measured (trace s0) ++ take (length (all_params s)) (all_population s)
  ∧ length (all_population s)
    = (population_size self + n * (mutation_size self + crossover_size self))%nat.
Proof.
  intros Hinit. revert loc s. induction n as [|n IH]; intros loc s Hrun.
  - apply init_Done in Hinit as [Hsizes Hfresh].
    unfold search_upto in Hrun.
    apply bind_Done in Hrun as (loc0 & s1 & H1 & Hrun).
    cbn in Hrun. apply ret_Done in Hrun as [<- <-].
    unfold search_init in H1.
    apply bind_Done in H1 as (pop & s2 & H1 & Hrun).
    apply sample_random_population_Done in H1 as ([Ha1 (tr & Ht & Hm)] & Hlen & _).
    apply bind_Done in Hrun as (? & s3 & H1 & Hrun). apply modify_Done in H1 as ->.
    apply bind_Done in Hrun as (? & s4 & H1 & Hrun).
    rewrite update_population_count_run in H1. injection H1 as _ <-.
    apply ret_Done in Hrun as [_ <-].
    assert (attrs s2 = attrs new_store) as Hattrs.
    { unfold same_attrs in Ha1. congruence. }
    unfold attrs, new_store in Hattrs. cbn in Hattrs.
    injection Hattrs as E1 E2 E3 E4 E5 E6 E7.
    cbn. rewrite ?E3, ?E7. split; [| split].
    + rewrite total_count_counted. unfold total_count. rewrite map_fold_empty. lia.
    + rewrite Ht, measured_app, Hm. cbn. by rewrite take_0.
    + lia.
  - rewrite search_upto_S in Hrun.
    apply bind_Done in Hrun as (loc1 & s1 & H1 & Hrun).
    destruct (IH _ _ H1) as (Hcount & Hmeasured & Hlen).
    pose proof (search_upto_inv self _ _ _ _ _ Hinit H1) as Hinv.
    unfold search_iteration in Hrun.
    apply bind_Done in Hrun as (r & s2 & H2 & Hrun).
    apply (search_evaluate_Done self _ _ _ _ _ Hinv) in H2
      as (Hev & Ep & Ec & Et & Eps & _).
    apply (search_vary_Done self fuel n _ _ _ _ Hev) in Hrun
      as (Hinv' & parents & mutated & crossed & tr & Hpop & Lp & Lm & Lc & _ & _
          & Hall & Hcounts & _ & Hparams & Htr & Hm).
    destruct Hinv as [_ _ _ (old & Hold & Hops & _) _ _ _].
    destruct Hinv' as [_ Hlenpop _ _ _ _ _].
    split; [| split].
    + rewrite Hcounts, total_count_counted, Ec, Hcount, Hlenpop. lia.
    + rewrite Htr, measured_app, Hm, app_nil_r, Et, measured_app, measured_measure_events.
      rewrite Hmeasured, Hparams, Eps, Hall, Ep, Hold, Hops.
      rewrite length_app, !length_map, <- length_app, !take_app_length.
      by rewrite app_assoc.
    + rewrite Hall, Ep, !length_app, Hlen, Lm, Lc. lia.
Qed.

(** X11. When generation [n] of a run starts, the counts of the counter
    sum to (n + 1) * population_size: every population of the run,
    parents included, was counted once, gene by gene. *)
Theorem counter_sums_to_the_populations (fuel n : nat) (s0 : Store) loc s :
  __init__ self = Done s0 →
  search_upto self fuel n s0 = Done (loc, s) →
  total_count (counts s) = Z.of_nat ((n + 1) * population_size self).
Proof.
  intros Hinit Hrun.
  destruct (search_upto_totals _ _ _ _ _ Hinit Hrun) as (Hcount & _).
  rewrite Hcount. f_equal. lia.
Qed.


(** *** The retry loops of a generation *)

Lemma same_attrs_counts (s s' : Store) : same_attrs s s' → counts s' = counts s.
Proof. unfold same_attrs, attrs. congruence. Qed.

Lemma random_choices_run {A} (l : list A) (s : Store) :
  l ≠ [] →
  ∃ x, random_choices l s = Done (x, set_py_pos (S (py_pos s)) s) ∧ x ∈ l.
Proof.
  intros Hne. unfold random_choices. rewrite bind_step. unfold py_random. cbv beta iota.
  set (u := unit_interval (py_raw (py_pos s))).
  destruct (unit_interval_range (py_raw (py_pos s))) as [Hu0 Hu1]. fold u in Hu0, Hu1.
  set (n := Z.of_nat (length l)).
  assert (0 < n) as Hn by (destruct l; [done | cbn in n; lia]).
  assert (Qfloor (u * inject_Z n) < n) as Hfloor.
  { rewrite Zlt_Qlt. eapply Qle_lt_trans; [apply Qfloor_le |].
    assert (0 < inject_Z n)%Q as Hn'.
    { change 0%Q with (inject_Z 0). by rewrite <- Zlt_Qlt. }
    rewrite <- (Qmult_1_l (inject_Z n)) at 2. by apply Qmult_lt_compat_r. }
  destruct (lookup_lt_is_Some_2 l (Z.to_nat (Qfloor (u * inject_Z n)))) as [x Hx]; [lia |].
  exists x. split; [by apply index_Done | by eapply list_elem_of_lookup_2].
Qed.

Lemma random_sample2_run {A} (l : list A) (s : Store) :
  (2 ≤ length l)%nat →
  ∃ x y s', random_sample2 l s = Done ([x; y], s') ∧ x ∈ l ∧ y ∈ l ∧ quiet s s'.
Proof.
  intros Hlen.
  assert (∃ r s', random_sample2 l s = Done (r, s')) as (r & s' & Hrun).
  { unfold random_sample2. destruct (Nat.ltb_spec (length l) 2) as [? | _]; [lia |].
    set (n := length l) in *.
    set (j := Z.to_nat (py_raw (py_pos s) mod Z.of_nat n)).
    assert (j < n)%nat as Hj.
    { pose proof (Z.mod_pos_bound (py_raw (py_pos s)) (Z.of_nat n)). lia. }
    destruct (lookup_lt_is_Some_2 l j Hj) as [x Hx].
    destruct (lookup_lt_is_Some_2 l (n - 1)) as [m Hm]; [lia |].
    set (s1 := set_py_pos (S (py_pos s)) s).
    set (j' := Z.to_nat (py_raw (py_pos s1) mod Z.of_nat (n - 1))).
    assert (j' < n - 1)%nat as Hj'.
    { pose proof (Z.mod_pos_bound (py_raw (py_pos s1)) (Z.of_nat (n - 1))). lia. }
    destruct (lookup_lt_is_Some_2 (<[j := m]> l) j') as [y Hy].
    { rewrite length_insert. fold n. lia. }
    eexists _, _.
    apply bind_Done. exists j, s1. split; [reflexivity |].
    apply bind_Done. exists x, s1. split; [by apply index_Done |].
    apply bind_Done. exists m, s1. split; [by apply index_Done |].
    apply bind_Done. exists j', (set_py_pos (S (py_pos s1)) s1). split; [reflexivity |].
    apply bind_Done. exists y, (set_py_pos (S (py_pos s1)) s1).
    split; [by apply index_Done | reflexivity]. }
  pose proof Hrun as Hd. apply random_sample2_Done in Hd as (Ha & Ht & x & y & -> & Hx & Hy).
  exists x, y, s'. by repeat split.
Qed.

Lemma accept_run (gene : Gene) (s : Store) : ∃ b s', accept self gene s = Done (b, s').
Proof.
  destruct (check_constraints_run self gene s) as (b & tr & Hrun & _).
  unfold accept. rewrite bind_step, Hrun. destruct b; [| unfold ret; eauto].
  rewrite bind_step. unfold _is_seen_before. rewrite bind_step. unfold get.
  cbv beta iota. destruct (_ !! _); unfold ret; eauto.
Qed.

(** A gene that the counter holds is never accepted. *)
Lemma accept_seen (gene : Gene) (s : Store) :
  is_Some (counts s !! gene_to_key gene) →
  ∃ s', accept self gene s = Done (false, s') ∧ counts s' = counts s.
Proof.
  intros [v Hseen]. destruct (accept_run gene s) as (b & s' & Hrun).
  pose proof Hrun as Hd. apply accept_Done in Hd as ([Ha _] & Hb).
  exists s'. split; [| by apply same_attrs_counts].
  destruct b; [| done]. destruct (proj1 Hb eq_refl) as [_ Hnone]. congruence.
Qed.

Lemma crossover_of_one_gene (gene : Gene) (s : Store) :
  length gene = gene_size →
  _crossover self [gene; gene] s = Done (gene, set_np_pos (np_pos s + gene_size) s).
Proof.
  intros Hlen. unfold _crossover.
  rewrite (for_each_copy _ gene); [by rewrite drop_0, <- Hlen, firstn_all | | lia].
  intros k v s1 Hv. rewrite bind_step. unfold np_random_uniform.
  destruct (Qltb _ _); apply bind_Done; eexists gene, _;
    (split; [by apply index_Done | by apply index_Done]).
Qed.

Lemma mutation_copies (gene : Gene) (s : Store) :
  (mutation_prob self <= 0)%Q → length gene = gene_size →
  _mutation self gene s = Done (gene, set_np_pos (np_pos s + gene_size) s).
Proof.
  intros Hprob Hlen. unfold _mutation.
  rewrite (for_each_copy _ gene); [by rewrite drop_0, <- Hlen, firstn_all | | lia].
  intros k v s1 Hv. rewrite bind_step. unfold np_random_uniform.
  destruct (unit_interval_range (np_raw (np_pos s1))) as [Hge _].
  assert (Qltb (unit_interval (np_raw (np_pos s1))) (mutation_prob self) = false) as ->.
  { apply Qltb_ge. lra. }
  by apply index_Done.
Qed.

(** A loop whose body gives its local variables back unchanged. *)
Lemma while_never_ends {L} (cond : L → bool) (body : L → Py Store L) (l : L)
    (I : Store → Prop) :
  cond l = true →
  (∀ s, I s → ∃ s', body l s = Done (l, s') ∧ I s') →
  ∀ fuel s, I s → while fuel cond body l s = OutOfFuel.
Proof.
  intros Hcond Hbody. induction fuel as [|fuel IH]; intros s Hs; cbn; rewrite Hcond.
  - reflexivity.
  - rewrite bind_step. destruct (Hbody s Hs) as (s' & -> & Hs'). by apply IH.
Qed.

Lemma crossover_loop_diverges (fuel : nat) (parents : list Gene)
    (p : Gene) (s : Store) :
  (0 < crossover_size self)%nat →
  (2 ≤ length parents)%nat →
  Forall (fun g => g = p) parents →
  length p = gene_size →
  is_Some (counts s !! gene_to_key p) →
  crossover_loop self fuel parents s = OutOfFuel.
Proof.
  intros Hsize Hlen Hall Hp Hseen. unfold crossover_loop. rewrite bind_step.
  rewrite (while_never_ends _ _ _ (fun s1 => is_Some (counts s1 !! gene_to_key p)));
    [reflexivity | | | done].
  - by apply Nat.ltb_lt.
  - intros s1 Hs1.
    destruct (random_sample2_run parents s1 Hlen) as (x & y & s2 & Hpair & Hx & Hy & [Ha _]).
    rewrite Forall_forall in Hall. rewrite (Hall x Hx), (Hall y Hy) in Hpair.
    rewrite bind_step, Hpair. rewrite bind_step, (crossover_of_one_gene p s2 Hp).
    destruct (accept_seen p (set_np_pos (np_pos s2 + gene_size) s2)) as (s3 & Hacc & Hc).
    { cbn [counts set_np_pos]. by rewrite (same_attrs_counts _ _ Ha). }
    rewrite bind_step, Hacc. exists s3. split; [reflexivity |].
    rewrite Hc. cbn [counts set_np_pos]. by rewrite (same_attrs_counts _ _ Ha).
Qed.

Lemma mutation_loop_diverges (fuel : nat) (parents : list Gene)
    (s : Store) :
  (mutation_prob self <= 0)%Q →
  (0 < mutation_size self)%nat →
  parents ≠ [] →
  Forall (fun g => length g = gene_size ∧ is_Some (counts s !! gene_to_key g)) parents →
  mutation_loop self fuel parents s = OutOfFuel.
Proof.
  intros Hprob Hsize Hne Hall. unfold mutation_loop. rewrite bind_step.
  rewrite (while_never_ends _ _ _ (fun s1 => counts s1 = counts s));
    [reflexivity | | | done].
  - by apply Nat.ltb_lt.
  - intros s1 Hs1.
    destruct (random_choices_run parents s1 Hne) as (g & Hg & Hin).
    rewrite Forall_forall in Hall. destruct (Hall g Hin) as [Hlen Hseen].
    set (s2 := set_py_pos (S (py_pos s1)) s1) in *.
    rewrite bind_step, Hg. rewrite bind_step, (mutation_copies g s2 Hprob Hlen).
    destruct (accept_seen g (set_np_pos (np_pos s2 + gene_size) s2)) as (s3 & Hacc & Hc).
    { cbn [counts set_np_pos set_py_pos s2]. by rewrite Hs1. }
    rewrite bind_step, Hacc. exists s3. split; [reflexivity |].
    rewrite Hc. cbn [counts set_np_pos set_py_pos]. done.
Qed.

(** X13. The loop of the crossovers cannot end when every parent is the
    same gene and a child is asked for: the child of a gene with itself
    is this gene, and a parent that the counter holds (as every gene of
    the frontier does in a run) is never accepted.  Whatever the draws,
    the probabilities and the number of tries allowed, the loop is still
    running when the tries are used up. *)
Theorem crossover_loop_of_one_gene_never_ends (fuel : nat) (parents : list Gene)
    (p : Gene) (s : Store) :
  (0 < crossover_size self)%nat →
  (2 ≤ length parents)%nat →
  Forall (fun g => g = p) parents →
  length p = gene_size →
  is_Some (counts s !! gene_to_key p) →
  crossover_loop self fuel parents s = OutOfFuel.
Proof. apply crossover_loop_diverges. Qed.

(** X14. With mutation_prob at 0.0 (or below) the loop of the mutations
    cannot end either when a child is asked for: the child is the parent
    it was copied from, and a parent that the counter holds is never
    accepted.  It is enough that every parent has gene_size positions and
    is held by the counter, as the genes of the frontier are in a run. *)
Theorem mutation_loop_without_mutation_never_ends (fuel : nat) (parents : list Gene)
    (s : Store) :
  (mutation_prob self <= 0)%Q →
  (0 < mutation_size self)%nat →
  parents ≠ [] →
  Forall (fun g => length g = gene_size ∧ is_Some (counts s !! gene_to_key g)) parents →
  mutation_loop self fuel parents s = OutOfFuel.
Proof. apply mutation_loop_diverges. Qed.

(** X15. The quotas and the parents of the two loops.  A loop that is
    asked for no child returns the empty list at once, without a draw,
    whatever the parents are.  When a child is asked for, the loop of the
    crossovers raises ValueError if there are fewer than two parents (a
    sample of two is drawn), and the loop of the mutations raises
    IndexError if there is no parent. *)
Theorem loops_quotas_and_parents (fuel : nat) (parents : list Gene) (s : Store) :
  (crossover_size self = O → crossover_loop self fuel parents s = Done ([], s))
  ∧ (mutation_size self = O → mutation_loop self fuel parents s = Done ([], s))
  ∧ ((0 < crossover_size self)%nat → (length parents < 2)%nat →
     crossover_loop self (S fuel) parents s = Raise ValueError)
  ∧ ((0 < mutation_size self)%nat → parents = [] →
     mutation_loop self (S fuel) parents s = Raise IndexError).
Proof.
  split; [| split; [| split]].
  - intros Hz. unfold crossover_loop. rewrite bind_step, Hz. by destruct fuel.
  - intros Hz. unfold mutation_loop. rewrite bind_step, Hz. by destruct fuel.
  - intros Hsize Hlen. unfold crossover_loop. rewrite bind_step. cbn [while].
    apply Nat.ltb_lt in Hsize. rewrite Hsize.
    rewrite bind_step, bind_step. unfold random_sample2.
    apply Nat.ltb_lt in Hlen. by rewrite Hlen.
  - intros Hsize ->. unfold mutation_loop. rewrite bind_step. cbn [while].
    apply Nat.ltb_lt in Hsize. rewrite Hsize.
    rewrite bind_step, bind_step. unfold random_choices. rewrite bind_step.
    reflexivity.
Qed.

(** *** Evolution.search on an empty population *)

Lemma update_pareto_front_empty (is_decreasing : bool) (s : Store) :
  all_params s = [] → _update_pareto_front is_decreasing s = Raise ValueError.
Proof.
  intros Hnil. unfold _update_pareto_front.
  rewrite bind_step. unfold modify at 1. cbv beta iota.
  rewrite bind_step. unfold get at 1. cbv beta iota.
  cbn [all_params set_pareto]. rewrite Hnil. reflexivity.
Qed.

(** X16. With population_size = 0 (and so no parents and no children) the
    constructor accepts the sizes, the initial population is empty, and
    [search] raises ValueError in its first generation, where the maximum
    of an empty history of parameters is taken. *)
Theorem search_of_an_empty_population (fuel : nat) (s0 : Store) :
  population_size self = O →
  __init__ self = Done s0 →
  (0 < n_iter self)%nat →
  search self fuel s0 = Raise ValueError.
Proof.
  intros Hpop Hinit Hiter. apply init_Done in Hinit as [_ Hfresh].
  assert (all_params s0 = []) as Hparams.
  { unfold attrs, new_store in Hfresh. cbn in Hfresh. by injection Hfresh. }
  unfold search. rewrite bind_step.
  destruct (n_iter self) as [|n]; [lia |]. clear Hiter.
  unfold search_upto. rewrite bind_step.
  unfold search_init, sample_random_population. rewrite Hpop.
  rewrite bind_step, bind_step.
  assert (∀ cond' body', cond' = (fun '((_, i) : list Gene * nat) => (i <? 0)%nat) →
            while fuel cond' body' ([], O) s0 = Done (([], O), s0)) as Hwhile.
  { intros cond' body' ->. by destruct fuel. }
  rewrite Hwhile by reflexivity. cbv beta iota. unfold ret at 1. cbv beta iota.
  cbn [fst]. rewrite bind_step. unfold modify at 1. cbv beta iota.
  rewrite bind_step, update_population_count_run. cbv beta iota. unfold ret at 1.
  cbv beta iota. cbn [search_loop]. rewrite bind_step.
  unfold search_iteration. rewrite bind_step.
  unfold search_evaluate. rewrite Hpop. cbn [Nat.eqb population drop].
  rewrite bind_step, calculate_constraints_run. cbv beta iota.
  cbn [map app length Nat.eqb parents_params parents_total_params parents_latencies
         parents_memories].
  do 4 (rewrite bind_step; unfold py_assert at 1, ret at 1; cbv beta iota).
  rewrite bind_step. unfold modify at 1. cbv beta iota.
  rewrite bind_step, update_pareto_front_empty; [reflexivity |].
  cbn. by rewrite Hparams.
Qed.

(** *** What a run can raise *)

Lemma bind_no_raise {A B} (c : Py Store A) (k : A → Py Store B) (s : Store) :
  no_raise (c s) → (∀ a s1, c s = Done (a, s1) → no_raise (k a s1)) →
  no_raise (bind c k s).
Proof.
  intros Hc Hk. rewrite bind_step.
  destruct (c s) as [[a s1]| |]; [by apply Hk | done | done].
Qed.

Lemma for_each_returns {A B} (f : A → Py Store B) (l : list A) :
  (∀ x s, x ∈ l → ∃ y s', f x s = Done (y, s')) →
  ∀ s, ∃ ys s', for_each f l s = Done (ys, s').
Proof.
  induction l as [|x l IH]; intros Hf s; cbn [for_each].
  - unfold ret. eauto.
  - destruct (Hf x s) as (y & s1 & Hy); [by left |].
    destruct (IH (fun x0 s0 Hin => Hf x0 s0 (list_elem_of_further _ _ _ Hin)) s1)
      as (ys & s2 & Hys).
    rewrite bind_step, Hy, bind_step, Hys. unfold ret. eauto.
Qed.

Lemma while_no_raise {L} (cond : L → bool) (body : L → Py Store L) :
  (∀ l s, cond l = true → no_raise (body l s)) →
  ∀ fuel l s, no_raise (while fuel cond body l s).
Proof.
  intros Hbody. induction fuel as [|fuel IH]; intros l s; cbn [while];
    destruct (cond l) eqn:Hc; try done.
  apply bind_no_raise; [by apply Hbody | intros l' s' _; apply IH].
Qed.

Lemma init_Done_dims (s0 : Store) :
  __init__ self = Done s0 → Forall (fun a => a ≠ []) allowed_genes.
Proof.
  unfold __init__. rewrite bind_step. unfold py_assert.
  destruct (_ =? _)%nat; unfold ret, raise; [rewrite profile_run | discriminate].
  destruct (mapM last allowed_genes) as [mx|] eqn:Emax; [| discriminate].
  intros _. apply (proj1 (mapM_last_head_nonempty allowed_genes)). by rewrite Emax.
Qed.

Lemma in_space_length (g : Gene) : in_space g → length g = gene_size.
Proof. unfold in_space, gene_size. apply Forall2_length. Qed.

Lemma sample_gene_returns (s : Store) :
  Forall (fun a => a ≠ []) allowed_genes → ∃ g s', sample_gene s = Done (g, s').
Proof.
  intros Hdims. unfold sample_gene, gene_size. rewrite for_each_range.
  apply for_each_returns. intros a s1 Ha. rewrite Forall_forall in Hdims.
  destruct (random_choices_run a s1 (Hdims a Ha)) as (x & Hx & _). eauto.
Qed.

Lemma mutation_returns (gene : Gene) (s : Store) :
  Forall (fun a => a ≠ []) allowed_genes → length gene = gene_size →
  ∃ c s', _mutation self gene s = Done (c, s').
Proof.
  intros Hdims Hlen. unfold _mutation. apply for_each_returns.
  intros k s1 Hk. apply elem_of_seq in Hk as [_ Hk]. cbn in Hk.
  rewrite bind_step. unfold np_random_uniform. cbv beta iota.
  destruct (Qltb _ _).
  - destruct (lookup_lt_is_Some_2 allowed_genes k Hk) as [a Ha].
    rewrite bind_step. unfold index at 1. rewrite Ha. unfold ret at 1. cbv beta iota.
    assert (a ≠ []) as Hne.
    { rewrite Forall_forall in Hdims. apply Hdims. by eapply list_elem_of_lookup_2. }
    destruct (random_choices_run a (set_np_pos (S (np_pos s1)) s1) Hne) as (x & Hx & _).
    eauto.
  - destruct (lookup_lt_is_Some_2 gene k) as [v Hv]; [by rewrite Hlen |].
    exists v, (set_np_pos (S (np_pos s1)) s1). by apply index_Done.
Qed.

Lemma crossover_returns (p q : Gene) (s : Store) :
  length p = gene_size → length q = gene_size →
  ∃ c s', _crossover self [p; q] s = Done (c, s').
Proof.
  intros Hp Hq. unfold _crossover. apply for_each_returns.
  intros k s1 Hk. apply elem_of_seq in Hk as [_ Hk]. cbn in Hk.
  rewrite bind_step. unfold np_random_uniform. cbv beta iota.
  destruct (lookup_lt_is_Some_2 p k) as [v Hv]; [by rewrite Hp |].
  destruct (lookup_lt_is_Some_2 q k) as [w Hw]; [by rewrite Hq |].
  destruct (Qltb _ _).
  - exists v, (set_np_pos (S (np_pos s1)) s1).
    apply bind_Done. eexists p, _. split; [reflexivity | by apply index_Done].
  - exists w, (set_np_pos (S (np_pos s1)) s1).
    apply bind_Done. eexists q, _. split; [reflexivity | by apply index_Done].
Qed.

(** The cumulative sums of the weights: one per weight, the sum of all the
    weights among them. *)
Lemma cumsum_spec (p : list Q) :
  length (cumsum p) = length p
  ∧ (p ≠ [] → ∃ c, c ∈ cumsum p ∧ (c == Qsum p)%Q).
Proof.
  unfold cumsum.
  enough (∀ acc : Q,
             length ((fix go (acc : Q) (l : list Q) : list Q :=
                        match l with
                        | [] => []
                        | x :: l' => (acc + x)%Q :: go (acc + x)%Q l'
                        end) acc p) = length p
             ∧ (p ≠ [] →
                ∃ c, c ∈ (fix go (acc : Q) (l : list Q) : list Q :=
                            match l with
                            | [] => []
                            | x :: l' => (acc + x)%Q :: go (acc + x)%Q l'
                            end) acc p
                     ∧ (c == acc + Qsum p)%Q)) as Hgo.
  { destruct (Hgo 0%Q) as [Hlen Hlast]. split; [done |]. intros Hne.
    destruct (Hlast Hne) as (c & Hc & Heq). exists c. split; [done |].
    rewrite Heq. apply Qplus_0_l. }
  induction p as [|x p IH]; intros acc; [done |].
  destruct (IH (acc + x)%Q) as [Hlen Hlast]. split; [cbn; by rewrite Hlen |].
  intros _. destruct p as [|y p].
  - exists (acc + x)%Q. split; [by left |]. cbn. ring.
  - destruct Hlast as (c & Hc & Heq); [done |].
    exists c. split; [by right |]. rewrite Heq.
    change (Qsum (x :: y :: p)) with (x + Qsum (y :: p))%Q. ring.
Qed.

Lemma searchsorted_right_bound (p : list Q) (u : Q) :
  p ≠ [] → (Qsum p == 1)%Q → (u < 1)%Q →
  (searchsorted_right (cumsum p) u < length p)%nat.
Proof.
  intros Hne Hsum Hu. destruct (cumsum_spec p) as [Hlen Hlast].
  destruct (Hlast Hne) as (c & Hc & Heq).
  unfold searchsorted_right. rewrite <- Hlen.
  apply (length_filter_lt _ _ c); [done |].
  intros Hle. apply Qle_bool_iff in Hle. rewrite Heq, Hsum in Hle. lra.
Qed.

Lemma np_random_choice_returns (n size : nat) (p : list Q) (s : Store) :
  n ≠ O → length p = n → Forall (fun w => (0 < w)%Q) p → (Qsum p == 1)%Q →
  ∃ idx s', np_random_choice n size p s = Done (idx, s')
            ∧ Forall (fun i => (i < n)%nat) idx.
Proof.
  intros Hn Hlen Hpos Hsum.
  assert (p ≠ []) as Hne by (intros ->; cbn in Hlen; lia).
  assert (∃ idx s', np_random_choice n size p s = Done (idx, s')) as (idx & s' & Hrun).
  { unfold np_random_choice.
    apply Nat.eqb_neq in Hn. rewrite Hn. cbn [andb].
    rewrite Hlen, Nat.eqb_refl. cbn [negb].
    destruct (existsb (fun x => Qltb x 0) p) eqn:Hex.
    { apply existsb_exists in Hex as (x & Hx & Hlt).
      apply Qltb_lt in Hlt. rewrite Forall_forall in Hpos.
      apply list_elem_of_In in Hx. apply Hpos in Hx. lra. }
    assert (Qeq_bool (Qsum p) 1 = true) as -> by (by apply Qeq_eq_bool).
    cbn [negb]. apply for_each_returns. intros k s1 _.
    rewrite bind_step. unfold np_random_uniform, ret. eauto. }
  exists idx, s'. split; [done |].
  unfold np_random_choice in Hrun.
  destruct (_ && _); [discriminate |].
  destruct (negb _); [discriminate |].
  destruct (existsb _ _); [discriminate |].
  destruct (negb _); [discriminate |].
  assert (PreOrder (fun _ _ : Store => True)) as Hpre by (by split).
  eapply (for_each_Done _ (fun _ _ => True) (fun _ i => (i < n)%nat)) in Hrun as [_ HF].
  - clear -HF. induction HF; constructor; auto.
  - intros k s1 i s2 _ Hk. split; [done |].
    apply bind_Done in Hk as (u & s3 & Hu & Hk).
    apply np_random_uniform_Done in Hu as (_ & _ & _ & Hu1).
    apply ret_Done in Hk as [<- _]. rewrite <- Hlen.
    by apply searchsorted_right_bound.
Qed.

Lemma frontier_points_length (ps : list Z) (ls ms : list Q) :
  length ls = length ps → length ms = length ps →
  length (frontier_points ps ls ms) = length ps.
Proof.
  intros Hl Hm. unfold frontier_points. rewrite !length_zip_with, length_map. lia.
Qed.

Lemma search_evaluate_returns (i : nat) (loc : Locals) (s : Store) :
  search_inv self i loc s →
  (0 < population_size self)%nat →
  (∀ pts, Forall (fun k => (k < length pts)%nat) (find_pareto_points pts true)) →
  ∃ r s', search_evaluate self i loc s = Done (r, s').
Proof.
  intros [Hsizes Hpop Hshape (old & Hold & Hps & Htps & Hls & Hms) (R1 & R2 & R3 & R4)
            Hcounted Hmem] Hsize Hrange.
  unfold search_evaluate.
  change (if (i =? 0)%nat then O else parent_size self) with (unseen_from self i).
  set (u := unseen_from self i) in *.
  rewrite bind_step, calculate_constraints_run. cbv beta iota zeta.
  assert (∀ {B} (f : Gene → B) (xs : list B),
             xs = map f (take u (population loc)) →
             length (xs ++ map f (drop u (population loc))) = population_size self) as Hlen.
  { intros B f xs ->. by rewrite length_app, !length_map, <- length_app, take_drop. }
  rewrite (Hlen _ _ _ R1), (Hlen _ _ _ R2), (Hlen _ _ _ R3), (Hlen _ _ _ R4), Nat.eqb_refl.
  do 4 (rewrite bind_step; unfold py_assert at 1, ret at 1; cbv beta iota).
  rewrite bind_step. unfold modify at 1. cbv beta iota.
  rewrite bind_step.
  assert (length (old ++ drop u (population loc)) ≠ O) as Hnz.
  { rewrite <- Hold. destruct (population loc) as [|g pop] eqn:Epop; [cbn in Hpop; lia |].
    specialize (Hmem g (list_elem_of_here _ _)).
    destruct (all_population s); [by apply elem_of_nil in Hmem | done]. }
  rewrite length_app in Hnz.
  match goal with |- context [_update_pareto_front true ?s2] =>
    destruct (update_pareto_front_run true s2) as [s' Hup] end.
  - cbn. rewrite Hps. intros E. apply (f_equal length) in E.
    rewrite length_app, !length_map in E. cbn in E. lia.
  - cbn. by rewrite Hold, Hps, !length_app, !length_map.
  - cbn. by rewrite Htps, Hps, !length_app, !length_map.
  - cbn. by rewrite Hls, Hps, !length_app, !length_map.
  - cbn. by rewrite Hms, Hps, !length_app, !length_map.
  - eapply Forall_impl; [apply Hrange |]. intros k Hk.
    rewrite frontier_points_length in Hk; [done | |];
      cbn; rewrite ?Hms, ?Hls, Hps, !length_app, !length_map; done.
  - rewrite Hup. cbv beta iota. unfold ret. eauto.
Qed.

Lemma sample_random_population_no_raise (fuel n : nat) (s : Store) :
  Forall (fun a => a ≠ []) allowed_genes →
  no_raise (sample_random_population self fuel n s).
Proof.
  intros Hdims. unfold sample_random_population.
  apply bind_no_raise; [| done].
  apply while_no_raise. intros [pop k] s1 _.
  destruct (sample_gene_returns s1 Hdims) as (g & s2 & Hg).
  rewrite bind_step, Hg.
  destruct (check_constraints_run self g s2) as (b & tr & Hb & _).
  rewrite bind_step, Hb. by destruct b.
Qed.

Lemma mutation_loop_no_raise (fuel : nat) (parents : list Gene) (s : Store) :
  Forall (fun a => a ≠ []) allowed_genes →
  Forall (fun g => length g = gene_size) parents →
  ((0 < mutation_size self)%nat → parents ≠ []) →
  no_raise (mutation_loop self fuel parents s).
Proof.
  intros Hdims Hlens Hne. unfold mutation_loop.
  apply bind_no_raise; [| done].
  apply while_no_raise. intros [pop k] s1 Hc. apply Nat.ltb_lt in Hc.
  destruct (random_choices_run parents s1) as (g & Hg & Hin); [apply Hne; lia |].
  rewrite bind_step, Hg.
  rewrite Forall_forall in Hlens.
  destruct (mutation_returns g (set_py_pos (S (py_pos s1)) s1) Hdims (Hlens g Hin))
    as (c & s2 & Hc2).
  rewrite bind_step, Hc2.
  destruct (accept_run c s2) as (b & s3 & Hb).
  rewrite bind_step, Hb. by destruct b.
Qed.

Lemma crossover_loop_no_raise (fuel : nat) (parents : list Gene) (s : Store) :
  Forall (fun g => length g = gene_size) parents →
  ((0 < crossover_size self)%nat → (2 ≤ length parents)%nat) →
  no_raise (crossover_loop self fuel parents s).
Proof.
  intros Hlens Hne. unfold crossover_loop.
  apply bind_no_raise; [| done].
  apply while_no_raise. intros [pop k] s1 Hc. apply Nat.ltb_lt in Hc.
  destruct (random_sample2_run parents s1) as (x & y & s2 & Hpair & Hx & Hy & _);
    [apply Hne; lia |].
  rewrite bind_step, Hpair.
  rewrite Forall_forall in Hlens.
  destruct (crossover_returns x y s2 (Hlens x Hx) (Hlens y Hy)) as (c & s3 & Hc3).
  rewrite bind_step, Hc3.
  destruct (accept_run c s3) as (b & s4 & Hb).
  rewrite bind_step, Hb. by destruct b.
Qed.

Lemma search_vary_no_raise (fuel : nat) (loc : Locals) (s : Store) :
  evaluated_inv self loc s →
  pareto_population (pareto s) ≠ [] →
  Forall (fun a => a ≠ []) allowed_genes →
  ((0 < mutation_size self)%nat → (0 < parent_size self)%nat) →
  ((0 < crossover_size self)%nat → (2 ≤ parent_size self)%nat) →
  no_raise (search_vary self fuel s).
Proof.
  intros [Hsizes Hal (Q1 & Q2 & Q3 & Q4 & Q5) (Hcpos & Hckey & Hspace) Hmem]
         Hfront Hdims Hmut Hcro.
  destruct (weighted_count_run s Hfront) as (ws & Hws & Hwlen & Hwpos & Hwsum).
  { intros g Hin. apply counts_positive_count_of; [done |].
    apply Hckey. by eapply gathered_elem. }
  unfold search_vary. rewrite bind_step, Hws.
  rewrite bind_step. unfold get at 1. cbv beta iota.
  set (n := length (pareto_population (pareto s))) in *.
  assert (n ≠ O) as Hn by (unfold n; by destruct (pareto_population (pareto s))).
  destruct (np_random_choice_returns n (parent_size self) ws s Hn Hwlen Hwpos Hwsum)
    as (idx & s1 & Hidx & Hrange).
  rewrite bind_step, Hidx.
  pose proof Hidx as Hsel. apply np_random_choice_Done in Hsel as [_ Hsel].
  apply gathered_length in Q1 as L1. apply gathered_length in Q2 as L2.
  apply gathered_length in Q3 as L3. apply gathered_length in Q4 as L4.
  apply gathered_length in Q5 as L5. fold n in L1.
  assert (∀ {A} (l : list A), length l = n → is_Some (mapM (fun i => l !! i) idx)) as Hall.
  { intros A l Hl. apply gather_in_range. by rewrite Hl. }
  destruct (Hall _ (pareto_population (pareto s)) eq_refl) as [parents E1].
  destruct (Hall _ (pareto_params (pareto s))) as [x2 E2]; [congruence |].
  destruct (Hall _ (pareto_total_params (pareto s))) as [x3 E3]; [congruence |].
  destruct (Hall _ (pareto_latencies (pareto s))) as [x4 E4]; [congruence |].
  destruct (Hall _ (pareto_memories (pareto s))) as [x5 E5]; [congruence |].
  rewrite bind_step, gather_run, E1. cbv beta iota.
  rewrite bind_step, gather_run, E2. cbv beta iota.
  rewrite bind_step, gather_run, E3. cbv beta iota.
  rewrite bind_step, gather_run, E4. cbv beta iota.
  rewrite bind_step, gather_run, E5. cbv beta iota.
  apply mapM_Some in E1. fold (gathered (pareto_population (pareto s)) idx parents) in E1.
  assert (length parents = parent_size self) as Hlp.
  { apply gathered_length in E1. congruence. }
  assert (Forall (fun g => length g = gene_size) parents) as Hlens.
  { apply Forall_forall. intros g Hg. apply in_space_length.
    rewrite Forall_forall in Hspace. apply Hspace.
    eapply gathered_elem; [exact Q1 |]. by eapply gathered_elem. }
  apply bind_no_raise.
  { apply mutation_loop_no_raise; [done | done |].
    intros Hm. apply Hmut in Hm. intros ->. cbn in Hlp. lia. }
  intros mutated s2 Hmrun. apply mutation_loop_Done in Hmrun as (_ & Hlm & _).
  apply bind_no_raise.
  { apply crossover_loop_no_raise; [done |]. intros Hc. rewrite Hlp. by apply Hcro. }
  intros crossed s3 Hcrun. apply crossover_loop_Done in Hcrun as (_ & Hlc & _).
  rewrite bind_step. unfold py_assert.
  assert (length (parents ++ mutated ++ crossed) = population_size self) as ->.
  { rewrite !length_app. lia. }
  rewrite Nat.eqb_refl. unfold ret at 1. cbv beta iota.
  rewrite bind_step, update_population_count_run. cbv beta iota.
  rewrite bind_step. unfold modify. cbv beta iota. done.
Qed.

Lemma search_iteration_no_raise (fuel i : nat) (loc : Locals) (s : Store) :
  search_inv self i loc s →
  Forall (fun a => a ≠ []) allowed_genes →
  (0 < population_size self)%nat →
  ((0 < mutation_size self)%nat → (0 < parent_size self)%nat) →
  ((0 < crossover_size self)%nat → (2 ≤ parent_size self)%nat) →
  (∀ pts, Forall (fun k => (k < length pts)%nat) (find_pareto_points pts true)) →
  (∀ pts, pts ≠ [] → find_pareto_points pts true ≠ []) →
  no_raise (search_iteration self fuel i loc s).
Proof.
  intros Hinv Hdims Hsize Hmut Hcro Hrange Hsome. unfold search_iteration.
  destruct (search_evaluate_returns i loc s Hinv Hsize Hrange) as (r & s1 & Hev).
  rewrite bind_step, Hev.
  pose proof Hev as Hd. apply (search_evaluate_Done self _ _ _ _ _ Hinv) in Hd
    as (Hinv1 & Ep & _).
  apply (search_vary_no_raise fuel loc s1); [done | | done | done | done].
  destruct Hinv1 as [_ (A1 & A2 & A3 & A4) (Q1 & _) _ _].
  intros Hnil. rewrite Hnil in Q1. apply gathered_length in Q1. cbn in Q1.
  apply (Hsome (frontier_points (all_params s1) (all_latencies s1) (all_memories s1))).
  - intros Epts. apply (f_equal length) in Epts.
    rewrite frontier_points_length in Epts by (by rewrite ?A3, ?A4, A1, !length_map).
    rewrite A1, length_map, Ep in Epts. cbn in Epts.
    destruct Hinv as [_ Hpop _ _ _ _ Hmem].
    destruct (population loc) as [|g pop]; [cbn in Hpop; lia |].
    specialize (Hmem g (list_elem_of_here _ _)).
    destruct (all_population s); [by apply elem_of_nil in Hmem | done].
  - by destruct (find_pareto_points _ _).
Qed.

Lemma search_init_no_raise (fuel : nat) (s : Store) :
  Forall (fun a => a ≠ []) allowed_genes → no_raise (search_init self fuel s).
Proof.
  intros Hdims. unfold search_init.
  apply bind_no_raise; [by apply sample_random_population_no_raise |].
  intros pop s1 _. rewrite bind_step. unfold modify at 1. cbv beta iota.
  rewrite bind_step, update_population_count_run. done.
Qed.

Lemma search_upto_no_raise (fuel n : nat) (s0 : Store) :
  __init__ self = Done s0 →
  (0 < population_size self)%nat →
  ((0 < mutation_size self)%nat → (0 < parent_size self)%nat) →
  ((0 < crossover_size self)%nat → (2 ≤ parent_size self)%nat) →
  (∀ pts, Forall (fun k => (k < length pts)%nat) (find_pareto_points pts true)) →
  (∀ pts, pts ≠ [] → find_pareto_points pts true ≠ []) →
  no_raise (search_upto self fuel n s0).
Proof.
  intros Hinit Hsize Hmut Hcro Hrange Hsome.
  pose proof (init_Done_dims s0 Hinit) as Hdims.
  induction n as [|n IH].
  - unfold search_upto. apply bind_no_raise; [by apply search_init_no_raise | done].
  - rewrite search_upto_S. apply bind_no_raise; [done |].
    intros loc s Hrun. apply search_iteration_no_raise; try done.
    by apply (search_upto_inv self fuel n s0).
Qed.

(** X17. A run raises nothing.  Let the constructor have returned, let the
    population not be empty, let there be a parent if a mutated gene is
    asked for and two parents if a crossed gene is asked for, and let
    [find_pareto_points] return indices of the points it was given, at
    least one when there is a point.  Then [search], after any number of
    generations, has either returned or is in one of its three retry
    loops: none of its assertions on the sizes fails, no frontier is
    empty, the weights of the parents are never divided by zero, numpy
    accepts them as a distribution, and no index is out of range. *)
Theorem search_raises_nothing (fuel : nat) (s0 : Store) :
  __init__ self = Done s0 →
  (0 < population_size self)%nat →
  ((0 < mutation_size self)%nat → (0 < parent_size self)%nat) →
  ((0 < crossover_size self)%nat → (2 ≤ parent_size self)%nat) →
  (∀ pts, Forall (fun k => (k < length pts)%nat) (find_pareto_points pts true)) →
  (∀ pts, pts ≠ [] → find_pareto_points pts true ≠ []) →
  no_raise (search self fuel s0)
  ∧ ∀ n, no_raise (search_upto self fuel n s0).
Proof.
  intros Hinit Hsize Hmut Hcro Hrange Hsome. split.
  - unfold search. apply bind_no_raise; [by apply search_upto_no_raise | done].
  - intros n. by apply search_upto_no_raise.
Qed.

(** *** Evolution.sample_random_population *)

(** X18. [sample_random_population] raises nothing when every position
    has an allowed value, and a sample is rejected only by the constraint
    filter: when every gene of the search space passes the filter, [n]
    tries give the [n] genes. *)
Theorem sample_random_population_returns (fuel n : nat) (s : Store) :
  Forall (fun a => a ≠ []) allowed_genes →
  no_raise (sample_random_population self fuel n s)
  ∧ ((∀ g, in_space g → valid self g) → (n ≤ fuel)%nat →
     ∃ pop s', sample_random_population self fuel n s = Done (pop, s')).
Proof.
  intros Hdims. split; [by apply sample_random_population_no_raise |].
  intros Hvalid Hfuel. unfold sample_random_population.
  enough (∀ m fuel' pop i s1,
             (i + m = n)%nat → (m ≤ fuel')%nat →
             ∃ r s', while fuel'
                       (fun '(population, i) => (i <? n)%nat)
                       (fun '(population, i) =>
                          let* sampled_gene := sample_gene in
                          let* ok := _check_constraints self sampled_gene in
                          if ok then ret (population ++ [sampled_gene], S i)
                          else ret (population, i))
                       (pop, i) s1 = Done (r, s')) as Hloop.
  { destruct (Hloop n fuel [] O s) as ([pop k] & s' & Hrun); [lia | done |].
    rewrite bind_step, Hrun. unfold ret. eauto. }
  induction m as [|m IH]; intros fuel' pop i s1 Hi Hm.
  - assert ((i <? n)%nat = false) as Hc by (apply Nat.ltb_ge; lia).
    destruct fuel'; cbn [while]; rewrite Hc; unfold ret; eauto.
  - destruct fuel' as [|fuel']; [lia |]. cbn [while].
    assert ((i <? n)%nat = true) as -> by (apply Nat.ltb_lt; lia).
    destruct (sample_gene_returns s1 Hdims) as (g & s2 & Hg).
    rewrite bind_step, bind_step, Hg.
    pose proof Hg as Hspace. apply sample_gene_Done in Hspace as [_ Hspace].
    destruct (check_constraints_run self g s2) as (b & tr & Hb & Hiff & _).
    rewrite bind_step, Hb.
    assert (b = true) as -> by (by apply Hiff, Hvalid).
    unfold ret at 1. cbv beta iota. apply IH; lia.
Qed.

(** *** Generations that cannot end *)

(** X19. In a run with two parents at least, the second part of a
    generation (the choice of the parents and the making of the
    children) never ends, whatever the draws and the number of tries, in
    two cases: a crossed gene is asked for and the frontier holds one gene
    only, possibly several times; or a mutated gene is asked for,
    mutation_prob is 0.0 or below and the frontier is not empty.  In both
    cases every child is a gene of the frontier, which the counter
    holds. *)
Theorem generation_that_cannot_end (fuel i : nat) (s0 : Store) loc s r s' (p : Gene) :
  __init__ self = Done s0 →
  search_upto self fuel i s0 = Done (loc, s) →
  search_evaluate self i loc s = Done (r, s') →
  (2 ≤ parent_size self)%nat →
  pareto_population (pareto s') ≠ [] →
  ((0 < crossover_size self)%nat ∧ Forall (fun g => g = p) (pareto_population (pareto s')))
  ∨ ((0 < mutation_size self)%nat ∧ (mutation_prob self <= 0)%Q) →
  ∀ fuel', search_vary self fuel' s' = OutOfFuel.
Proof.
  intros Hinit Hupto Hev Hparents Hfront Hcase fuel'.
  pose proof (init_Done_dims s0 Hinit) as Hdims.
  pose proof (search_upto_inv self _ _ _ _ _ Hinit Hupto) as Hinv.
  apply (search_evaluate_Done self _ _ _ _ _ Hinv) in Hev as (Hinv1 & _).
  assert (no_raise (search_vary self fuel' s')) as Hnr.
  { apply (search_vary_no_raise fuel' loc s'); try done; intros _; lia. }
  destruct (search_vary self fuel' s') as [[loc' s2]|e|] eqn:Hrun; [exfalso | done | done].
  clear Hnr. destruct Hinv1 as [_ _ (Q1 & _) (Hcpos & Hckey & Hspace) _].
  unfold search_vary in Hrun.
  apply bind_Done in Hrun as (ws & s1 & H1 & Hrun).
  apply calculate_weighted_count_Done in H1 as ->.
  apply bind_Done in Hrun as (fr & ? & H1 & Hrun). apply get_Done in H1 as [-> ->].
  apply bind_Done in Hrun as (sel & s1 & H1 & Hrun).
  apply np_random_choice_Done in H1 as [[Ha1 _] Hsel].
  apply bind_Done in Hrun as (parents & ? & H1 & Hrun). apply gather_Done in H1 as [-> P1].
  apply bind_Done in Hrun as (pps & ? & H1 & Hrun). apply gather_Done in H1 as [-> _].
  apply bind_Done in Hrun as (ptps & ? & H1 & Hrun). apply gather_Done in H1 as [-> _].
  apply bind_Done in Hrun as (pls & ? & H1 & Hrun). apply gather_Done in H1 as [-> _].
  apply bind_Done in Hrun as (pms & ? & H1 & Hrun). apply gather_Done in H1 as [-> _].
  apply bind_Done in Hrun as (mutated & s3 & Hmrun & Hrun).
  apply bind_Done in Hrun as (crossed & s4 & Hcrun & _).
  assert (length parents = parent_size self) as Hlp.
  { apply gathered_length in P1. congruence. }
  assert (∀ g, g ∈ parents →
               length g = gene_size ∧ is_Some (counts s1 !! gene_to_key g)) as Hpar.
  { intros g Hg.
    assert (g ∈ all_population s') as Hin.
    { eapply gathered_elem; [exact Q1 |]. by eapply gathered_elem. }
    split.
    - apply in_space_length. rewrite Forall_forall in Hspace. by apply Hspace.
    - rewrite (same_attrs_counts _ _ Ha1). by apply Hckey. }
  destruct Hcase as [[Hc Hone] | [Hm Hprob]].
  - pose proof Hmrun as Hd. apply mutation_loop_Done in Hd as ([Ha2 _] & _).
    destruct parents as [|g0 parents'] eqn:Eparents; [cbn in Hlp; lia |].
    rewrite <- Eparents in *.
    assert (Forall (fun g => g = p) parents) as Hall.
    { apply Forall_forall. intros g Hg. rewrite Forall_forall in Hone. apply Hone.
      by eapply gathered_elem. }
    assert (g0 = p) as ->.
    { rewrite Forall_forall in Hall. apply Hall. rewrite Eparents. by left. }
    destruct (Hpar p) as [Hlen Hseen]; [rewrite Eparents; by left |].
    rewrite (crossover_loop_diverges fuel' parents p s3) in Hcrun;
      [discriminate | done | lia | done | done |].
    by rewrite (same_attrs_counts _ _ Ha2).
  - rewrite (mutation_loop_diverges fuel' parents s1) in Hmrun;
      [discriminate | done | done | | ].
    + intros ->. cbn in Hlp. lia.
    + apply Forall_forall. intros g Hg. by apply Hpar.
Qed.

End Further.

(** ** The assembly of the next population *)

Section Assembly.
Context {conv : Converter} {evaluator : Evaluator} {front : ParetoFront}
        {gen : Generators}.
Context (self : Args).

Lemma bind_never_asserts {A B} (c : Py Store A) (k : A → Py Store B) (s : Store) :
  never_asserts (c s) → (∀ a s1, c s = Done (a, s1) → never_asserts (k a s1)) →
  never_asserts (bind c k s).
Proof.
  intros Hc Hk. unfold never_asserts. rewrite bind_step.
  destruct (c s) as [[a s1]|e|]; [by apply Hk | | done].
  intros [= ->]. by apply Hc.
Qed.

Lemma index_error_only_never_asserts {A} (o : outcome A) :
  index_error_only o → never_asserts o.
Proof. destruct o as [r|e|]; [done | cbn; intros ->; done | done]. Qed.

Lemma while_never_asserts {L} (cond : L → bool) (body : L → Py Store L) :
  (∀ l s, cond l = true → never_asserts (body l s)) →
  ∀ fuel l s, never_asserts (while fuel cond body l s).
Proof.
  intros Hbody. induction fuel as [|fuel IH]; intros l s; cbn [while];
    destruct (cond l) eqn:Hc; try done.
  apply bind_never_asserts; [by apply Hbody | intros l' s' _; apply IH].
Qed.

Lemma mutation_index_error_only (gene : Gene) (s : Store) :
  index_error_only (_mutation self gene s).
Proof.
  unfold _mutation. apply for_each_index_error_only. intros k s1.
  apply bind_index_error_only; [done |]. intros u s2.
  destruct (Qltb u (mutation_prob self)).
  - apply bind_index_error_only; [apply index_index_error_only |].
    intros a s3. apply random_choices_index_error_only.
  - apply index_index_error_only.
Qed.

Lemma crossover_index_error_only (genes : list Gene) (s : Store) :
  index_error_only (_crossover self genes s).
Proof.
  unfold _crossover. apply for_each_index_error_only. intros k s1.
  apply bind_index_error_only; [done |]. intros u s2.
  destruct (Qltb u (crossover_prob self));
    (apply bind_index_error_only; [apply index_index_error_only |]);
    intros g s3; apply index_index_error_only.
Qed.

Lemma random_sample2_never_asserts {A} (l : list A) (s : Store) :
  never_asserts (random_sample2 l s).
Proof.
  destruct (Nat.lt_ge_cases (length l) 2) as [Hlt | Hge].
  - unfold random_sample2. apply Nat.ltb_lt in Hlt. rewrite Hlt. done.
  - destruct (random_sample2_run l s Hge) as (x & y & s' & -> & _). done.
Qed.

Lemma np_random_choice_never_asserts (n size : nat) (p : list Q) (s : Store) :
  never_asserts (np_random_choice n size p s).
Proof.
  unfold np_random_choice.
  destruct (_ && _); [done |].
  destruct (negb _); [done |].
  destruct (existsb _ _); [done |].
  destruct (negb _); [done |].
  destruct (for_each_returns
              (fun _ : nat => let* u := np_random_uniform in
                              ret (searchsorted_right (cumsum p) u))
              (seq 0 size)) with (s := s) as (idx & s' & ->); [| done].
  intros k s1 _. rewrite bind_step. unfold np_random_uniform, ret. eauto.
Qed.

Lemma gather_never_asserts {A} (l : list A) (inds : list nat) (s : Store) :
  never_asserts (for_each (index l) inds s).
Proof. rewrite gather_run. by destruct (mapM _ inds). Qed.

Lemma weighted_count_never_asserts (s : Store) :
  never_asserts (_calculate_weighted_count s).
Proof.
  rewrite weighted_count_outcome.
  destruct (map _ _); [done |]. by destruct (_ =? _).
Qed.

Lemma update_pareto_front_never_asserts (is_decreasing : bool) (s : Store) :
  length (all_population s) = length (all_params s) →
  length (all_total_params s) = length (all_params s) →
  length (all_latencies s) = length (all_params s) →
  length (all_memories s) = length (all_params s) →
  never_asserts (_update_pareto_front is_decreasing s).
Proof.
  intros L1 L2 L3 L4. unfold never_asserts, _update_pareto_front.
  rewrite bind_step. unfold modify at 1. cbv beta iota.
  rewrite bind_step. unfold get at 1. cbv beta iota.
  cbn [all_params all_latencies all_memories all_population all_total_params set_pareto].
  rewrite bind_step.
  destruct (all_params s) as [|p0 ps] eqn:Eps; [done |].
  unfold py_max at 1, ret at 1. cbv beta iota.
  rewrite bind_step. unfold get at 1. cbv beta iota.
  rewrite bind_step. unfold get at 1. cbv beta iota.
  cbn [all_params all_latencies all_memories all_population all_total_params set_pareto].
  rewrite bind_step. unfold concatenate at 1.
  rewrite length_map, L3, L4, Nat.eqb_refl. cbn [andb]. unfold ret at 1. cbv beta iota.
  rewrite bind_step. unfold get at 1. cbv beta iota.
  rewrite bind_step. unfold get at 1. cbv beta iota.
  cbn [all_params all_latencies all_memories all_population all_total_params set_pareto].
  rewrite !length_zip_with, !length_map, L1, L2, L3, L4, !Nat.min_id.
  rewrite Nat.eqb_refl.
  do 5 (rewrite bind_step; unfold py_assert at 1, ret at 1; cbv beta iota).
  do 5 (rewrite bind_step, gather_run; destruct (mapM _ _); [cbv beta iota | done]).
  done.
Qed.

Lemma search_evaluate_never_asserts (i : nat) (loc : Locals) (s : Store) :
  search_inv self i loc s → never_asserts (search_evaluate self i loc s).
Proof.
  intros [Hsizes Hpop Hshape (old & Hold & Hps & Htps & Hls & Hms) (R1 & R2 & R3 & R4)
            Hcounted Hmem].
  unfold search_evaluate.
  change (if (i =? 0)%nat then O else parent_size self) with (unseen_from self i).
  set (u := unseen_from self i) in *.
  unfold never_asserts. rewrite bind_step, calculate_constraints_run. cbv beta iota zeta.
  assert (∀ {B} (f : Gene → B) (xs : list B),
             xs = map f (take u (population loc)) →
             length (xs ++ map f (drop u (population loc))) = population_size self) as Hlen.
  { intros B f xs ->. by rewrite length_app, !length_map, <- length_app, take_drop. }
  rewrite (Hlen _ _ _ R1), (Hlen _ _ _ R2), (Hlen _ _ _ R3), (Hlen _ _ _ R4), Nat.eqb_refl.
  do 4 (rewrite bind_step; unfold py_assert at 1, ret at 1; cbv beta iota).
  rewrite bind_step. unfold modify at 1. cbv beta iota.
  apply bind_never_asserts; [| done].
  apply update_pareto_front_never_asserts; cbn;
    rewrite ?Hold, ?Htps, ?Hls, ?Hms, Hps, !length_app, !length_map; done.
Qed.

Lemma mutation_loop_never_asserts (fuel : nat) (parents : list Gene) (s : Store) :
  never_asserts (mutation_loop self fuel parents s).
Proof.
  unfold mutation_loop. apply bind_never_asserts; [| done].
  apply while_never_asserts. intros [pop k] s1 _.
  apply bind_never_asserts.
  { apply index_error_only_never_asserts, random_choices_index_error_only. }
  intros parent s2 _. apply bind_never_asserts.
  { apply index_error_only_never_asserts, mutation_index_error_only. }
  intros c s3 _. destruct (accept_run self c s3) as (b & s4 & Hb).
  unfold never_asserts. rewrite bind_step, Hb. by destruct b.
Qed.

Lemma crossover_loop_never_asserts (fuel : nat) (parents : list Gene) (s : Store) :
  never_asserts (crossover_loop self fuel parents s).
Proof.
  unfold crossover_loop. apply bind_never_asserts; [| done].
  apply while_never_asserts. intros [pop k] s1 _.
  apply bind_never_asserts; [apply random_sample2_never_asserts |].
  intros pair s2 _. apply bind_never_asserts.
  { apply index_error_only_never_asserts, crossover_index_error_only. }
  intros c s3 _. destruct (accept_run self c s3) as (b & s4 & Hb).
  unfold never_asserts. rewrite bind_step, Hb. by destruct b.
Qed.

(** The three parts of a population have the lengths that the assertion
    on the next population asks for, whatever the state is. *)
Lemma assembled_lengths (fuel : nat) (s1 : Store) (parents mutated crossed : list Gene) :
  assembled self fuel s1 parents mutated crossed →
  length parents = parent_size self
  ∧ length mutated = mutation_size self
  ∧ length crossed = crossover_size self.
Proof.
  intros (ws & sw & idx & s2 & sp & s3 & s4 & _ & Hidx & Hpar & Hmut & Hcro).
  apply np_random_choice_Done in Hidx as [_ Hidx].
  apply for_each_length in Hpar.
  apply mutation_loop_Done in Hmut as (_ & Hmut & _).
  apply crossover_loop_Done in Hcro as (_ & Hcro & _).
  split; [congruence | done].
Qed.

Lemma search_vary_never_asserts (fuel : nat) (s : Store) :
  population_size self = (parent_size self + mutation_size self + crossover_size self)%nat →
  never_asserts (search_vary self fuel s).
Proof.
  intros Hsizes. unfold search_vary.
  apply bind_never_asserts; [apply weighted_count_never_asserts |].
  intros ws sw Hws. rewrite bind_step. unfold get at 1. cbv beta iota.
  apply bind_never_asserts; [apply np_random_choice_never_asserts |].
  intros idx s2 Hidx.
  apply bind_never_asserts; [apply gather_never_asserts |].
  intros parents sp Hpar.
  apply bind_never_asserts; [apply gather_never_asserts |]. intros x2 ? H2.
  apply gather_Done in H2 as [-> _].
  apply bind_never_asserts; [apply gather_never_asserts |]. intros x3 ? H3.
  apply gather_Done in H3 as [-> _].
  apply bind_never_asserts; [apply gather_never_asserts |]. intros x4 ? H4.
  apply gather_Done in H4 as [-> _].
  apply bind_never_asserts; [apply gather_never_asserts |]. intros x5 ? H5.
  apply gather_Done in H5 as [-> _].
  apply bind_never_asserts; [apply mutation_loop_never_asserts |].
  intros mutated s3 Hmut.
  apply bind_never_asserts; [apply crossover_loop_never_asserts |].
  intros crossed s4 Hcro.
  destruct (assembled_lengths fuel s parents mutated crossed) as (Lp & Lm & Lc).
  { by exists ws, sw, idx, s2, sp, s3, s4. }
  unfold never_asserts. rewrite bind_step. unfold py_assert.
  assert (length (parents ++ mutated ++ crossed) = population_size self) as ->.
  { rewrite !length_app. lia. }
  rewrite Nat.eqb_refl. unfold ret at 1. cbv beta iota.
  rewrite bind_step, update_population_count_run. cbv beta iota.
  rewrite bind_step. unfold modify. cbv beta iota. done.
Qed.

Lemma search_iteration_never_asserts (fuel i : nat) (loc : Locals) (s : Store) :
  search_inv self i loc s → never_asserts (search_iteration self fuel i loc s).
Proof.
  intros Hinv. unfold search_iteration.
  apply bind_never_asserts; [by apply search_evaluate_never_asserts |].
  intros r s1 _. apply search_vary_never_asserts. by destruct Hinv.
Qed.

(** A generation that returns has made its population of the three parts. *)
Lemma search_iteration_assembled (fuel i : nat) (loc : Locals) (s : Store) loc' s' :
  search_iteration self fuel i loc s = Done (loc', s') →
  ∃ r s1 parents mutated crossed,
    search_evaluate self i loc s = Done (r, s1)
    ∧ assembled self fuel s1 parents mutated crossed
    ∧ population loc' = parents ++ mutated ++ crossed.
Proof.
  intros Hrun. unfold search_iteration in Hrun.
  apply bind_Done in Hrun as (r & s1 & Hev & Hrun).
  unfold search_vary in Hrun.
  apply bind_Done in Hrun as (ws & sw & Hws & Hrun).
  apply bind_Done in Hrun as (fr & ? & H1 & Hrun). apply get_Done in H1 as [-> ->].
  apply bind_Done in Hrun as (idx & s2 & Hidx & Hrun).
  apply bind_Done in Hrun as (parents & sp & Hpar & Hrun).
  apply bind_Done in Hrun as (pps & ? & H1 & Hrun). apply gather_Done in H1 as [-> _].
  apply bind_Done in Hrun as (ptps & ? & H1 & Hrun). apply gather_Done in H1 as [-> _].
  apply bind_Done in Hrun as (pls & ? & H1 & Hrun). apply gather_Done in H1 as [-> _].
  apply bind_Done in Hrun as (pms & ? & H1 & Hrun). apply gather_Done in H1 as [-> _].
  apply bind_Done in Hrun as (mutated & s3 & Hmut & Hrun).
  apply bind_Done in Hrun as (crossed & s4 & Hcro & Hrun).
  apply bind_Done in Hrun as (? & ? & H1 & Hrun). apply py_assert_Done in H1 as [_ <-].
  apply bind_Done in Hrun as (? & s5 & H1 & Hrun).
  apply bind_Done in Hrun as (? & s6 & H2 & Hrun).
  apply ret_Done in Hrun as [<- _].
  exists r, s1, parents, mutated, crossed. split; [done |]. split; [| done].
  by exists ws, sw, idx, s2, sp, s3, s4.
Qed.

(** C2. The constructor stops with an AssertionError exactly when
    population_size differs from parent_size + mutation_size +
    crossover_size.  In a run, the population of every generation has
    population_size genes.  The next population is made of three parts in
    a fixed order: first the parents that are drawn from the frontier,
    then what the loop of the mutations returns, then what the loop of
    the crossovers returns.  Whatever these three computations return,
    the parts have parent_size, mutation_size and crossover_size genes,
    and so population_size genes together: the assertion on the length
    of the next population holds by construction, and no generation of a
    run ends in an AssertionError. *)
Theorem population_size_invariant (fuel i : nat) (s0 : Store) loc s :
  __init__ self = Done s0 →
  search_upto self fuel i s0 = Done (loc, s) →
  (∀ args : Args,
      __init__ args = Raise AssertionError ↔
      population_size args
      ≠ (parent_size args + mutation_size args + crossover_size args)%nat)
  ∧ population_size self = (parent_size self + mutation_size self + crossover_size self)%nat
  ∧ length (population loc) = population_size self
  ∧ (∀ fuel' s1 parents mutated crossed,
        assembled self fuel' s1 parents mutated crossed →
        length parents = parent_size self
        ∧ length mutated = mutation_size self
        ∧ length crossed = crossover_size self
        ∧ length (parents ++ mutated ++ crossed) = population_size self)
  ∧ (∀ fuel' loc' s',
        search_iteration self fuel' i loc s = Done (loc', s') →
        ∃ r s1 parents mutated crossed,
          search_evaluate self i loc s = Done (r, s1)
          ∧ assembled self fuel' s1 parents mutated crossed
          ∧ population loc' = parents ++ mutated ++ crossed
          ∧ length (population loc') = population_size self)
  ∧ (∀ fuel', search_iteration self fuel' i loc s ≠ Raise AssertionError).
Proof.
  intros Hinit Hupto.
  pose proof (search_upto_inv self _ _ _ _ _ Hinit Hupto) as Hinv.
  pose proof Hinv as [Hsizes Hlen _ _ _ _ _].
  split; [| split; [done | split; [done | split; [| split]]]].
  - intros args. apply init_AssertionError.
  - intros fuel' s1 parents mutated crossed Hasm.
    destruct (assembled_lengths _ _ _ _ _ Hasm) as (Lp & Lm & Lc).
    split; [done |]. split; [done |]. split; [done |]. rewrite !length_app. lia.
  - intros fuel' loc' s' Hrun.
    destruct (search_iteration_assembled _ _ _ _ _ _ Hrun)
      as (r & s1 & parents & mutated & crossed & Hev & Hasm & Hpop).
    exists r, s1, parents, mutated, crossed.
    split; [done |]. split; [done |]. split; [done |].
    destruct (assembled_lengths _ _ _ _ _ Hasm) as (Lp & Lm & Lc).
    rewrite Hpop, !length_app. lia.
  - intros fuel'. by apply search_iteration_never_asserts.
Qed.
End Assembly.

(** ** Properties of the brute-force search *)

Section BruteForceProperties.
Context {conv : Converter} {evaluator : Evaluator} {front : ParetoFront}
        {gen : Generators}.
Context (self : Args).

Lemma brute_bind_step {A B} (c : Brute A) (k : A → Brute B) (s : Store) :
  brute_bind c k s
  = match c s with
    | Outcome (Done (a, s')) => k a s'
    | Outcome (Raise e) => Outcome (Raise e)
    | Outcome OutOfFuel => Outcome OutOfFuel
    | TypeError => TypeError
    end.
Proof. reflexivity. Qed.

Lemma brute_bind_never_returns {A B} (c : Brute A) (k : A → Brute B) (s : Store) :
  (∀ a s1 r, k a s1 ≠ Outcome (Done r)) → ∀ r, brute_bind c k s ≠ Outcome (Done r).
Proof.
  intros Hk r. rewrite brute_bind_step.
  destruct (c s) as [[[a s1]|e|]|]; [apply Hk | done | done | done].
Qed.

Lemma brute_bind_stops {A B} (c : Brute A) (k : A → Brute B) (s : Store) :
  (∀ r, c s ≠ Outcome (Done r)) → ∀ r, brute_bind c k s ≠ Outcome (Done r).
Proof.
  intros Hc r. rewrite brute_bind_step.
  destruct (c s) as [[[a s1]|e|]|]; [by destruct (Hc (a, s1)) | done | done | done].
Qed.

Lemma brute_batch_never_returns (population : list Gene) (batch idx : nat) (s : Store) r :
  brute_batch population batch idx s ≠ Outcome (Done r).
Proof.
  unfold brute_batch. revert r. apply brute_bind_never_returns.
  intros [[[ps ts] ls] ms] s1. apply brute_bind_never_returns.
  intros _ s2. apply brute_bind_never_returns.
  intros _ s3 r. discriminate.
Qed.

Lemma py_range_first (stop step : nat) (s : Store) :
  (0 < stop)%nat → (0 < step)%nat →
  ∃ rest, py_range stop step s = Done (O :: rest, s).
Proof.
  intros Hstop Hstep. unfold py_range.
  destruct (Nat.eqb_spec step 0) as [? | _]; [lia |].
  assert (0 < (stop + step - 1) / step)%nat as Hm by (apply Nat.div_str_pos; lia).
  destruct ((stop + step - 1) / step)%nat as [|m]; [lia |].
  cbn [seq map]. unfold ret. eauto.
Qed.

Lemma semi_brute_force_never_returns (fuel : nat) (stored : option (list Gene))
    (n_samples batch : nat) (s : Store) r :
  (0 < n_samples)%nat →
  semi_brute_force self fuel stored n_samples batch s ≠ Outcome (Done r).
Proof.
  intros Hn. unfold semi_brute_force. rewrite brute_bind_step.
  destruct (initial_pool self fuel stored n_samples s) as [[[population s1]|e|]|];
    [| done | done | done].
  rewrite brute_bind_step. unfold lift at 1.
  destruct (Nat.eq_dec batch O) as [-> | Hbatch].
  - unfold py_range. cbn. discriminate.
  - destruct (py_range_first n_samples batch s1) as [rest ->]; [done | lia |].
    cbn [brute_for]. revert r. apply brute_bind_stops.
    intros r. apply brute_batch_never_returns.
Qed.

(** X20. [semi_brute_force] does not survive its first batch.  When a
    gene is asked for it never returns, whatever the file of the stored
    population holds: the step of the range is 0 and ValueError is
    raised, or the first batch is entered and ends at the latest at the
    call [self.plot_search_state(iter=idx)], which raises TypeError.  On
    a fresh object, with a pool that is not empty and a batch size that
    is not 0, the first batch is measured, the frontier is updated, and
    the TypeError of this call is the outcome.  When no gene is asked
    for, there is no batch and the method returns without a change. *)
Theorem semi_brute_force_stops_at_the_first_plot (fuel : nat) (stored : option (list Gene))
    (n_samples batch : nat) (s : Store) :
  ((0 < n_samples)%nat →
   ∀ r, semi_brute_force self fuel stored n_samples batch s ≠ Outcome (Done r))
  ∧ (∀ population s1,
        initial_pool self fuel stored n_samples s = Outcome (Done (population, s1)) →
        population ≠ [] → (0 < n_samples)%nat → (0 < batch)%nat →
        attrs s = attrs new_store →
        (∀ pts, Forall (fun k => (k < length pts)%nat) (find_pareto_points pts true)) →
        semi_brute_force self fuel stored n_samples batch s = TypeError)
  ∧ (n_samples = O → (0 < batch)%nat →
     ∀ population,
       semi_brute_force self fuel (Some population) n_samples batch s
       = Outcome (Done (tt, s))).
Proof.
  split; [| split].
  - intros Hn r. by apply semi_brute_force_never_returns.
  - intros population s1 Hpool Hne Hn Hbatch Hfresh Hrange.
    assert (attrs s1 = attrs new_store) as Hfresh1.
    { unfold initial_pool in Hpool. destruct stored as [pop|].
      - unfold lift, ret in Hpool. by injection Hpool as _ <-.
      - unfold lift in Hpool. injection Hpool as Hpool.
        apply sample_random_population_Done in Hpool as ([Ha _] & _).
        unfold same_attrs in Ha. congruence. }
    unfold attrs, new_store in Hfresh1. cbn in Hfresh1.
    injection Hfresh1 as E1 E2 E3 E4 E5 E6 E7.
    unfold semi_brute_force. rewrite brute_bind_step, Hpool.
    rewrite brute_bind_step. unfold lift at 1.
    destruct (py_range_first n_samples batch s1 Hn Hbatch) as [rest ->].
    cbn [brute_for]. rewrite brute_bind_step.
    unfold brute_batch. rewrite drop_0.
    set (curr := take batch population).
    assert (curr ≠ []) as Hcurr.
    { unfold curr. destruct population; [done |]. destruct batch; [lia | done]. }
    rewrite brute_bind_step. unfold lift at 1. rewrite calculate_constraints_run.
    cbv beta iota. rewrite brute_bind_step. unfold lift at 1, modify at 1.
    cbv beta iota. rewrite brute_bind_step. unfold lift at 1.
    match goal with |- context [_update_pareto_front true ?s2] =>
      destruct (update_pareto_front_run true s2) as [s3 ->] end.
    + cbn. rewrite E3. cbn. by destruct curr.
    + cbn. by rewrite E2, E3, !length_app, !length_map.
    + cbn. by rewrite E4, E3, !length_app, !length_map.
    + cbn. by rewrite E5, E3, !length_app, !length_map.
    + cbn. by rewrite E6, E3, !length_app, !length_map.
    + eapply Forall_impl; [apply Hrange |]. intros k Hk.
      rewrite frontier_points_length in Hk; [done | |];
        cbn; rewrite ?E5, ?E6, E3, !length_app, !length_map; done.
    + reflexivity.
  - intros -> Hbatch population. unfold semi_brute_force.
    rewrite brute_bind_step. unfold initial_pool, lift at 1, ret at 1.
    rewrite brute_bind_step. unfold lift at 1, py_range.
    destruct (Nat.eqb_spec batch 0) as [? | _]; [lia |].
    assert ((0 + batch - 1) / batch = 0)%nat as -> by (apply Nat.div_small; lia).
    reflexivity.
Qed.

(** X21. [run_search]: when the sizes do not add up it raises the
    AssertionError of the constructor, with or without brute force; with
    brute force and a gene asked for it never returns; and when the
    constructor returns an object, [run_search] without brute force is
    the search on this object, which raises nothing under the conditions
    on the sizes and on [find_pareto_points]. *)
Theorem run_search_outcomes (fuel : nat) (stored : option (list Gene))
    (n_samples batch : nat) :
  (population_size self ≠ (parent_size self + mutation_size self + crossover_size self)%nat →
   ∀ do_brute_force,
     run_search self fuel stored do_brute_force n_samples batch
     = Outcome (Raise AssertionError))
  ∧ ((0 < n_samples)%nat →
     ∀ r, run_search self fuel stored true n_samples batch ≠ Outcome (Done r))
  ∧ (∀ s0, __init__ self = Done s0 →
           run_search self fuel stored false n_samples batch
           = Outcome (search self fuel s0)
           ∧ ((0 < population_size self)%nat →
              ((0 < mutation_size self)%nat → (0 < parent_size self)%nat) →
              ((0 < crossover_size self)%nat → (2 ≤ parent_size self)%nat) →
              (∀ pts, Forall (fun k => (k < length pts)%nat)
                             (find_pareto_points pts true)) →
              (∀ pts, pts ≠ [] → find_pareto_points pts true ≠ []) →
              no_raise (search self fuel s0))).
Proof.
  split; [| split].
  - intros Hsizes b. unfold run_search.
    by rewrite (proj2 (init_AssertionError self) Hsizes).
  - intros Hn r. unfold run_search.
    destruct (__init__ self) as [s0|e|]; [| done | done].
    by apply semi_brute_force_never_returns.
  - intros s0 Hinit. split; [unfold run_search; by rewrite Hinit |].
    intros Hsize Hmut Hcro Hrange Hsome.
    unfold search. apply bind_no_raise; [| done].
    by apply search_upto_no_raise.
Qed.
End BruteForceProperties.

(** ** The further properties on the small search space *)

Section MoreRuns.
#[local] Existing Instance grid_converter.
#[local] Existing Instance grid_evaluator.
#[local] Existing Instance spec_front.

(** The frontier of the specification returns indices of its points, and
    at least one when there is a point: a point of the least score is
    dominated by no point. *)
Lemma spec_front_in_range (pts : list Point) :
  Forall (fun k => (k < length pts)%nat) (find_pareto_points pts true).
Proof.
  apply Forall_forall. intros k Hk. cbn in Hk. unfold spec_find_pareto_points in Hk.
  apply list_elem_of_filter in Hk as [_ Hk]. apply elem_of_seq in Hk. lia.
Qed.

Lemma least_score (pts : list Point) :
  pts ≠ [] → ∃ i p, pts !! i = Some p ∧ ∀ q, q ∈ pts → (score p <= score q)%Q.
Proof.
  induction pts as [|a pts IH]; [done |]. intros _.
  destruct pts as [|b pts].
  - exists O, a. split; [done |]. intros q Hq. apply list_elem_of_singleton in Hq as ->.
    apply Qle_refl.
  - destruct IH as (i & p & Hi & Hmin); [done |].
    destruct (Qlt_le_dec (score a) (score p)) as [Hlt | Hle].
    + exists O, a. split; [done |]. intros q Hq.
      apply elem_of_cons in Hq as [-> | Hq]; [apply Qle_refl |].
      specialize (Hmin q Hq). lra.
    + exists (S i), p. split; [done |]. intros q Hq.
      apply elem_of_cons in Hq as [-> | Hq]; [done | by apply Hmin].
Qed.

Lemma dominates_score (q p : Point) : dominates q p = true → (score q < score p)%Q.
Proof.
  destruct q as [[q1 q2] q3], p as [[p1 p2] p3]. unfold dominates, score. cbn.
  intros H. apply andb_true_iff in H as [H Hs].
  apply andb_true_iff in H as [H H3]. apply andb_true_iff in H as [H1 H2].
  apply Qle_bool_iff in H1, H2, H3.
  apply orb_true_iff in Hs as [Hs | Hs]; [apply orb_true_iff in Hs as [Hs | Hs] |];
    apply Qltb_lt in Hs; lra.
Qed.

Lemma spec_front_nonempty (pts : list Point) :
  pts ≠ [] → find_pareto_points pts true ≠ [].
Proof.
  intros Hne. destruct (least_score pts Hne) as (i & p & Hi & Hmin).
  assert (i ∈ spec_find_pareto_points pts true) as Hin.
  { apply list_elem_of_filter. split.
    - unfold on_frontier. rewrite Hi. unfold non_dominated.
      apply forallb_forall. intros q Hq. apply list_elem_of_In in Hq.
      destruct (dominates q p) eqn:Hd; [| done].
      apply dominates_score in Hd. specialize (Hmin q Hq). lra.
    - apply elem_of_seq. apply lookup_lt_Some in Hi. lia. }
  cbn. intros E. rewrite E in Hin. by apply elem_of_nil in Hin.
Qed.

Lemma grid_genes_are_valid (g : Gene) : in_space g → valid run_args g.
Proof.
  intros Hg. unfold in_space, allowed_genes in Hg. cbn in Hg.
  apply Forall2_cons_inv_r in Hg as (a & g1 & Ha & Hg & ->).
  apply Forall2_cons_inv_r in Hg as (b & g2 & Hb & Hg & ->).
  apply Forall2_nil_inv_r in Hg as ->.
  assert (∀ v : Z, v ∈ [0; 1; 2] → v = 0 ∨ v = 1 ∨ v = 2) as Hcases.
  { intros v Hv. apply elem_of_cons in Hv as [-> | Hv]; [by left |].
    apply elem_of_cons in Hv as [-> | Hv]; [right; by left |].
    apply elem_of_cons in Hv as [-> | Hv]; [right; by right |].
    by apply elem_of_nil in Hv. }
  apply Hcases in Ha as Ha'. apply Hcases in Hb as Hb'.
  split.
  - unfold params_in_range. cbn.
    destruct Ha' as [-> | [-> | ->]], Hb' as [-> | [-> | ->]];
      split; vm_compute; discriminate.
  - intros bound [= <-]. cbn.
    destruct Ha' as [-> | [-> | ->]]; vm_compute; discriminate.
Qed.

Lemma init_profiles_the_two_extreme_genes_witness :
  ∃ max_gene min_gene,
    Forall2 (fun a v => last a = Some v) allowed_genes max_gene
    ∧ Forall2 (fun a v => head a = Some v) allowed_genes min_gene
    ∧ in_space max_gene ∧ in_space min_gene
    ∧ trace run_store0 = measure_events max_gene ++ measure_events min_gene
    ∧ measured (trace run_store0) = [max_gene; min_gene]
    ∧ attrs run_store0 = attrs new_store.
Proof.
  apply (init_profiles_the_two_extreme_genes run_args run_store0).
  vm_compute. reflexivity.
Defined.

Lemma update_pareto_front_outcome_witness :
  _update_pareto_front true new_store = Raise ValueError.
Proof.
  destruct (update_pareto_front_outcome true new_store) as (_ & _ & Hempty).
  apply Hempty. reflexivity.
Defined.

Lemma weighted_count_outcome_cases_witness :
  _calculate_weighted_count new_store = Raise ValueError
  ∧ ∃ ws, _calculate_weighted_count run_eval2.2 = Done (ws, run_eval2.2)
          ∧ length ws = length (pareto_population (pareto run_eval2.2))
          ∧ Forall (fun w => (0 < w)%Q) ws
          ∧ (Qsum ws == 1)%Q.
Proof.
  split.
  - destruct (weighted_count_outcome_cases new_store) as (Hempty & _).
    apply Hempty. reflexivity.
  - destruct (weighted_count_outcome_cases run_eval2.2) as (_ & _ & Hsome).
    apply (Hsome [0; 0]); [vm_compute; by left | vm_compute; discriminate].
Defined.

Lemma weights_follow_counts_witness :
  ((16 # 192) <= (16 # 96))%Q ∧ ((16 # 96) <= 2 * (16 # 192))%Q.
Proof.
  destruct (weights_follow_counts run_eval2.2 run_eval2.2 run_weights 2 0
              [1; 1] [0; 0] (16 # 96) (16 # 192)) as (Hle & _ & Htwice);
    [vm_compute; reflexivity .. |].
  split; [| exact Htwice]. apply Hle. vm_compute. discriminate.
Defined.

Lemma crossover_at_the_extremes_witness :
  _crossover (gen := run_draws) first_parent_only [[1; 2]; [0; 0]] new_store
  = Done ([1; 2], set_np_pos 2 new_store)
  ∧ _crossover (gen := run_draws) second_parent_only [[1; 2]; [0; 0]] new_store
    = Done ([0; 0], set_np_pos 2 new_store).
Proof.
  split.
  - destruct (crossover_at_the_extremes (gen := run_draws) first_parent_only
                [1; 2] [] [[0; 0]] new_store) as [Hfirst _].
    apply Hfirst; [vm_compute; discriminate | cbn; lia].
  - destruct (crossover_at_the_extremes (gen := run_draws) second_parent_only
                [1; 2] [0; 0] [] new_store) as [_ Hsecond].
    apply Hsecond; [vm_compute; discriminate | cbn; lia].
Defined.

Lemma counter_sums_to_the_populations_witness :
  total_count (counts run_gen2.2) = 12.
Proof.
  apply (counter_sums_to_the_populations (gen := run_draws) run_args 10 2 run_store0
           run_gen2.1 run_gen2.2);
    vm_compute; reflexivity.
Defined.


Lemma crossover_loop_of_one_gene_never_ends_witness :
  crossover_loop (gen := run_draws) run_args 7 [[0; 0]; [0; 0]] stuck_start.2 = OutOfFuel.
Proof.
  apply (crossover_loop_of_one_gene_never_ends (gen := run_draws) run_args 7
           [[0; 0]; [0; 0]] [0; 0] stuck_start.2).
  - cbn. lia.
  - cbn. lia.
  - repeat constructor.
  - reflexivity.
  - exists 4. vm_compute. reflexivity.
Defined.

Lemma mutation_loop_without_mutation_never_ends_witness :
  mutation_loop (gen := run_draws) never_mutate 7 [[0; 0]] stuck_start.2 = OutOfFuel.
Proof.
  apply (mutation_loop_without_mutation_never_ends (gen := run_draws) never_mutate 7
           [[0; 0]] stuck_start.2).
  - vm_compute. discriminate.
  - cbn. lia.
  - discriminate.
  - repeat constructor. exists 4. vm_compute. reflexivity.
Defined.

Lemma loops_quotas_and_parents_witness :
  crossover_loop (gen := run_draws) twins_args 3 [[0; 0]] new_store = Done ([], new_store)
  ∧ crossover_loop (gen := run_draws) run_args 4 [[0; 0]] new_store = Raise ValueError
  ∧ mutation_loop (gen := run_draws) run_args 4 [] new_store = Raise IndexError.
Proof.
  split; [| split].
  - destruct (loops_quotas_and_parents (gen := run_draws) twins_args 3 [[0; 0]] new_store)
      as (Hzero & _).
    apply Hzero. reflexivity.
  - destruct (loops_quotas_and_parents (gen := run_draws) run_args 3 [[0; 0]] new_store)
      as (_ & _ & Hfew & _).
    apply Hfew; cbn; lia.
  - destruct (loops_quotas_and_parents (gen := run_draws) run_args 3 [] new_store)
      as (_ & _ & _ & Hnone).
    apply Hnone; [cbn; lia | reflexivity].
Defined.

Lemma search_of_an_empty_population_witness :
  search (gen := run_draws) empty_args 5 run_store0 = Raise ValueError.
Proof.
  apply (search_of_an_empty_population (gen := run_draws) empty_args 5 run_store0).
  - reflexivity.
  - vm_compute. reflexivity.
  - cbn. lia.
Defined.

Lemma search_raises_nothing_witness :
  no_raise (search (gen := run_draws) run_args 10 run_store0)
  ∧ ∀ n, no_raise (search_upto (gen := run_draws) run_args 10 n run_store0).
Proof.
  apply (search_raises_nothing (gen := run_draws) run_args 10 run_store0).
  - vm_compute. reflexivity.
  - cbn. lia.
  - cbn. lia.
  - cbn. lia.
  - apply spec_front_in_range.
  - apply spec_front_nonempty.
Defined.

Lemma sample_random_population_returns_witness :
  no_raise (sample_random_population (gen := run_draws) run_args 4 4 new_store)
  ∧ ∃ pop s', sample_random_population (gen := run_draws) run_args 4 4 new_store
              = Done (pop, s').
Proof.
  destruct (sample_random_population_returns (gen := run_draws) run_args 4 4 new_store)
    as [Hnr Hdone].
  - repeat constructor; discriminate.
  - split; [exact Hnr |]. apply Hdone; [apply grid_genes_are_valid | lia].
Defined.

Lemma generation_that_cannot_end_witness :
  search_vary (gen := zero_draws) never_mutate 9 stuck_eval.2 = OutOfFuel.
Proof.
  refine (generation_that_cannot_end (gen := zero_draws) never_mutate 5 0 run_store0
            stuck_start.1 stuck_start.2 stuck_eval.1 stuck_eval.2 [0; 0] _ _ _ _ _ _ 9).
  - vm_compute. reflexivity.
  - vm_compute. reflexivity.
  - vm_compute. reflexivity.
  - cbn. lia.
  - vm_compute. discriminate.
  - left. split; [cbn; lia | vm_compute; repeat constructor].
Defined.

Lemma semi_brute_force_stops_at_the_first_plot_witness :
  semi_brute_force (gen := zero_draws) run_args 5 (Some [[0; 0]; [1; 1]; [2; 2]]) 2 1
    run_store0 = TypeError
  ∧ semi_brute_force (gen := zero_draws) run_args 5 None 2 1 run_store0
    ≠ Outcome (Done (tt, run_store0)).
Proof.
  split.
  - destruct (semi_brute_force_stops_at_the_first_plot (gen := zero_draws) run_args 5
                (Some [[0; 0]; [1; 1]; [2; 2]]) 2 1 run_store0) as (_ & Hfail & _).
    apply (Hfail [[0; 0]; [1; 1]] run_store0);
      [reflexivity | discriminate | lia | lia | reflexivity | apply spec_front_in_range].
  - destruct (semi_brute_force_stops_at_the_first_plot (gen := zero_draws) run_args 5
                None 2 1 run_store0) as (Hnever & _).
    apply Hnever. lia.
Defined.

Lemma run_search_outcomes_witness :
  run_search (gen := zero_draws) bad_sizes 5 None false 2 1 = Outcome (Raise AssertionError)
  ∧ run_search (gen := zero_draws) run_args 5 None true 2 1
    ≠ Outcome (Done (tt, run_store0))
  ∧ run_search (gen := run_draws) run_args 10 None false 2 1
    = Outcome (search (gen := run_draws) run_args 10 run_store0)
  ∧ no_raise (search (gen := run_draws) run_args 10 run_store0).
Proof.
  split; [| split].
  - destruct (run_search_outcomes (gen := zero_draws) bad_sizes 5 None 2 1) as (Hbad & _).
    apply Hbad. cbn. lia.
  - destruct (run_search_outcomes (gen := zero_draws) run_args 5 None 2 1)
      as (_ & Hnever & _).
    apply Hnever. lia.
  - destruct (run_search_outcomes (gen := run_draws) run_args 10 None 2 1)
      as (_ & _ & Hsearch).
    destruct (Hsearch run_store0) as [Heq Hnr]; [vm_compute; reflexivity |].
    split; [exact Heq |].
    apply Hnr; [cbn; lia | cbn; lia | cbn; lia | apply spec_front_in_range
               | apply spec_front_nonempty].
Defined.

Lemma population_size_invariant_witness :
  length (population run_gen1.1) = 4%nat
  ∧ (∃ r s1 parents mutated crossed,
        search_evaluate run_args 1 run_gen1.1 run_gen1.2 = Done (r, s1)
        ∧ assembled (gen := run_draws) run_args 10 s1 parents mutated crossed
        ∧ population run_gen2.1 = parents ++ mutated ++ crossed
        ∧ length (population run_gen2.1) = 4%nat)
  ∧ search_iteration (gen := run_draws) run_args 10 1 run_gen1.1 run_gen1.2
    ≠ Raise AssertionError.
Proof.
  assert (__init__ run_args = Done run_store0) as Hinit by (vm_compute; reflexivity).
  assert (search_upto (gen := run_draws) run_args 10 1 run_store0
          = Done (run_gen1.1, run_gen1.2)) as Hrun by (vm_compute; reflexivity).
  destruct (population_size_invariant (gen := run_draws) run_args 10 1 run_store0
              run_gen1.1 run_gen1.2 Hinit Hrun) as (_ & _ & Hlen & _ & Hdone & Hnever).
  split; [exact Hlen |]. split; [| apply Hnever].
  apply (Hdone 10%nat run_gen2.1 run_gen2.2). vm_compute. reflexivity.
Defined.
End MoreRuns.
